(** * Simulation_Study: an M/M/1 queue simulated with SimPy

    Shallow embedding of [Simulation_Study.py] and of the part of SimPy's
    event loop the script drives ([Environment.schedule/step/run],
    [Process._resume], [Timeout], [Store.put/get]).

    Modelling decisions:
    - Python [float]s are modelled as exact rationals ([Q]) and Python
      [int]s as [Z].  The rounding of binary64, its infinities and the
      OverflowError of [int] on an infinite quotient are not modelled.
      The statements below are about counts, about the order of events
      and of times, and about which expression the code computes on which
      operands; none of them rests on algebra over rounded values.
    - [random.expovariate(lambd)] is [-log(1 - random())/lambd].  The
      seeded stream of the numerators [-log(1 - random())] is a parameter
      [stdexp seed n] (the [n]-th draw after [random.seed(seed)]).
    - SimPy's heap [env._queue] is a list of entries; [heappop] extracts the
      entry that is least for the key (time, priority, eid).
    - A suspended process is the continuation stored in the event it
      waits for: [Timeout k] carries the frame [k] of the process that
      yielded it.
    - [trace] is an observation history (admissions, drops, hand-overs to
      the server, the server's [print]); the program never reads it. *)

From Stdlib Require Import ZArith QArith Qround List Bool Lia Lqa Permutation Sorted.
Import ListNotations.
Open Scope Z_scope.

(** ** Experimental data (the module-level constants) *)

Record Config := mkConfig {
  SERVER_RATE : Q;
  TIME_ARRIVAL : Q;
  SIZE_PACKET : Q;
  RANDOM_SEED : Z;
  SIMULATION_TIME : Q;
  NUMBER_PACKETS : Z;
  QUEUE_LIMIT : Q;
  LIMIT_BYTES : bool;
  SAMPLING_INTERVALL : Q
}.

(** ** Data model *)

Record Packet := mkPacket { id : Z; size : Z; time : Q }.

Inductive Exn := ZeroDivisionError | ValueError.

Inductive Proc := Generator | Server | Monitor.

(** The frame of a process suspended at a [yield env.timeout(...)]. *)
Inductive Cont :=
| KGenerator (i : Z)          (* loop index of [for i in range(NUMBER_PACKETS)] *)
| KServer (packet : Packet)   (* the packet in service *)
| KMonitor.

Inductive Event :=
| Initialize (p : Proc)                 (* starts process [p] *)
| Timeout (k : Cont)                    (* callbacks: [k]'s [_resume] *)
| StorePut                              (* callbacks: [queue._trigger_get] *)
| StoreGet (item : Packet)              (* succeeded get; callbacks: [_trigger_put], [server._resume] *)
| ProcessEnd (p : Proc) (exc : option Exn)  (* the Process event itself *)
| Until.                                (* callbacks: [StopSimulation.callback] *)

Definition URGENT : nat := 0%nat.
Definition NORMAL : nat := 1%nat.

Record Entry := mkEntry { at_time : Q; priority : nat; eid : nat; event : Event }.

Inductive Obs :=
| Enqueued (p : Packet)
| Dropped (p : Packet)
| Taken (p : Packet) (t : Q)
| Processed (p : Packet) (t : Q).

Record State := mkState {
  (* simpy.Environment *)
  now : Q;
  heap : list Entry;
  next_eid : nat;
  (* queue = simpy.Store(env) *)
  items : list Packet;
  get_queue : nat;              (* pending StoreGet requests, all the server's *)
  (* random *)
  rng : nat;                    (* draws consumed so far *)
  (* module-level variables *)
  byte_size : Z;
  packets_sent : Z;
  packets_rec : Z;
  packets_drop : Z;
  packets_queue : Z;
  queue_times : list Q;
  queue_sizes : list Z;
  byte_sizes : list Z;
  packet_times : list Q;
  samp_time : list Q;
  packets_recorded : Z;
  bytes_recorded : Z;
  queue_avg_sizes : list Q;
  queue_avg_times : list Q;
  (* observation history *)
  trace : list Obs
}.

(** Field updates. *)

Definition set_now v s := mkState v (heap s) (next_eid s) (items s) (get_queue s) (rng s)
  (byte_size s) (packets_sent s) (packets_rec s) (packets_drop s) (packets_queue s)
  (queue_times s) (queue_sizes s) (byte_sizes s) (packet_times s) (samp_time s)
  (packets_recorded s) (bytes_recorded s) (queue_avg_sizes s) (queue_avg_times s) (trace s).
Definition set_heap v s := mkState (now s) v (next_eid s) (items s) (get_queue s) (rng s)
  (byte_size s) (packets_sent s) (packets_rec s) (packets_drop s) (packets_queue s)
  (queue_times s) (queue_sizes s) (byte_sizes s) (packet_times s) (samp_time s)
  (packets_recorded s) (bytes_recorded s) (queue_avg_sizes s) (queue_avg_times s) (trace s).
Definition set_next_eid v s := mkState (now s) (heap s) v (items s) (get_queue s) (rng s)
  (byte_size s) (packets_sent s) (packets_rec s) (packets_drop s) (packets_queue s)
  (queue_times s) (queue_sizes s) (byte_sizes s) (packet_times s) (samp_time s)
  (packets_recorded s) (bytes_recorded s) (queue_avg_sizes s) (queue_avg_times s) (trace s).
Definition set_items v s := mkState (now s) (heap s) (next_eid s) v (get_queue s) (rng s)
  (byte_size s) (packets_sent s) (packets_rec s) (packets_drop s) (packets_queue s)
  (queue_times s) (queue_sizes s) (byte_sizes s) (packet_times s) (samp_time s)
  (packets_recorded s) (bytes_recorded s) (queue_avg_sizes s) (queue_avg_times s) (trace s).
Definition set_get_queue v s := mkState (now s) (heap s) (next_eid s) (items s) v (rng s)
  (byte_size s) (packets_sent s) (packets_rec s) (packets_drop s) (packets_queue s)
  (queue_times s) (queue_sizes s) (byte_sizes s) (packet_times s) (samp_time s)
  (packets_recorded s) (bytes_recorded s) (queue_avg_sizes s) (queue_avg_times s) (trace s).
Definition set_rng v s := mkState (now s) (heap s) (next_eid s) (items s) (get_queue s) v
  (byte_size s) (packets_sent s) (packets_rec s) (packets_drop s) (packets_queue s)
  (queue_times s) (queue_sizes s) (byte_sizes s) (packet_times s) (samp_time s)
  (packets_recorded s) (bytes_recorded s) (queue_avg_sizes s) (queue_avg_times s) (trace s).
Definition set_byte_size v s := mkState (now s) (heap s) (next_eid s) (items s) (get_queue s) (rng s)
  v (packets_sent s) (packets_rec s) (packets_drop s) (packets_queue s)
  (queue_times s) (queue_sizes s) (byte_sizes s) (packet_times s) (samp_time s)
  (packets_recorded s) (bytes_recorded s) (queue_avg_sizes s) (queue_avg_times s) (trace s).
Definition set_packets_sent v s := mkState (now s) (heap s) (next_eid s) (items s) (get_queue s) (rng s)
  (byte_size s) v (packets_rec s) (packets_drop s) (packets_queue s)
  (queue_times s) (queue_sizes s) (byte_sizes s) (packet_times s) (samp_time s)
  (packets_recorded s) (bytes_recorded s) (queue_avg_sizes s) (queue_avg_times s) (trace s).
Definition set_packets_rec v s := mkState (now s) (heap s) (next_eid s) (items s) (get_queue s) (rng s)
  (byte_size s) (packets_sent s) v (packets_drop s) (packets_queue s)
  (queue_times s) (queue_sizes s) (byte_sizes s) (packet_times s) (samp_time s)
  (packets_recorded s) (bytes_recorded s) (queue_avg_sizes s) (queue_avg_times s) (trace s).
Definition set_packets_drop v s := mkState (now s) (heap s) (next_eid s) (items s) (get_queue s) (rng s)
  (byte_size s) (packets_sent s) (packets_rec s) v (packets_queue s)
  (queue_times s) (queue_sizes s) (byte_sizes s) (packet_times s) (samp_time s)
  (packets_recorded s) (bytes_recorded s) (queue_avg_sizes s) (queue_avg_times s) (trace s).
Definition set_packets_queue v s := mkState (now s) (heap s) (next_eid s) (items s) (get_queue s) (rng s)
  (byte_size s) (packets_sent s) (packets_rec s) (packets_drop s) v
  (queue_times s) (queue_sizes s) (byte_sizes s) (packet_times s) (samp_time s)
  (packets_recorded s) (bytes_recorded s) (queue_avg_sizes s) (queue_avg_times s) (trace s).
Definition set_queue_times v s := mkState (now s) (heap s) (next_eid s) (items s) (get_queue s) (rng s)
  (byte_size s) (packets_sent s) (packets_rec s) (packets_drop s) (packets_queue s)
  v (queue_sizes s) (byte_sizes s) (packet_times s) (samp_time s)
  (packets_recorded s) (bytes_recorded s) (queue_avg_sizes s) (queue_avg_times s) (trace s).
Definition set_queue_sizes v s := mkState (now s) (heap s) (next_eid s) (items s) (get_queue s) (rng s)
  (byte_size s) (packets_sent s) (packets_rec s) (packets_drop s) (packets_queue s)
  (queue_times s) v (byte_sizes s) (packet_times s) (samp_time s)
  (packets_recorded s) (bytes_recorded s) (queue_avg_sizes s) (queue_avg_times s) (trace s).
Definition set_byte_sizes v s := mkState (now s) (heap s) (next_eid s) (items s) (get_queue s) (rng s)
  (byte_size s) (packets_sent s) (packets_rec s) (packets_drop s) (packets_queue s)
  (queue_times s) (queue_sizes s) v (packet_times s) (samp_time s)
  (packets_recorded s) (bytes_recorded s) (queue_avg_sizes s) (queue_avg_times s) (trace s).
Definition set_packet_times v s := mkState (now s) (heap s) (next_eid s) (items s) (get_queue s) (rng s)
  (byte_size s) (packets_sent s) (packets_rec s) (packets_drop s) (packets_queue s)
  (queue_times s) (queue_sizes s) (byte_sizes s) v (samp_time s)
  (packets_recorded s) (bytes_recorded s) (queue_avg_sizes s) (queue_avg_times s) (trace s).
Definition set_samp_time v s := mkState (now s) (heap s) (next_eid s) (items s) (get_queue s) (rng s)
  (byte_size s) (packets_sent s) (packets_rec s) (packets_drop s) (packets_queue s)
  (queue_times s) (queue_sizes s) (byte_sizes s) (packet_times s) v
  (packets_recorded s) (bytes_recorded s) (queue_avg_sizes s) (queue_avg_times s) (trace s).
Definition set_packets_recorded v s := mkState (now s) (heap s) (next_eid s) (items s) (get_queue s) (rng s)
  (byte_size s) (packets_sent s) (packets_rec s) (packets_drop s) (packets_queue s)
  (queue_times s) (queue_sizes s) (byte_sizes s) (packet_times s) (samp_time s)
  v (bytes_recorded s) (queue_avg_sizes s) (queue_avg_times s) (trace s).
Definition set_bytes_recorded v s := mkState (now s) (heap s) (next_eid s) (items s) (get_queue s) (rng s)
  (byte_size s) (packets_sent s) (packets_rec s) (packets_drop s) (packets_queue s)
  (queue_times s) (queue_sizes s) (byte_sizes s) (packet_times s) (samp_time s)
  (packets_recorded s) v (queue_avg_sizes s) (queue_avg_times s) (trace s).
Definition set_queue_avg_sizes v s := mkState (now s) (heap s) (next_eid s) (items s) (get_queue s) (rng s)
  (byte_size s) (packets_sent s) (packets_rec s) (packets_drop s) (packets_queue s)
  (queue_times s) (queue_sizes s) (byte_sizes s) (packet_times s) (samp_time s)
  (packets_recorded s) (bytes_recorded s) v (queue_avg_times s) (trace s).
Definition set_queue_avg_times v s := mkState (now s) (heap s) (next_eid s) (items s) (get_queue s) (rng s)
  (byte_size s) (packets_sent s) (packets_rec s) (packets_drop s) (packets_queue s)
  (queue_times s) (queue_sizes s) (byte_sizes s) (packet_times s) (samp_time s)
  (packets_recorded s) (bytes_recorded s) (queue_avg_sizes s) v (trace s).
Definition set_trace v s := mkState (now s) (heap s) (next_eid s) (items s) (get_queue s) (rng s)
  (byte_size s) (packets_sent s) (packets_rec s) (packets_drop s) (packets_queue s)
  (queue_times s) (queue_sizes s) (byte_sizes s) (packet_times s) (samp_time s)
  (packets_recorded s) (bytes_recorded s) (queue_avg_sizes s) (queue_avg_times s) v.

(** ** A state monad in which a raised exception keeps the state reached *)

Definition M (A : Type) : Type := State -> (Exn + A) * State.

Definition ret {A} (a : A) : M A := fun s => (inr a, s).
Definition bind {A B} (c : M A) (k : A -> M B) : M B :=
  fun s => match c s with
           | (inr a, s') => k a s'
           | (inl e, s') => (inl e, s')
           end.
Definition raise {A} (e : Exn) : M A := fun s => (inl e, s).
Definition gets {A} (f : State -> A) : M A := fun s => (inr (f s), s).
Definition modify (f : State -> State) : M unit := fun s => (inr tt, f s).

Notation "x <- c ;; k" := (bind c (fun x => k))
  (at level 61, c at next level, right associativity).
Notation "c ;; k" := (bind c (fun _ => k))
  (at level 61, right associativity).

(** ** Python arithmetic *)

(** [a / b] on numbers. *)
Definition truediv (a b : Q) : M Q :=
  if Qeq_bool b 0 then raise ZeroDivisionError else ret (a / b)%Q.

(** [int(x)] on a float: truncation toward zero. *)
Definition int (x : Q) : Z := Z.quot (Qnum x) (Z.pos (Qden x)).

(** [sum(l)] and [sum(l)/len(l)] on a non-empty list. *)
Definition sumQ (l : list Q) : Q := fold_left Qplus l 0%Q.
Definition sumZ (l : list Z) : Z := fold_left Z.add l 0.
Definition lenQ {A} (l : list A) : Q := inject_Z (Z.of_nat (length l)).

(** ** The heap of scheduled events *)

Definition key_ltb (a b : Entry) : bool :=
  match (at_time a ?= at_time b)%Q with
  | Lt => true
  | Gt => false
  | Eq => if (priority a <? priority b)%nat then true
          else if (priority b <? priority a)%nat then false
          else (eid a <? eid b)%nat
  end.

Fixpoint heappop (h : list Entry) : option (Entry * list Entry) :=
  match h with
  | [] => None
  | e :: t =>
      match heappop t with
      | None => Some (e, [])
      | Some (m, t') => if key_ltb m e then Some (m, e :: t') else Some (e, t)
      end
  end.

Inductive Status := Suspended | Returned.

(** The figures of the summary printed after the run. *)
Record Summary := mkSummary {
  avg_time : Q;        (* average time for packets in buffer *)
  avg_packets : Q;     (* average number of packets in buffer *)
  avg_bytes : Q;       (* average amount of bytes in buffer *)
  loss : Q;            (* percentage of packet loss *)
  entering : Q         (* percentage of packets entering buffer *)
}.

Inductive Outcome :=
| Continue (s : State)
| Finished (s : State)            (* StopSimulation: the horizon was reached *)
| Crashed (e : Exn) (s : State)   (* an exception left [env.run] *)
| EmptySchedule (s : State).

Section Simulation.

Variable stdexp : Z -> nat -> Q.
Variable cfg : Config.

(** ** SimPy primitives *)

(** [env.schedule(event, priority, delay)] *)
Definition schedule (ev : Event) (prio : nat) (delay : Q) (s : State) : State :=
  set_next_eid (S (next_eid s))
    (set_heap (heap s ++ [mkEntry (now s + delay)%Q prio (next_eid s) ev]) s).

(** [yield env.timeout(delay)] issued by the process whose frame is [k] *)
Definition timeout (delay : Q) (k : Cont) : M unit :=
  if Qlt_le_dec delay 0 then raise ValueError
  else modify (schedule (Timeout k) NORMAL delay).

(** [Store._trigger_get]: serve the first pending get request, if an item
    is there. *)
Definition trigger_get (s : State) : State :=
  match get_queue s, items s with
  | S n, it :: rest =>
      schedule (StoreGet it) NORMAL 0 (set_get_queue n (set_items rest s))
  | _, _ => s
  end.

(** [queue.put(packet)]: the Store is unbounded, so the item is appended
    and the put event succeeds at once. *)
Definition queue_put (packet : Packet) : M unit :=
  modify (fun s => schedule StorePut NORMAL 0 (set_items (items s ++ [packet]) s)).

(** [queue.get()] *)
Definition queue_get : M unit :=
  modify (fun s => trigger_get (set_get_queue (S (get_queue s)) s)).

(** [random.expovariate(lambd)] *)
Definition expovariate (lambd : Q) : M Q :=
  x <- gets (fun s => stdexp (RANDOM_SEED cfg) (rng s)) ;;
  modify (fun s => set_rng (S (rng s)) s) ;;
  truediv x lambd.

Definition observe (o : Obs) : M unit :=
  modify (fun s => set_trace (trace s ++ [o]) s).

(** ** The script's functions *)

Definition toQueue (packet : Packet) : M unit :=
  modify (fun s => set_packets_rec (packets_rec s + 1) s) ;;
  queue_byte_count <- gets (fun s => byte_size s + size packet) ;;
  n <- gets (fun s => length (items s)) ;;
  if LIMIT_BYTES cfg && Qle_bool (QUEUE_LIMIT cfg) (inject_Z queue_byte_count) then
    modify (fun s => set_packets_drop (packets_drop s + 1) s) ;;
    observe (Dropped packet)
  else if negb (LIMIT_BYTES cfg) && Qle_bool (QUEUE_LIMIT cfg) (inject_Z (Z.of_nat n)) then
    modify (fun s => set_packets_drop (packets_drop s + 1) s) ;;
    observe (Dropped packet)
  else
    modify (set_byte_size queue_byte_count) ;;
    modify (fun s => set_packets_queue (packets_queue s + 1) s) ;;
    observe (Enqueued packet) ;;
    queue_put packet.

Definition recorder (packet : Packet) : M unit :=
  arrive_time <- gets now ;;
  modify (fun s => set_queue_times (queue_times s ++ [(arrive_time - time packet)%Q]) s) ;;
  modify (fun s => set_packet_times (packet_times s ++ [arrive_time]) s) ;;
  avg <- (fun s => truediv (sumQ (queue_times s)) (lenQ (queue_times s)) s) ;;
  modify (fun s => set_queue_avg_times (queue_avg_times s ++ [avg]) s) ;;
  modify (fun s => set_packets_recorded (packets_recorded s + 1) s) ;;
  modify (fun s => set_bytes_recorded (bytes_recorded s + size packet) s).

(** [generator]: the head of iteration [i] of the [for] loop, up to its
    [yield]. *)
Definition generator_loop (i : Z) : M Status :=
  if i <? NUMBER_PACKETS cfg then
    lambd <- truediv 1 (TIME_ARRIVAL cfg) ;;
    d <- expovariate lambd ;;
    timeout d (KGenerator i) ;;
    ret Suspended
  else ret Returned.

(** [generator]: the rest of iteration [i], after its [yield]. *)
Definition generator_resume (i : Z) : M Status :=
  modify (fun s => set_packets_sent (packets_sent s + 1) s) ;;
  sent <- gets packets_sent ;;
  lambd <- truediv 1 (SIZE_PACKET cfg) ;;
  x <- expovariate lambd ;;
  t <- gets now ;;
  toQueue (mkPacket sent (int x) t) ;;
  generator_loop (i + 1).

(** [server]: [packet = (yield queue.get())] *)
Definition server_loop : M Status :=
  queue_get ;;
  ret Suspended.

(** [server]: resumed with the packet of a succeeded get. *)
Definition server_take (packet : Packet) : M Status :=
  modify (fun s => set_byte_size (byte_size s - size packet) s) ;;
  t <- gets now ;;
  observe (Taken packet t) ;;
  d <- truediv (inject_Z (size packet) * 8) (SERVER_RATE cfg) ;;
  timeout d (KServer packet) ;;
  ret Suspended.

(** [server]: resumed after the service time of [packet]. *)
Definition server_done (packet : Packet) : M Status :=
  recorder packet ;;
  t <- gets now ;;
  observe (Processed packet t) ;;
  server_loop.

(** [monitor]: [yield env.timeout(1/SAMPLING_INTERVALL)] *)
Definition monitor_loop : M Status :=
  d <- truediv 1 (SAMPLING_INTERVALL cfg) ;;
  timeout d KMonitor ;;
  ret Suspended.

(** [monitor]: one sample, then the next [yield]. *)
Definition monitor_resume : M Status :=
  modify (fun s => set_byte_sizes (byte_sizes s ++ [byte_size s]) s) ;;
  modify (fun s => set_queue_sizes (queue_sizes s ++ [Z.of_nat (length (items s))]) s) ;;
  avg <- (fun s => truediv (inject_Z (sumZ (queue_sizes s))) (lenQ (queue_sizes s)) s) ;;
  modify (fun s => set_queue_avg_sizes (queue_avg_sizes s ++ [avg]) s) ;;
  modify (fun s => set_samp_time (samp_time s ++ [now s]) s) ;;
  monitor_loop.

(** ** The event loop *)

(** [Process._resume]: run the process to its next [yield]; a return or an
    exception triggers the Process event. *)
Definition resume (p : Proc) (body : M Status) (s : State) : State :=
  match body s with
  | (inr Suspended, s') => s'
  | (inr Returned, s') => schedule (ProcessEnd p None) NORMAL 0 s'
  | (inl e, s') => schedule (ProcessEnd p (Some e)) NORMAL 0 s'
  end.

(** The callbacks of an event. *)
Definition dispatch (ev : Event) (s : State) : Outcome :=
  match ev with
  | Initialize Generator => Continue (resume Generator (generator_loop 0) s)
  | Initialize Server => Continue (resume Server server_loop s)
  | Initialize Monitor => Continue (resume Monitor monitor_loop s)
  | Timeout (KGenerator i) => Continue (resume Generator (generator_resume i) s)
  | Timeout (KServer packet) => Continue (resume Server (server_done packet) s)
  | Timeout KMonitor => Continue (resume Monitor monitor_resume s)
  | StorePut => Continue (trigger_get s)
  | StoreGet packet => Continue (resume Server (server_take packet) s)
  | ProcessEnd _ None => Continue s
  | ProcessEnd _ (Some e) => Crashed e s
  | Until => Finished s
  end.

(** [Environment.step] *)
Definition step (s : State) : Outcome :=
  match heappop (heap s) with
  | None => EmptySchedule s
  | Some (e, rest) => dispatch (event e) (set_now (at_time e) (set_heap rest s))
  end.

(** [while True: self.step()] *)
Fixpoint run (fuel : nat) (s : State) : Outcome :=
  match fuel with
  | O => Continue s
  | S n => match step s with
           | Continue s' => run n s'
           | o => o
           end
  end.

(** The state in which the script's module-level statements leave the
    program just before [env.run]. *)
Definition fresh : State :=
  mkState 0%Q [] 0%nat [] 0%nat 0%nat 0 0 0 0 0 [] [] [] [] [] 0 0 [] [] [].

Definition processes : State :=
  schedule (Initialize Monitor) URGENT 0
    (schedule (Initialize Server) URGENT 0
       (schedule (Initialize Generator) URGENT 0 fresh)).

(** [env.run(until=SIMULATION_TIME)] up to the first [step]. *)
Definition start : Exn + State :=
  let s := processes in
  if Qle_bool (SIMULATION_TIME cfg) (now s) then inl ValueError
  else inr (schedule Until URGENT (SIMULATION_TIME cfg - now s)%Q s).

Definition simulate (fuel : nat) : Exn + Outcome :=
  match start with
  | inl e => inl e
  | inr s => inr (run fuel s)
  end.

(** The summary after the run: three averages and two percentages, each
    a division that raises on an empty series or on [packets_rec = 0]. *)
Definition summary : M Summary :=
  a <- (fun s => truediv (sumQ (queue_times s)) (lenQ (queue_times s)) s) ;;
  b <- (fun s => truediv (inject_Z (sumZ (queue_sizes s))) (lenQ (queue_sizes s)) s) ;;
  c <- (fun s => truediv (inject_Z (sumZ (byte_sizes s))) (lenQ (byte_sizes s)) s) ;;
  l <- (fun s => truediv (inject_Z (packets_drop s)) (inject_Z (packets_rec s)) s) ;;
  e <- (fun s => truediv (inject_Z (packets_queue s)) (inject_Z (packets_rec s)) s) ;;
  ret (mkSummary a b c (l * 100) (e * 100)).

(** The mean queueing delay of the infinite-buffer M/M/1 queue. *)
Definition mean_delay : M Q :=
  mean_arrival_rate <- truediv 1 (TIME_ARRIVAL cfg) ;;
  mean_service_requirement <- truediv 1 (SIZE_PACKET cfg * 8) ;;
  let service_capacity := SERVER_RATE cfg in
  let mean_service_rate := (mean_service_requirement * service_capacity)%Q in
  if Qeq_bool (mean_service_rate - mean_arrival_rate) 0 then ret 0%Q
  else truediv 1 (mean_service_rate - mean_arrival_rate).

Inductive Result :=
| Reported (s : State) (r : Summary) (d : Q)
| Raised (e : Exn)
| Stalled                (* the heap ran empty *)
| Unfinished.            (* not enough fuel *)

(** The whole script: the run, then the summary, then the mean delay. *)
Definition script (fuel : nat) : Result :=
  match start with
  | inl e => Raised e
  | inr s0 =>
      match run fuel s0 with
      | Finished s =>
          match (r <- summary ;; d <- mean_delay ;; ret (r, d)) s with
          | (inr (r, d), _) => Reported s r d
          | (inl e, _) => Raised e
          end
      | Crashed e _ => Raised e
      | EmptySchedule _ => Stalled
      | Continue _ => Unfinished
      end
  end.

(** The states of a run: the state before the first [step], the state
    after every [step] that returns, and the state in which [env.run]
    returns at the horizon. *)
Inductive reachable : State -> Prop :=
| reach_start s : start = inr s -> reachable s
| reach_step s s' : reachable s -> step s = Continue s' -> reachable s'
| reach_stop s s' : reachable s -> step s = Finished s' -> reachable s'.

End Simulation.

(** ** Notions used in the statements *)

Definition state_of (o : Outcome) : State :=
  match o with
  | Continue s | Finished s | Crashed _ s | EmptySchedule s => s
  end.

(** The state after [fuel] steps of a run ([fresh] if [env.run] raised at
    once). *)
Definition state_after (stdexp : Z -> nat -> Q) (cfg : Config) (fuel : nat) : State :=
  match start cfg with
  | inl _ => fresh
  | inr s => state_of (run stdexp cfg fuel s)
  end.

Fixpoint sum_of {A} (f : A -> Z) (l : list A) : Z :=
  match l with
  | [] => 0
  | a :: t => f a + sum_of f t
  end.

(** Bytes resident in the Store. *)
Definition resident_bytes (s : State) : Z := sum_of size (items s).

(** Packets that the Store has removed for a get request of the server
    whose event has not been processed yet. *)
Definition handed_over (e : Entry) : list Packet :=
  match event e with
  | StoreGet p => [p]
  | _ => []
  end.

Definition in_handover (s : State) : list Packet := flat_map handed_over (heap s).

Definition handed_bytes (e : Entry) : Z := sum_of size (handed_over e).
Definition handover_bytes (s : State) : Z := sum_of handed_bytes (heap s).

Definition admitted_of (tr : list Obs) : list Packet :=
  flat_map (fun o => match o with Enqueued p => [p] | _ => [] end) tr.

Definition taken_of (tr : list Obs) : list Packet :=
  flat_map (fun o => match o with Taken p _ => [p] | _ => [] end) tr.

Definition processed_times (tr : list Obs) : list Q :=
  flat_map (fun o => match o with Processed _ t => [t] | _ => [] end) tr.

(** The three fields of a run that [toQueue] may change when it rejects,
    and the further ones when it admits. *)
Definition dropped_by (p : Packet) (s s' : State) : Prop :=
  packets_rec s' = packets_rec s + 1 /\
  packets_drop s' = packets_drop s + 1 /\
  packets_queue s' = packets_queue s /\
  byte_size s' = byte_size s /\
  items s' = items s /\
  heap s' = heap s.

Definition admitted_by (p : Packet) (s s' : State) : Prop :=
  packets_rec s' = packets_rec s + 1 /\
  packets_drop s' = packets_drop s /\
  packets_queue s' = packets_queue s + 1 /\
  byte_size s' = byte_size s + size p /\
  items s' = items s ++ [p] /\
  heap s' = heap s ++ [mkEntry (now s + 0)%Q NORMAL (next_eid s) StorePut].

(** A stream of draws given by a finite list, then constant. *)
Definition draws (l : list Q) (d : Q) : Z -> nat -> Q := fun _ n => nth n l d.

Definition nonneg_sizes (s : State) : Prop :=
  Forall (fun p => 0 <= size p) (items s) /\
  Forall (fun e => 0 <= handed_bytes e) (heap s).

(** The server is in one place: waiting in [get_queue], or the target of
    one event of the heap. *)
Definition srv_tok (e : Entry) : Z :=
  match event e with
  | Initialize Server | StoreGet _ | Timeout (KServer _) => 1
  | _ => 0
  end.

Definition server_tokens (s : State) : Z :=
  Z.of_nat (get_queue s) + sum_of srv_tok (heap s).

Definition fifo (s : State) : Prop :=
  admitted_of (trace s) = taken_of (trace s) ++ in_handover s ++ items s.

(** [packet.size*8.0/SERVER_RATE] *)
Definition service_time (cfg : Config) (p : Packet) : Q :=
  (inject_Z (size p) * 8 / SERVER_RATE cfg)%Q.

(** [p] was taken by the server one service time before [t]. *)
Definition served_at (cfg : Config) (tr : list Obs) (p : Packet) (t : Q) : Prop :=
  exists t1, In (Taken p t1) tr /\ (t == t1 + service_time cfg p)%Q.

Definition in_service (cfg : Config) (tr : list Obs) (e : Entry) : Prop :=
  forall p, event e = Timeout (KServer p) -> served_at cfg tr p (at_time e).

Definition service_ok (cfg : Config) (s : State) : Prop :=
  Forall (in_service cfg (trace s)) (heap s) /\
  (forall p t, In (Processed p t) (trace s) -> served_at cfg (trace s) p t) /\
  packet_times s = processed_times (trace s).

(** The observable outputs of a run. *)
Definition counters (s : State) :=
  (packets_sent s, packets_rec s, packets_drop s, packets_queue s,
   packets_recorded s, bytes_recorded s).

Definition series (s : State) :=
  (queue_times s, packet_times s, samp_time s, queue_sizes s, byte_sizes s,
   queue_avg_sizes s, queue_avg_times s).

Definition key_lt (a b : Entry) : Prop :=
  (at_time a < at_time b)%Q \/
  ((at_time a == at_time b)%Q /\
   ((priority a < priority b)%nat \/
    (priority a = priority b /\ (eid a < eid b)%nat))).

(** States from which the event loop takes a further step. *)
Inductive live (stdexp : Z -> nat -> Q) (cfg : Config) : State -> Prop :=
| live_start s : start cfg = inr s -> live stdexp cfg s
| live_step s s' :
    live stdexp cfg s -> step stdexp cfg s = Continue s' -> live stdexp cfg s'.

(** The time at which [env.run] schedules its stop event. *)
Definition horizon (cfg : Config) : Q := (0 + (SIMULATION_TIME cfg - 0))%Q.

Definition until_entry (cfg : Config) : Entry :=
  mkEntry (horizon cfg) URGENT 3%nat Until.

Definition until_ok (cfg : Config) (e : Entry) : Prop :=
  event e = Until -> (at_time e == horizon cfg)%Q /\ priority e = URGENT.

(** The states of the actual run: those from which a step is taken, and
    the one in which [env.run] returns. *)
Definition visited (stdexp : Z -> nat -> Q) (cfg : Config) (s : State) : Prop :=
  live stdexp cfg s \/
  exists s0, live stdexp cfg s0 /\ step stdexp cfg s0 = Finished s.

(** No scheduled event lies in the past. *)
Definition clock_ok (s : State) : Prop :=
  Forall (fun e => (now s <= at_time e)%Q) (heap s).

Definition normal_ok (e : Entry) : Prop :=
  match event e with
  | Initialize _ | Until => True
  | _ => priority e = NORMAL
  end.

Definition stamps_ok (cfg : Config) (s : State) : Prop :=
  Forall (fun t => (t < horizon cfg)%Q) (packet_times s) /\
  Forall (fun t => (t < horizon cfg)%Q) (samp_time s).

Definition stamps_sorted (s : State) : Prop :=
  StronglySorted Qle (packet_times s) /\
  Forall (fun t => (t <= now s)%Q) (packet_times s) /\
  StronglySorted Qle (samp_time s) /\
  Forall (fun t => (t <= now s)%Q) (samp_time s).

(** The packets processed by the server, with their completion times. *)
Definition processed_of (tr : list Obs) : list (Packet * Q) :=
  flat_map (fun o => match o with Processed p t => [(p, t)] | _ => [] end) tr.

(** [arrive_time - packet.time] *)
Definition delay (pt : Packet * Q) : Q := (snd pt - time (fst pt))%Q.

Definition held_ok (s : State) : Prop :=
  Forall (fun p => (time p <= now s)%Q) (items s) /\
  Forall (fun e => forall p, event e = StoreGet p -> (time p <= at_time e)%Q)
         (heap s).

Definition taken_ok (tr : list Obs) : Prop :=
  forall p t1, In (Taken p t1) tr -> (time p <= t1)%Q.

Definition service_pos (cfg : Config) (s : State) : Prop :=
  Forall (fun e => forall p, event e = Timeout (KServer p) ->
                             (0 <= service_time cfg p)%Q) (heap s) /\
  (forall p t, In (Processed p t) (trace s) -> (0 <= service_time cfg p)%Q).

(** Packets that [toQueue] rejected. *)
Definition dropped_of (tr : list Obs) : list Packet :=
  flat_map (fun o => match o with Dropped p => [p] | _ => [] end) tr.

(** The packet in service: the frame of the server's pending timeout. *)
Definition serving_of (e : Entry) : list Packet :=
  match event e with
  | Timeout (KServer p) => [p]
  | _ => []
  end.

Definition serving (s : State) : list Packet := flat_map serving_of (heap s).

Definition in_system (e : Entry) : Z :=
  match event e with
  | Timeout (KServer _) | StoreGet _ => 1
  | _ => 0
  end.

Definition counted (s : State) : Prop :=
  packets_queue s = Z.of_nat (length (admitted_of (trace s))) /\
  packets_drop s = Z.of_nat (length (dropped_of (trace s))) /\
  packets_recorded s = Z.of_nat (length (processed_of (trace s))) /\
  bytes_recorded s = sum_of (fun pt => size (fst pt)) (processed_of (trace s)).

(** [sum(l)/len(l)] over the first [k] entries, for [k = 1 .. len(l)]. *)
Definition meanQ (l : list Q) : Q := (sumQ l / lenQ l)%Q.
Definition meanZ (l : list Z) : Q := (inject_Z (sumZ l) / lenQ l)%Q.
Definition running_means {A} (mean : list A -> Q) (l : list A) : list Q :=
  map (fun k => mean (firstn k l)) (seq 1 (length l)).

(** The packets handed to [toQueue], put into the queue or not. *)
Definition offered_of (tr : list Obs) : list Packet :=
  flat_map (fun o => match o with Enqueued p | Dropped p => [p] | _ => [] end) tr.

(** The generator is the target of at most one event of the heap. *)
Definition gen_tok (e : Entry) : Z :=
  match event e with
  | Initialize Generator | Timeout (KGenerator _) => 1
  | _ => 0
  end.

(** The size [generator] gives a packet from the draw [x]:
    [int(x/(1/SIZE_PACKET))]. *)
Definition size_of_draw (cfg : Config) (x : Q) : Z :=
  int (x / (1 / SIZE_PACKET cfg)).

(** What the generator's pending event knows: the loop index is the number
    of packets sent, and one draw more than two per packet was made. *)
Definition gen_ok (cfg : Config) (sent rec : Z) (r : nat) (e : Entry) : Prop :=
  match event e with
  | Initialize Generator => sent = 0 /\ rec = 0 /\ r = 0%nat
  | Timeout (KGenerator i) =>
      i = sent /\ rec = sent /\ i < NUMBER_PACKETS cfg /\
      r = (2 * Z.to_nat i + 1)%nat
  | _ => True
  end.

(** The [k]-th packet handed to [toQueue] has the id [k], and its size
    comes from the draw number [2k-1]. *)
Definition offered_ok (stdexp : Z -> nat -> Q) (cfg : Config) (l : list Packet) : Prop :=
  forall k p, nth_error l k = Some p ->
    id p = Z.of_nat (S k) /\
    size p = size_of_draw cfg (stdexp (RANDOM_SEED cfg) (2 * k + 1)%nat).

Definition generated (stdexp : Z -> nat -> Q) (cfg : Config) (s : State) : Prop :=
  sum_of gen_tok (heap s) <= 1 /\
  Forall (gen_ok cfg (packets_sent s) (packets_rec s) (rng s)) (heap s) /\
  packets_rec s = Z.of_nat (length (offered_of (trace s))) /\
  packets_rec s <= packets_sent s <= Z.max 0 (NUMBER_PACKETS cfg) /\
  offered_ok stdexp cfg (offered_of (trace s)).



(** [e] is a least entry of the bag [h] and [rest] is what is left: what
    [heapq.heappop] returns, whatever the layout of the heap. *)
Definition least (h : list Entry) (e : Entry) (rest : list Entry) : Prop :=
  Permutation h (e :: rest) /\ Forall (fun x => key_ltb x e = false) rest.

(** How a run ended, without its state. *)
Inductive Verdict := Going | Stopped | Aborted (e : Exn) | Starved.

Definition verdict (o : Outcome) : Verdict :=
  match o with
  | Continue _ => Going
  | Finished _ => Stopped
  | Crashed e _ => Aborted e
  | EmptySchedule _ => Starved
  end.

(** The event ids are fresh: pairwise distinct and below [next_eid]. *)
Definition fresh_ok (h : list Entry) (n : nat) : Prop :=
  NoDup (map eid h) /\ Forall (fun e => (eid e < n)%nat) h.

(** Two states that differ in the order of the heap only. *)
Definition same (s s' : State) : Prop :=
  exists h, Permutation h (heap s') /\ s = set_heap h s'.

Definition same_outcome (o o' : Outcome) : Prop :=
  verdict o = verdict o' /\ same (state_of o) (state_of o').

(** A computation that only appends to the heap and never reads it. *)
Definition appends {A} (c : M A) : Prop :=
  forall h s,
    c (set_heap h s) =
    (fst (c (set_heap [] s)),
     set_heap (h ++ heap (snd (c (set_heap [] s)))) (snd (c (set_heap [] s)))).

Definition appendsT (f : State -> State) : Prop :=
  forall h s,
    f (set_heap h s) = set_heap (h ++ heap (f (set_heap [] s))) (f (set_heap [] s)).

(** One step of a scheduler that may pop any least entry. *)
Inductive Pops (stdexp : Z -> nat -> Q) (cfg : Config) : State -> Outcome -> Prop :=
| pops_none s : heap s = [] -> Pops stdexp cfg s (EmptySchedule s)
| pops_least s e rest :
    least (heap s) e rest ->
    Pops stdexp cfg s
      (dispatch stdexp cfg (event e) (set_now (at_time e) (set_heap rest s))).

(** [fuel] steps of such a scheduler. *)
Inductive Runs (stdexp : Z -> nat -> Q) (cfg : Config) : nat -> State -> Outcome -> Prop :=
| runs_O s : Runs stdexp cfg O s (Continue s)
| runs_on n s s' o :
    Pops stdexp cfg s (Continue s') -> Runs stdexp cfg n s' o ->
    Runs stdexp cfg (S n) s o
| runs_end n s o :
    Pops stdexp cfg s o -> (forall s', o <> Continue s') ->
    Runs stdexp cfg (S n) s o.

(** [env.run] under such a scheduler. *)
Inductive Simulates (stdexp : Z -> nat -> Q) (cfg : Config) (fuel : nat) : Exn + Outcome -> Prop :=
| sim_raise e : start cfg = inl e -> Simulates stdexp cfg fuel (inl e)
| sim_run s0 o :
    start cfg = inr s0 -> Runs stdexp cfg fuel s0 o ->
    Simulates stdexp cfg fuel (inr o).

(** What a run shows: how it ended, the counters and the series. *)
Definition observed (r : Exn + Outcome) :=
  match r with
  | inl e => inl e
  | inr o => inr (verdict o, counters (state_of o), series (state_of o))
  end.

(** The generator has raised: its Process event, carrying the exception, is
    pending, and [env.run] re-raises it when it is popped. *)
Definition gen_failed (s : State) : Prop :=
  exists e x, In e (heap s) /\ event e = ProcessEnd Generator (Some x).




(** [fuel] steps were taken without crash. *)
Definition running (stdexp : Z -> nat -> Q) (cfg : Config) (fuel : nat) : bool :=
  match start cfg with
  | inl _ => false
  | inr s =>
      match run stdexp cfg fuel s with
      | Continue _ | Finished _ => true
      | _ => false
      end
  end.

(** ** The steps as a relation

    One rule for each kind of event and each branch that its callbacks
    take, with the state that the step leaves.  [step_Step] below shows
    that every step of the event loop that continues follows one of
    them; the invariants are proved by cases on these rules. *)

Inductive Step (stdexp : Z -> nat -> Q) (cfg : Config) : State -> State -> Prop :=
| Step_init_generator_1 (s : State) (t : Q) (pr : nat) (i : nat) (rest : list Entry)
    (Hpop : heappop (heap s) = Some ({| at_time := t; priority := pr; eid :=
      i; event := Initialize Generator |}, rest))
    (Heqb : (0 <? NUMBER_PACKETS cfg) = true)
    (Heqb0 : Qeq_bool (TIME_ARRIVAL cfg) 0 = true)
  : Step stdexp cfg s (set_next_eid (S (next_eid s)) (set_heap (rest ++ [{|
     at_time := t + 0; priority := NORMAL; eid := next_eid s; event :=
     ProcessEnd Generator (Some ZeroDivisionError) |}]) (set_now t (set_heap
     rest s))))
| Step_init_generator_2 (s : State) (t : Q) (pr : nat) (i : nat) (rest : list Entry)
    (Hpop : heappop (heap s) = Some ({| at_time := t; priority := pr; eid :=
      i; event := Initialize Generator |}, rest))
    (Heqb : (0 <? NUMBER_PACKETS cfg) = true)
    (Heqb0 : Qeq_bool (TIME_ARRIVAL cfg) 0 = false)
    (Heqb1 : Qeq_bool (1 / TIME_ARRIVAL cfg) 0 = true)
  : Step stdexp cfg s (set_next_eid (S (next_eid s)) (set_heap (rest ++ [{|
     at_time := t + 0; priority := NORMAL; eid := next_eid s; event :=
     ProcessEnd Generator (Some ZeroDivisionError) |}]) (set_rng (S (rng s))
     (set_now t (set_heap rest s)))))
| Step_init_generator_3 (s : State) (t : Q) (pr : nat) (i : nat) (rest : list Entry)
    (Hpop : heappop (heap s) = Some ({| at_time := t; priority := pr; eid :=
      i; event := Initialize Generator |}, rest))
    (Heqb : (0 <? NUMBER_PACKETS cfg) = true)
    (Heqb0 : Qeq_bool (TIME_ARRIVAL cfg) 0 = false)
    (Heqb1 : Qeq_bool (1 / TIME_ARRIVAL cfg) 0 = false)
    (q : (stdexp (RANDOM_SEED cfg) (rng s) / (1 / TIME_ARRIVAL cfg) < 0)%Q)
  : Step stdexp cfg s (set_next_eid (S (next_eid s)) (set_heap (rest ++ [{|
     at_time := t + 0; priority := NORMAL; eid := next_eid s; event :=
     ProcessEnd Generator (Some ValueError) |}]) (set_rng (S (rng s)) (set_now
     t (set_heap rest s)))))
| Step_init_generator_4 (s : State) (t : Q) (pr : nat) (i : nat) (rest : list Entry)
    (Hpop : heappop (heap s) = Some ({| at_time := t; priority := pr; eid :=
      i; event := Initialize Generator |}, rest))
    (Heqb : (0 <? NUMBER_PACKETS cfg) = true)
    (Heqb0 : Qeq_bool (TIME_ARRIVAL cfg) 0 = false)
    (Heqb1 : Qeq_bool (1 / TIME_ARRIVAL cfg) 0 = false)
    (q : (0 <= stdexp (RANDOM_SEED cfg) (rng s) / (1 / TIME_ARRIVAL cfg))%Q)
  : Step stdexp cfg s (set_next_eid (S (next_eid s)) (set_heap (rest ++ [{|
     at_time := t + stdexp (RANDOM_SEED cfg) (rng s) / (1 / TIME_ARRIVAL cfg);
     priority := NORMAL; eid := next_eid s; event := Timeout (KGenerator 0)
     |}]) (set_rng (S (rng s)) (set_now t (set_heap rest s)))))
| Step_init_generator_5 (s : State) (t : Q) (pr : nat) (i : nat) (rest : list Entry)
    (Hpop : heappop (heap s) = Some ({| at_time := t; priority := pr; eid :=
      i; event := Initialize Generator |}, rest))
    (Heqb : (0 <? NUMBER_PACKETS cfg) = false)
  : Step stdexp cfg s (set_next_eid (S (next_eid s)) (set_heap (rest ++ [{|
     at_time := t + 0; priority := NORMAL; eid := next_eid s; event :=
     ProcessEnd Generator None |}]) (set_now t (set_heap rest s))))
| Step_init_server_1 (s : State) (t : Q) (pr : nat) (i : nat) (rest : list Entry)
    (Hpop : heappop (heap s) = Some ({| at_time := t; priority := pr; eid :=
      i; event := Initialize Server |}, rest))
    (Heql : items s = [])
  : Step stdexp cfg s (set_get_queue (S (get_queue s)) (set_now t (set_heap
     rest s)))
| Step_init_server_2 (s : State) (t : Q) (pr : nat) (i : nat) (rest : list Entry) (p : Packet) (l : list Packet)
    (Hpop : heappop (heap s) = Some ({| at_time := t; priority := pr; eid :=
      i; event := Initialize Server |}, rest))
    (Heql : items s = p :: l)
  : Step stdexp cfg s (set_next_eid (S (next_eid s)) (set_heap (rest ++ [{|
     at_time := t + 0; priority := NORMAL; eid := next_eid s; event :=
     StoreGet p |}]) (set_get_queue (get_queue s) (set_items l (set_get_queue
     (S (get_queue s)) (set_now t (set_heap rest s)))))))
| Step_init_monitor_1 (s : State) (t : Q) (pr : nat) (i : nat) (rest : list Entry)
    (Hpop : heappop (heap s) = Some ({| at_time := t; priority := pr; eid :=
      i; event := Initialize Monitor |}, rest))
    (Heqb : Qeq_bool (SAMPLING_INTERVALL cfg) 0 = true)
  : Step stdexp cfg s (set_next_eid (S (next_eid s)) (set_heap (rest ++ [{|
     at_time := t + 0; priority := NORMAL; eid := next_eid s; event :=
     ProcessEnd Monitor (Some ZeroDivisionError) |}]) (set_now t (set_heap
     rest s))))
| Step_init_monitor_2 (s : State) (t : Q) (pr : nat) (i : nat) (rest : list Entry)
    (Hpop : heappop (heap s) = Some ({| at_time := t; priority := pr; eid :=
      i; event := Initialize Monitor |}, rest))
    (Heqb : Qeq_bool (SAMPLING_INTERVALL cfg) 0 = false)
    (q : (1 / SAMPLING_INTERVALL cfg < 0)%Q)
  : Step stdexp cfg s (set_next_eid (S (next_eid s)) (set_heap (rest ++ [{|
     at_time := t + 0; priority := NORMAL; eid := next_eid s; event :=
     ProcessEnd Monitor (Some ValueError) |}]) (set_now t (set_heap rest s))))
| Step_init_monitor_3 (s : State) (t : Q) (pr : nat) (i : nat) (rest : list Entry)
    (Hpop : heappop (heap s) = Some ({| at_time := t; priority := pr; eid :=
      i; event := Initialize Monitor |}, rest))
    (Heqb : Qeq_bool (SAMPLING_INTERVALL cfg) 0 = false)
    (q : (0 <= 1 / SAMPLING_INTERVALL cfg)%Q)
  : Step stdexp cfg s (set_next_eid (S (next_eid s)) (set_heap (rest ++ [{|
     at_time := t + 1 / SAMPLING_INTERVALL cfg; priority := NORMAL; eid :=
     next_eid s; event := Timeout KMonitor |}]) (set_now t (set_heap rest
     s))))
| Step_timeout_generator_1 (s : State) (t : Q) (pr : nat) (i : nat) (i0 : Z) (rest : list Entry)
    (Hpop : heappop (heap s) = Some ({| at_time := t; priority := pr; eid :=
      i; event := Timeout (KGenerator i0) |}, rest))
    (Heqb : Qeq_bool (SIZE_PACKET cfg) 0 = true)
  : Step stdexp cfg s (set_next_eid (S (next_eid s)) (set_heap (rest ++ [{|
     at_time := t + 0; priority := NORMAL; eid := next_eid s; event :=
     ProcessEnd Generator (Some ZeroDivisionError) |}]) (set_packets_sent
     (packets_sent s + 1) (set_now t (set_heap rest s)))))
| Step_timeout_generator_2 (s : State) (t : Q) (pr : nat) (i : nat) (i0 : Z) (rest : list Entry)
    (Hpop : heappop (heap s) = Some ({| at_time := t; priority := pr; eid :=
      i; event := Timeout (KGenerator i0) |}, rest))
    (Heqb : Qeq_bool (SIZE_PACKET cfg) 0 = false)
    (Heqb0 : Qeq_bool (1 / SIZE_PACKET cfg) 0 = true)
  : Step stdexp cfg s (set_next_eid (S (next_eid s)) (set_heap (rest ++ [{|
     at_time := t + 0; priority := NORMAL; eid := next_eid s; event :=
     ProcessEnd Generator (Some ZeroDivisionError) |}]) (set_rng (S (rng s))
     (set_packets_sent (packets_sent s + 1) (set_now t (set_heap rest s))))))
| Step_timeout_generator_3 (s : State) (t : Q) (pr : nat) (i : nat) (i0 : Z) (rest : list Entry)
    (Hpop : heappop (heap s) = Some ({| at_time := t; priority := pr; eid :=
      i; event := Timeout (KGenerator i0) |}, rest))
    (Heqb : Qeq_bool (SIZE_PACKET cfg) 0 = false)
    (Heqb0 : Qeq_bool (1 / SIZE_PACKET cfg) 0 = false)
    (Heqb1 : LIMIT_BYTES cfg && Qle_bool (QUEUE_LIMIT cfg) (inject_Z
      (byte_size s + int (stdexp (RANDOM_SEED cfg) (rng s) / (1 / SIZE_PACKET
      cfg)))) = true)
    (Heqb2 : (i0 + 1 <? NUMBER_PACKETS cfg) = true)
    (Heqb3 : Qeq_bool (TIME_ARRIVAL cfg) 0 = true)
  : Step stdexp cfg s (set_next_eid (S (next_eid s)) (set_heap (rest ++ [{|
     at_time := t + 0; priority := NORMAL; eid := next_eid s; event :=
     ProcessEnd Generator (Some ZeroDivisionError) |}]) (set_trace (trace s ++
     [Dropped {| id := packets_sent s + 1; size := int (stdexp (RANDOM_SEED
     cfg) (rng s) / (1 / SIZE_PACKET cfg)); time := t |}]) (set_packets_drop
     (packets_drop s + 1) (set_packets_rec (packets_rec s + 1) (set_rng (S
     (rng s)) (set_packets_sent (packets_sent s + 1) (set_now t (set_heap rest
     s)))))))))
| Step_timeout_generator_4 (s : State) (t : Q) (pr : nat) (i : nat) (i0 : Z) (rest : list Entry)
    (Hpop : heappop (heap s) = Some ({| at_time := t; priority := pr; eid :=
      i; event := Timeout (KGenerator i0) |}, rest))
    (Heqb : Qeq_bool (SIZE_PACKET cfg) 0 = false)
    (Heqb0 : Qeq_bool (1 / SIZE_PACKET cfg) 0 = false)
    (Heqb1 : LIMIT_BYTES cfg && Qle_bool (QUEUE_LIMIT cfg) (inject_Z
      (byte_size s + int (stdexp (RANDOM_SEED cfg) (rng s) / (1 / SIZE_PACKET
      cfg)))) = true)
    (Heqb2 : (i0 + 1 <? NUMBER_PACKETS cfg) = true)
    (Heqb3 : Qeq_bool (TIME_ARRIVAL cfg) 0 = false)
    (Heqb4 : Qeq_bool (1 / TIME_ARRIVAL cfg) 0 = true)
  : Step stdexp cfg s (set_next_eid (S (next_eid s)) (set_heap (rest ++ [{|
     at_time := t + 0; priority := NORMAL; eid := next_eid s; event :=
     ProcessEnd Generator (Some ZeroDivisionError) |}]) (set_rng (S (S (rng
     s))) (set_trace (trace s ++ [Dropped {| id := packets_sent s + 1; size :=
     int (stdexp (RANDOM_SEED cfg) (rng s) / (1 / SIZE_PACKET cfg)); time := t
     |}]) (set_packets_drop (packets_drop s + 1) (set_packets_rec (packets_rec
     s + 1) (set_rng (S (rng s)) (set_packets_sent (packets_sent s + 1)
     (set_now t (set_heap rest s))))))))))
| Step_timeout_generator_5 (s : State) (t : Q) (pr : nat) (i : nat) (i0 : Z) (rest : list Entry)
    (Hpop : heappop (heap s) = Some ({| at_time := t; priority := pr; eid :=
      i; event := Timeout (KGenerator i0) |}, rest))
    (Heqb : Qeq_bool (SIZE_PACKET cfg) 0 = false)
    (Heqb0 : Qeq_bool (1 / SIZE_PACKET cfg) 0 = false)
    (Heqb1 : LIMIT_BYTES cfg && Qle_bool (QUEUE_LIMIT cfg) (inject_Z
      (byte_size s + int (stdexp (RANDOM_SEED cfg) (rng s) / (1 / SIZE_PACKET
      cfg)))) = true)
    (Heqb2 : (i0 + 1 <? NUMBER_PACKETS cfg) = true)
    (Heqb3 : Qeq_bool (TIME_ARRIVAL cfg) 0 = false)
    (Heqb4 : Qeq_bool (1 / TIME_ARRIVAL cfg) 0 = false)
    (q : (stdexp (RANDOM_SEED cfg) (S (rng s)) / (1 / TIME_ARRIVAL cfg) <
      0)%Q)
  : Step stdexp cfg s (set_next_eid (S (next_eid s)) (set_heap (rest ++ [{|
     at_time := t + 0; priority := NORMAL; eid := next_eid s; event :=
     ProcessEnd Generator (Some ValueError) |}]) (set_rng (S (S (rng s)))
     (set_trace (trace s ++ [Dropped {| id := packets_sent s + 1; size := int
     (stdexp (RANDOM_SEED cfg) (rng s) / (1 / SIZE_PACKET cfg)); time := t
     |}]) (set_packets_drop (packets_drop s + 1) (set_packets_rec (packets_rec
     s + 1) (set_rng (S (rng s)) (set_packets_sent (packets_sent s + 1)
     (set_now t (set_heap rest s))))))))))
| Step_timeout_generator_6 (s : State) (t : Q) (pr : nat) (i : nat) (i0 : Z) (rest : list Entry)
    (Hpop : heappop (heap s) = Some ({| at_time := t; priority := pr; eid :=
      i; event := Timeout (KGenerator i0) |}, rest))
    (Heqb : Qeq_bool (SIZE_PACKET cfg) 0 = false)
    (Heqb0 : Qeq_bool (1 / SIZE_PACKET cfg) 0 = false)
    (Heqb1 : LIMIT_BYTES cfg && Qle_bool (QUEUE_LIMIT cfg) (inject_Z
      (byte_size s + int (stdexp (RANDOM_SEED cfg) (rng s) / (1 / SIZE_PACKET
      cfg)))) = true)
    (Heqb2 : (i0 + 1 <? NUMBER_PACKETS cfg) = true)
    (Heqb3 : Qeq_bool (TIME_ARRIVAL cfg) 0 = false)
    (Heqb4 : Qeq_bool (1 / TIME_ARRIVAL cfg) 0 = false)
    (q : (0 <= stdexp (RANDOM_SEED cfg) (S (rng s)) / (1 / TIME_ARRIVAL
      cfg))%Q)
  : Step stdexp cfg s (set_next_eid (S (next_eid s)) (set_heap (rest ++ [{|
     at_time := t + stdexp (RANDOM_SEED cfg) (S (rng s)) / (1 / TIME_ARRIVAL
     cfg); priority := NORMAL; eid := next_eid s; event := Timeout (KGenerator
     (i0 + 1)) |}]) (set_rng (S (S (rng s))) (set_trace (trace s ++ [Dropped
     {| id := packets_sent s + 1; size := int (stdexp (RANDOM_SEED cfg) (rng
     s) / (1 / SIZE_PACKET cfg)); time := t |}]) (set_packets_drop
     (packets_drop s + 1) (set_packets_rec (packets_rec s + 1) (set_rng (S
     (rng s)) (set_packets_sent (packets_sent s + 1) (set_now t (set_heap rest
     s))))))))))
| Step_timeout_generator_7 (s : State) (t : Q) (pr : nat) (i : nat) (i0 : Z) (rest : list Entry)
    (Hpop : heappop (heap s) = Some ({| at_time := t; priority := pr; eid :=
      i; event := Timeout (KGenerator i0) |}, rest))
    (Heqb : Qeq_bool (SIZE_PACKET cfg) 0 = false)
    (Heqb0 : Qeq_bool (1 / SIZE_PACKET cfg) 0 = false)
    (Heqb1 : LIMIT_BYTES cfg && Qle_bool (QUEUE_LIMIT cfg) (inject_Z
      (byte_size s + int (stdexp (RANDOM_SEED cfg) (rng s) / (1 / SIZE_PACKET
      cfg)))) = true)
    (Heqb2 : (i0 + 1 <? NUMBER_PACKETS cfg) = false)
  : Step stdexp cfg s (set_next_eid (S (next_eid s)) (set_heap (rest ++ [{|
     at_time := t + 0; priority := NORMAL; eid := next_eid s; event :=
     ProcessEnd Generator None |}]) (set_trace (trace s ++ [Dropped {| id :=
     packets_sent s + 1; size := int (stdexp (RANDOM_SEED cfg) (rng s) / (1 /
     SIZE_PACKET cfg)); time := t |}]) (set_packets_drop (packets_drop s + 1)
     (set_packets_rec (packets_rec s + 1) (set_rng (S (rng s))
     (set_packets_sent (packets_sent s + 1) (set_now t (set_heap rest
     s)))))))))
| Step_timeout_generator_8 (s : State) (t : Q) (pr : nat) (i : nat) (i0 : Z) (rest : list Entry)
    (Hpop : heappop (heap s) = Some ({| at_time := t; priority := pr; eid :=
      i; event := Timeout (KGenerator i0) |}, rest))
    (Heqb : Qeq_bool (SIZE_PACKET cfg) 0 = false)
    (Heqb0 : Qeq_bool (1 / SIZE_PACKET cfg) 0 = false)
    (Heqb1 : LIMIT_BYTES cfg && Qle_bool (QUEUE_LIMIT cfg) (inject_Z
      (byte_size s + int (stdexp (RANDOM_SEED cfg) (rng s) / (1 / SIZE_PACKET
      cfg)))) = false)
    (Heqb2 : negb (LIMIT_BYTES cfg) && Qle_bool (QUEUE_LIMIT cfg) (inject_Z
      (Z.of_nat (length (items s)))) = true)
    (Heqb3 : (i0 + 1 <? NUMBER_PACKETS cfg) = true)
    (Heqb4 : Qeq_bool (TIME_ARRIVAL cfg) 0 = true)
  : Step stdexp cfg s (set_next_eid (S (next_eid s)) (set_heap (rest ++ [{|
     at_time := t + 0; priority := NORMAL; eid := next_eid s; event :=
     ProcessEnd Generator (Some ZeroDivisionError) |}]) (set_trace (trace s ++
     [Dropped {| id := packets_sent s + 1; size := int (stdexp (RANDOM_SEED
     cfg) (rng s) / (1 / SIZE_PACKET cfg)); time := t |}]) (set_packets_drop
     (packets_drop s + 1) (set_packets_rec (packets_rec s + 1) (set_rng (S
     (rng s)) (set_packets_sent (packets_sent s + 1) (set_now t (set_heap rest
     s)))))))))
| Step_timeout_generator_9 (s : State) (t : Q) (pr : nat) (i : nat) (i0 : Z) (rest : list Entry)
    (Hpop : heappop (heap s) = Some ({| at_time := t; priority := pr; eid :=
      i; event := Timeout (KGenerator i0) |}, rest))
    (Heqb : Qeq_bool (SIZE_PACKET cfg) 0 = false)
    (Heqb0 : Qeq_bool (1 / SIZE_PACKET cfg) 0 = false)
    (Heqb1 : LIMIT_BYTES cfg && Qle_bool (QUEUE_LIMIT cfg) (inject_Z
      (byte_size s + int (stdexp (RANDOM_SEED cfg) (rng s) / (1 / SIZE_PACKET
      cfg)))) = false)
    (Heqb2 : negb (LIMIT_BYTES cfg) && Qle_bool (QUEUE_LIMIT cfg) (inject_Z
      (Z.of_nat (length (items s)))) = true)
    (Heqb3 : (i0 + 1 <? NUMBER_PACKETS cfg) = true)
    (Heqb4 : Qeq_bool (TIME_ARRIVAL cfg) 0 = false)
    (Heqb5 : Qeq_bool (1 / TIME_ARRIVAL cfg) 0 = true)
  : Step stdexp cfg s (set_next_eid (S (next_eid s)) (set_heap (rest ++ [{|
     at_time := t + 0; priority := NORMAL; eid := next_eid s; event :=
     ProcessEnd Generator (Some ZeroDivisionError) |}]) (set_rng (S (S (rng
     s))) (set_trace (trace s ++ [Dropped {| id := packets_sent s + 1; size :=
     int (stdexp (RANDOM_SEED cfg) (rng s) / (1 / SIZE_PACKET cfg)); time := t
     |}]) (set_packets_drop (packets_drop s + 1) (set_packets_rec (packets_rec
     s + 1) (set_rng (S (rng s)) (set_packets_sent (packets_sent s + 1)
     (set_now t (set_heap rest s))))))))))
| Step_timeout_generator_10 (s : State) (t : Q) (pr : nat) (i : nat) (i0 : Z) (rest : list Entry)
    (Hpop : heappop (heap s) = Some ({| at_time := t; priority := pr; eid :=
      i; event := Timeout (KGenerator i0) |}, rest))
    (Heqb : Qeq_bool (SIZE_PACKET cfg) 0 = false)
    (Heqb0 : Qeq_bool (1 / SIZE_PACKET cfg) 0 = false)
    (Heqb1 : LIMIT_BYTES cfg && Qle_bool (QUEUE_LIMIT cfg) (inject_Z
      (byte_size s + int (stdexp (RANDOM_SEED cfg) (rng s) / (1 / SIZE_PACKET
      cfg)))) = false)
    (Heqb2 : negb (LIMIT_BYTES cfg) && Qle_bool (QUEUE_LIMIT cfg) (inject_Z
      (Z.of_nat (length (items s)))) = true)
    (Heqb3 : (i0 + 1 <? NUMBER_PACKETS cfg) = true)
    (Heqb4 : Qeq_bool (TIME_ARRIVAL cfg) 0 = false)
    (Heqb5 : Qeq_bool (1 / TIME_ARRIVAL cfg) 0 = false)
    (q : (stdexp (RANDOM_SEED cfg) (S (rng s)) / (1 / TIME_ARRIVAL cfg) <
      0)%Q)
  : Step stdexp cfg s (set_next_eid (S (next_eid s)) (set_heap (rest ++ [{|
     at_time := t + 0; priority := NORMAL; eid := next_eid s; event :=
     ProcessEnd Generator (Some ValueError) |}]) (set_rng (S (S (rng s)))
     (set_trace (trace s ++ [Dropped {| id := packets_sent s + 1; size := int
     (stdexp (RANDOM_SEED cfg) (rng s) / (1 / SIZE_PACKET cfg)); time := t
     |}]) (set_packets_drop (packets_drop s + 1) (set_packets_rec (packets_rec
     s + 1) (set_rng (S (rng s)) (set_packets_sent (packets_sent s + 1)
     (set_now t (set_heap rest s))))))))))
| Step_timeout_generator_11 (s : State) (t : Q) (pr : nat) (i : nat) (i0 : Z) (rest : list Entry)
    (Hpop : heappop (heap s) = Some ({| at_time := t; priority := pr; eid :=
      i; event := Timeout (KGenerator i0) |}, rest))
    (Heqb : Qeq_bool (SIZE_PACKET cfg) 0 = false)
    (Heqb0 : Qeq_bool (1 / SIZE_PACKET cfg) 0 = false)
    (Heqb1 : LIMIT_BYTES cfg && Qle_bool (QUEUE_LIMIT cfg) (inject_Z
      (byte_size s + int (stdexp (RANDOM_SEED cfg) (rng s) / (1 / SIZE_PACKET
      cfg)))) = false)
    (Heqb2 : negb (LIMIT_BYTES cfg) && Qle_bool (QUEUE_LIMIT cfg) (inject_Z
      (Z.of_nat (length (items s)))) = true)
    (Heqb3 : (i0 + 1 <? NUMBER_PACKETS cfg) = true)
    (Heqb4 : Qeq_bool (TIME_ARRIVAL cfg) 0 = false)
    (Heqb5 : Qeq_bool (1 / TIME_ARRIVAL cfg) 0 = false)
    (q : (0 <= stdexp (RANDOM_SEED cfg) (S (rng s)) / (1 / TIME_ARRIVAL
      cfg))%Q)
  : Step stdexp cfg s (set_next_eid (S (next_eid s)) (set_heap (rest ++ [{|
     at_time := t + stdexp (RANDOM_SEED cfg) (S (rng s)) / (1 / TIME_ARRIVAL
     cfg); priority := NORMAL; eid := next_eid s; event := Timeout (KGenerator
     (i0 + 1)) |}]) (set_rng (S (S (rng s))) (set_trace (trace s ++ [Dropped
     {| id := packets_sent s + 1; size := int (stdexp (RANDOM_SEED cfg) (rng
     s) / (1 / SIZE_PACKET cfg)); time := t |}]) (set_packets_drop
     (packets_drop s + 1) (set_packets_rec (packets_rec s + 1) (set_rng (S
     (rng s)) (set_packets_sent (packets_sent s + 1) (set_now t (set_heap rest
     s))))))))))
| Step_timeout_generator_12 (s : State) (t : Q) (pr : nat) (i : nat) (i0 : Z) (rest : list Entry)
    (Hpop : heappop (heap s) = Some ({| at_time := t; priority := pr; eid :=
      i; event := Timeout (KGenerator i0) |}, rest))
    (Heqb : Qeq_bool (SIZE_PACKET cfg) 0 = false)
    (Heqb0 : Qeq_bool (1 / SIZE_PACKET cfg) 0 = false)
    (Heqb1 : LIMIT_BYTES cfg && Qle_bool (QUEUE_LIMIT cfg) (inject_Z
      (byte_size s + int (stdexp (RANDOM_SEED cfg) (rng s) / (1 / SIZE_PACKET
      cfg)))) = false)
    (Heqb2 : negb (LIMIT_BYTES cfg) && Qle_bool (QUEUE_LIMIT cfg) (inject_Z
      (Z.of_nat (length (items s)))) = true)
    (Heqb3 : (i0 + 1 <? NUMBER_PACKETS cfg) = false)
  : Step stdexp cfg s (set_next_eid (S (next_eid s)) (set_heap (rest ++ [{|
     at_time := t + 0; priority := NORMAL; eid := next_eid s; event :=
     ProcessEnd Generator None |}]) (set_trace (trace s ++ [Dropped {| id :=
     packets_sent s + 1; size := int (stdexp (RANDOM_SEED cfg) (rng s) / (1 /
     SIZE_PACKET cfg)); time := t |}]) (set_packets_drop (packets_drop s + 1)
     (set_packets_rec (packets_rec s + 1) (set_rng (S (rng s))
     (set_packets_sent (packets_sent s + 1) (set_now t (set_heap rest
     s)))))))))
| Step_timeout_generator_13 (s : State) (t : Q) (pr : nat) (i : nat) (i0 : Z) (rest : list Entry)
    (Hpop : heappop (heap s) = Some ({| at_time := t; priority := pr; eid :=
      i; event := Timeout (KGenerator i0) |}, rest))
    (Heqb : Qeq_bool (SIZE_PACKET cfg) 0 = false)
    (Heqb0 : Qeq_bool (1 / SIZE_PACKET cfg) 0 = false)
    (Heqb1 : LIMIT_BYTES cfg && Qle_bool (QUEUE_LIMIT cfg) (inject_Z
      (byte_size s + int (stdexp (RANDOM_SEED cfg) (rng s) / (1 / SIZE_PACKET
      cfg)))) = false)
    (Heqb2 : negb (LIMIT_BYTES cfg) && Qle_bool (QUEUE_LIMIT cfg) (inject_Z
      (Z.of_nat (length (items s)))) = false)
    (Heqb3 : (i0 + 1 <? NUMBER_PACKETS cfg) = true)
    (Heqb4 : Qeq_bool (TIME_ARRIVAL cfg) 0 = true)
  : Step stdexp cfg s (set_next_eid (S (S (next_eid s))) (set_heap ((rest ++
     [{| at_time := t + 0; priority := NORMAL; eid := next_eid s; event :=
     StorePut |}]) ++ [{| at_time := t + 0; priority := NORMAL; eid := S
     (next_eid s); event := ProcessEnd Generator (Some ZeroDivisionError) |}])
     (set_next_eid (S (next_eid s)) (set_heap (rest ++ [{| at_time := t + 0;
     priority := NORMAL; eid := next_eid s; event := StorePut |}]) (set_items
     (items s ++ [{| id := packets_sent s + 1; size := int (stdexp
     (RANDOM_SEED cfg) (rng s) / (1 / SIZE_PACKET cfg)); time := t |}])
     (set_trace (trace s ++ [Enqueued {| id := packets_sent s + 1; size := int
     (stdexp (RANDOM_SEED cfg) (rng s) / (1 / SIZE_PACKET cfg)); time := t
     |}]) (set_packets_queue (packets_queue s + 1) (set_byte_size (byte_size s
     + int (stdexp (RANDOM_SEED cfg) (rng s) / (1 / SIZE_PACKET cfg)))
     (set_packets_rec (packets_rec s + 1) (set_rng (S (rng s))
     (set_packets_sent (packets_sent s + 1) (set_now t (set_heap rest
     s)))))))))))))
| Step_timeout_generator_14 (s : State) (t : Q) (pr : nat) (i : nat) (i0 : Z) (rest : list Entry)
    (Hpop : heappop (heap s) = Some ({| at_time := t; priority := pr; eid :=
      i; event := Timeout (KGenerator i0) |}, rest))
    (Heqb : Qeq_bool (SIZE_PACKET cfg) 0 = false)
    (Heqb0 : Qeq_bool (1 / SIZE_PACKET cfg) 0 = false)
    (Heqb1 : LIMIT_BYTES cfg && Qle_bool (QUEUE_LIMIT cfg) (inject_Z
      (byte_size s + int (stdexp (RANDOM_SEED cfg) (rng s) / (1 / SIZE_PACKET
      cfg)))) = false)
    (Heqb2 : negb (LIMIT_BYTES cfg) && Qle_bool (QUEUE_LIMIT cfg) (inject_Z
      (Z.of_nat (length (items s)))) = false)
    (Heqb3 : (i0 + 1 <? NUMBER_PACKETS cfg) = true)
    (Heqb4 : Qeq_bool (TIME_ARRIVAL cfg) 0 = false)
    (Heqb5 : Qeq_bool (1 / TIME_ARRIVAL cfg) 0 = true)
  : Step stdexp cfg s (set_next_eid (S (S (next_eid s))) (set_heap ((rest ++
     [{| at_time := t + 0; priority := NORMAL; eid := next_eid s; event :=
     StorePut |}]) ++ [{| at_time := t + 0; priority := NORMAL; eid := S
     (next_eid s); event := ProcessEnd Generator (Some ZeroDivisionError) |}])
     (set_rng (S (S (rng s))) (set_next_eid (S (next_eid s)) (set_heap (rest
     ++ [{| at_time := t + 0; priority := NORMAL; eid := next_eid s; event :=
     StorePut |}]) (set_items (items s ++ [{| id := packets_sent s + 1; size
     := int (stdexp (RANDOM_SEED cfg) (rng s) / (1 / SIZE_PACKET cfg)); time
     := t |}]) (set_trace (trace s ++ [Enqueued {| id := packets_sent s + 1;
     size := int (stdexp (RANDOM_SEED cfg) (rng s) / (1 / SIZE_PACKET cfg));
     time := t |}]) (set_packets_queue (packets_queue s + 1) (set_byte_size
     (byte_size s + int (stdexp (RANDOM_SEED cfg) (rng s) / (1 / SIZE_PACKET
     cfg))) (set_packets_rec (packets_rec s + 1) (set_rng (S (rng s))
     (set_packets_sent (packets_sent s + 1) (set_now t (set_heap rest
     s))))))))))))))
| Step_timeout_generator_15 (s : State) (t : Q) (pr : nat) (i : nat) (i0 : Z) (rest : list Entry)
    (Hpop : heappop (heap s) = Some ({| at_time := t; priority := pr; eid :=
      i; event := Timeout (KGenerator i0) |}, rest))
    (Heqb : Qeq_bool (SIZE_PACKET cfg) 0 = false)
    (Heqb0 : Qeq_bool (1 / SIZE_PACKET cfg) 0 = false)
    (Heqb1 : LIMIT_BYTES cfg && Qle_bool (QUEUE_LIMIT cfg) (inject_Z
      (byte_size s + int (stdexp (RANDOM_SEED cfg) (rng s) / (1 / SIZE_PACKET
      cfg)))) = false)
    (Heqb2 : negb (LIMIT_BYTES cfg) && Qle_bool (QUEUE_LIMIT cfg) (inject_Z
      (Z.of_nat (length (items s)))) = false)
    (Heqb3 : (i0 + 1 <? NUMBER_PACKETS cfg) = true)
    (Heqb4 : Qeq_bool (TIME_ARRIVAL cfg) 0 = false)
    (Heqb5 : Qeq_bool (1 / TIME_ARRIVAL cfg) 0 = false)
    (q : (stdexp (RANDOM_SEED cfg) (S (rng s)) / (1 / TIME_ARRIVAL cfg) <
      0)%Q)
  : Step stdexp cfg s (set_next_eid (S (S (next_eid s))) (set_heap ((rest ++
     [{| at_time := t + 0; priority := NORMAL; eid := next_eid s; event :=
     StorePut |}]) ++ [{| at_time := t + 0; priority := NORMAL; eid := S
     (next_eid s); event := ProcessEnd Generator (Some ValueError) |}])
     (set_rng (S (S (rng s))) (set_next_eid (S (next_eid s)) (set_heap (rest
     ++ [{| at_time := t + 0; priority := NORMAL; eid := next_eid s; event :=
     StorePut |}]) (set_items (items s ++ [{| id := packets_sent s + 1; size
     := int (stdexp (RANDOM_SEED cfg) (rng s) / (1 / SIZE_PACKET cfg)); time
     := t |}]) (set_trace (trace s ++ [Enqueued {| id := packets_sent s + 1;
     size := int (stdexp (RANDOM_SEED cfg) (rng s) / (1 / SIZE_PACKET cfg));
     time := t |}]) (set_packets_queue (packets_queue s + 1) (set_byte_size
     (byte_size s + int (stdexp (RANDOM_SEED cfg) (rng s) / (1 / SIZE_PACKET
     cfg))) (set_packets_rec (packets_rec s + 1) (set_rng (S (rng s))
     (set_packets_sent (packets_sent s + 1) (set_now t (set_heap rest
     s))))))))))))))
| Step_timeout_generator_16 (s : State) (t : Q) (pr : nat) (i : nat) (i0 : Z) (rest : list Entry)
    (Hpop : heappop (heap s) = Some ({| at_time := t; priority := pr; eid :=
      i; event := Timeout (KGenerator i0) |}, rest))
    (Heqb : Qeq_bool (SIZE_PACKET cfg) 0 = false)
    (Heqb0 : Qeq_bool (1 / SIZE_PACKET cfg) 0 = false)
    (Heqb1 : LIMIT_BYTES cfg && Qle_bool (QUEUE_LIMIT cfg) (inject_Z
      (byte_size s + int (stdexp (RANDOM_SEED cfg) (rng s) / (1 / SIZE_PACKET
      cfg)))) = false)
    (Heqb2 : negb (LIMIT_BYTES cfg) && Qle_bool (QUEUE_LIMIT cfg) (inject_Z
      (Z.of_nat (length (items s)))) = false)
    (Heqb3 : (i0 + 1 <? NUMBER_PACKETS cfg) = true)
    (Heqb4 : Qeq_bool (TIME_ARRIVAL cfg) 0 = false)
    (Heqb5 : Qeq_bool (1 / TIME_ARRIVAL cfg) 0 = false)
    (q : (0 <= stdexp (RANDOM_SEED cfg) (S (rng s)) / (1 / TIME_ARRIVAL
      cfg))%Q)
  : Step stdexp cfg s (set_next_eid (S (S (next_eid s))) (set_heap ((rest ++
     [{| at_time := t + 0; priority := NORMAL; eid := next_eid s; event :=
     StorePut |}]) ++ [{| at_time := t + stdexp (RANDOM_SEED cfg) (S (rng s))
     / (1 / TIME_ARRIVAL cfg); priority := NORMAL; eid := S (next_eid s);
     event := Timeout (KGenerator (i0 + 1)) |}]) (set_rng (S (S (rng s)))
     (set_next_eid (S (next_eid s)) (set_heap (rest ++ [{| at_time := t + 0;
     priority := NORMAL; eid := next_eid s; event := StorePut |}]) (set_items
     (items s ++ [{| id := packets_sent s + 1; size := int (stdexp
     (RANDOM_SEED cfg) (rng s) / (1 / SIZE_PACKET cfg)); time := t |}])
     (set_trace (trace s ++ [Enqueued {| id := packets_sent s + 1; size := int
     (stdexp (RANDOM_SEED cfg) (rng s) / (1 / SIZE_PACKET cfg)); time := t
     |}]) (set_packets_queue (packets_queue s + 1) (set_byte_size (byte_size s
     + int (stdexp (RANDOM_SEED cfg) (rng s) / (1 / SIZE_PACKET cfg)))
     (set_packets_rec (packets_rec s + 1) (set_rng (S (rng s))
     (set_packets_sent (packets_sent s + 1) (set_now t (set_heap rest
     s))))))))))))))
| Step_timeout_generator_17 (s : State) (t : Q) (pr : nat) (i : nat) (i0 : Z) (rest : list Entry)
    (Hpop : heappop (heap s) = Some ({| at_time := t; priority := pr; eid :=
      i; event := Timeout (KGenerator i0) |}, rest))
    (Heqb : Qeq_bool (SIZE_PACKET cfg) 0 = false)
    (Heqb0 : Qeq_bool (1 / SIZE_PACKET cfg) 0 = false)
    (Heqb1 : LIMIT_BYTES cfg && Qle_bool (QUEUE_LIMIT cfg) (inject_Z
      (byte_size s + int (stdexp (RANDOM_SEED cfg) (rng s) / (1 / SIZE_PACKET
      cfg)))) = false)
    (Heqb2 : negb (LIMIT_BYTES cfg) && Qle_bool (QUEUE_LIMIT cfg) (inject_Z
      (Z.of_nat (length (items s)))) = false)
    (Heqb3 : (i0 + 1 <? NUMBER_PACKETS cfg) = false)
  : Step stdexp cfg s (set_next_eid (S (S (next_eid s))) (set_heap ((rest ++
     [{| at_time := t + 0; priority := NORMAL; eid := next_eid s; event :=
     StorePut |}]) ++ [{| at_time := t + 0; priority := NORMAL; eid := S
     (next_eid s); event := ProcessEnd Generator None |}]) (set_next_eid (S
     (next_eid s)) (set_heap (rest ++ [{| at_time := t + 0; priority :=
     NORMAL; eid := next_eid s; event := StorePut |}]) (set_items (items s ++
     [{| id := packets_sent s + 1; size := int (stdexp (RANDOM_SEED cfg) (rng
     s) / (1 / SIZE_PACKET cfg)); time := t |}]) (set_trace (trace s ++
     [Enqueued {| id := packets_sent s + 1; size := int (stdexp (RANDOM_SEED
     cfg) (rng s) / (1 / SIZE_PACKET cfg)); time := t |}]) (set_packets_queue
     (packets_queue s + 1) (set_byte_size (byte_size s + int (stdexp
     (RANDOM_SEED cfg) (rng s) / (1 / SIZE_PACKET cfg))) (set_packets_rec
     (packets_rec s + 1) (set_rng (S (rng s)) (set_packets_sent (packets_sent
     s + 1) (set_now t (set_heap rest s)))))))))))))
| Step_timeout_server_1 (s : State) (t : Q) (pr : nat) (i : nat) (packet : Packet) (rest : list Entry)
    (Hpop : heappop (heap s) = Some ({| at_time := t; priority := pr; eid :=
      i; event := Timeout (KServer packet) |}, rest))
    (Heqb : Qeq_bool (lenQ (queue_times s ++ [(t - time packet)%Q])) 0 = true)
  : Step stdexp cfg s (set_next_eid (S (next_eid s)) (set_heap (rest ++ [{|
     at_time := t + 0; priority := NORMAL; eid := next_eid s; event :=
     ProcessEnd Server (Some ZeroDivisionError) |}]) (set_packet_times
     (packet_times s ++ [t]) (set_queue_times (queue_times s ++ [(t - time
     packet)%Q]) (set_now t (set_heap rest s))))))
| Step_timeout_server_2 (s : State) (t : Q) (pr : nat) (i : nat) (packet : Packet) (rest : list Entry)
    (Hpop : heappop (heap s) = Some ({| at_time := t; priority := pr; eid :=
      i; event := Timeout (KServer packet) |}, rest))
    (Heqb : Qeq_bool (lenQ (queue_times s ++ [(t - time packet)%Q])) 0 =
      false)
    (Heql : items s = [])
  : Step stdexp cfg s (set_get_queue (S (get_queue s)) (set_trace (trace s ++
     [Processed packet t]) (set_bytes_recorded (bytes_recorded s + size
     packet) (set_packets_recorded (packets_recorded s + 1)
     (set_queue_avg_times (queue_avg_times s ++ [(fold_left Qplus (queue_times
     s ++ [t - time packet]) 0 / lenQ (queue_times s ++ [t - time
     packet]))%Q]) (set_packet_times (packet_times s ++ [t]) (set_queue_times
     (queue_times s ++ [(t - time packet)%Q]) (set_now t (set_heap rest
     s)))))))))
| Step_timeout_server_3 (s : State) (t : Q) (pr : nat) (i : nat) (packet : Packet) (rest : list Entry) (p : Packet) (l : list Packet)
    (Hpop : heappop (heap s) = Some ({| at_time := t; priority := pr; eid :=
      i; event := Timeout (KServer packet) |}, rest))
    (Heqb : Qeq_bool (lenQ (queue_times s ++ [(t - time packet)%Q])) 0 =
      false)
    (Heql : items s = p :: l)
  : Step stdexp cfg s (set_next_eid (S (next_eid s)) (set_heap (rest ++ [{|
     at_time := t + 0; priority := NORMAL; eid := next_eid s; event :=
     StoreGet p |}]) (set_get_queue (get_queue s) (set_items l (set_get_queue
     (S (get_queue s)) (set_trace (trace s ++ [Processed packet t])
     (set_bytes_recorded (bytes_recorded s + size packet)
     (set_packets_recorded (packets_recorded s + 1) (set_queue_avg_times
     (queue_avg_times s ++ [(fold_left Qplus (queue_times s ++ [t - time
     packet]) 0 / lenQ (queue_times s ++ [t - time packet]))%Q])
     (set_packet_times (packet_times s ++ [t]) (set_queue_times (queue_times s
     ++ [(t - time packet)%Q]) (set_now t (set_heap rest s)))))))))))))
| Step_timeout_monitor_1 (s : State) (t : Q) (pr : nat) (i : nat) (rest : list Entry)
    (Hpop : heappop (heap s) = Some ({| at_time := t; priority := pr; eid :=
      i; event := Timeout KMonitor |}, rest))
    (Heqb : Qeq_bool (lenQ (queue_sizes s ++ [Z.of_nat (length (items s))])) 0
      = true)
  : Step stdexp cfg s (set_next_eid (S (next_eid s)) (set_heap (rest ++ [{|
     at_time := t + 0; priority := NORMAL; eid := next_eid s; event :=
     ProcessEnd Monitor (Some ZeroDivisionError) |}]) (set_queue_sizes
     (queue_sizes s ++ [Z.of_nat (length (items s))]) (set_byte_sizes
     (byte_sizes s ++ [byte_size s]) (set_now t (set_heap rest s))))))
| Step_timeout_monitor_2 (s : State) (t : Q) (pr : nat) (i : nat) (rest : list Entry)
    (Hpop : heappop (heap s) = Some ({| at_time := t; priority := pr; eid :=
      i; event := Timeout KMonitor |}, rest))
    (Heqb : Qeq_bool (lenQ (queue_sizes s ++ [Z.of_nat (length (items s))])) 0
      = false)
    (Heqb0 : Qeq_bool (SAMPLING_INTERVALL cfg) 0 = true)
  : Step stdexp cfg s (set_next_eid (S (next_eid s)) (set_heap (rest ++ [{|
     at_time := t + 0; priority := NORMAL; eid := next_eid s; event :=
     ProcessEnd Monitor (Some ZeroDivisionError) |}]) (set_samp_time
     (samp_time s ++ [t]) (set_queue_avg_sizes (queue_avg_sizes s ++
     [(inject_Z (fold_left Z.add (queue_sizes s ++ [Z.of_nat (length (items
     s))]) 0%Z) / lenQ (queue_sizes s ++ [Z.of_nat (length (items s))]))%Q])
     (set_queue_sizes (queue_sizes s ++ [Z.of_nat (length (items s))])
     (set_byte_sizes (byte_sizes s ++ [byte_size s]) (set_now t (set_heap rest
     s))))))))
| Step_timeout_monitor_3 (s : State) (t : Q) (pr : nat) (i : nat) (rest : list Entry)
    (Hpop : heappop (heap s) = Some ({| at_time := t; priority := pr; eid :=
      i; event := Timeout KMonitor |}, rest))
    (Heqb : Qeq_bool (lenQ (queue_sizes s ++ [Z.of_nat (length (items s))])) 0
      = false)
    (Heqb0 : Qeq_bool (SAMPLING_INTERVALL cfg) 0 = false)
    (q : (1 / SAMPLING_INTERVALL cfg < 0)%Q)
  : Step stdexp cfg s (set_next_eid (S (next_eid s)) (set_heap (rest ++ [{|
     at_time := t + 0; priority := NORMAL; eid := next_eid s; event :=
     ProcessEnd Monitor (Some ValueError) |}]) (set_samp_time (samp_time s ++
     [t]) (set_queue_avg_sizes (queue_avg_sizes s ++ [(inject_Z (fold_left
     Z.add (queue_sizes s ++ [Z.of_nat (length (items s))]) 0%Z) / lenQ
     (queue_sizes s ++ [Z.of_nat (length (items s))]))%Q]) (set_queue_sizes
     (queue_sizes s ++ [Z.of_nat (length (items s))]) (set_byte_sizes
     (byte_sizes s ++ [byte_size s]) (set_now t (set_heap rest s))))))))
| Step_timeout_monitor_4 (s : State) (t : Q) (pr : nat) (i : nat) (rest : list Entry)
    (Hpop : heappop (heap s) = Some ({| at_time := t; priority := pr; eid :=
      i; event := Timeout KMonitor |}, rest))
    (Heqb : Qeq_bool (lenQ (queue_sizes s ++ [Z.of_nat (length (items s))])) 0
      = false)
    (Heqb0 : Qeq_bool (SAMPLING_INTERVALL cfg) 0 = false)
    (q : (0 <= 1 / SAMPLING_INTERVALL cfg)%Q)
  : Step stdexp cfg s (set_next_eid (S (next_eid s)) (set_heap (rest ++ [{|
     at_time := t + 1 / SAMPLING_INTERVALL cfg; priority := NORMAL; eid :=
     next_eid s; event := Timeout KMonitor |}]) (set_samp_time (samp_time s ++
     [t]) (set_queue_avg_sizes (queue_avg_sizes s ++ [(inject_Z (fold_left
     Z.add (queue_sizes s ++ [Z.of_nat (length (items s))]) 0%Z) / lenQ
     (queue_sizes s ++ [Z.of_nat (length (items s))]))%Q]) (set_queue_sizes
     (queue_sizes s ++ [Z.of_nat (length (items s))]) (set_byte_sizes
     (byte_sizes s ++ [byte_size s]) (set_now t (set_heap rest s))))))))
| Step_store_put_1 (s : State) (t : Q) (pr : nat) (i : nat) (rest : list Entry)
    (Hpop : heappop (heap s) = Some ({| at_time := t; priority := pr; eid :=
      i; event := StorePut |}, rest))
    (Heqn : get_queue s = 0%nat)
  : Step stdexp cfg s (set_now t (set_heap rest s))
| Step_store_put_2 (s : State) (t : Q) (pr : nat) (i : nat) (rest : list Entry) (n : nat)
    (Hpop : heappop (heap s) = Some ({| at_time := t; priority := pr; eid :=
      i; event := StorePut |}, rest))
    (Heqn : get_queue s = S n)
    (Heql : items s = [])
  : Step stdexp cfg s (set_now t (set_heap rest s))
| Step_store_put_3 (s : State) (t : Q) (pr : nat) (i : nat) (rest : list Entry) (n : nat) (p : Packet) (l : list Packet)
    (Hpop : heappop (heap s) = Some ({| at_time := t; priority := pr; eid :=
      i; event := StorePut |}, rest))
    (Heqn : get_queue s = S n)
    (Heql : items s = p :: l)
  : Step stdexp cfg s (set_next_eid (S (next_eid s)) (set_heap (rest ++ [{|
     at_time := t + 0; priority := NORMAL; eid := next_eid s; event :=
     StoreGet p |}]) (set_get_queue n (set_items l (set_now t (set_heap rest
     s))))))
| Step_store_get_1 (s : State) (t : Q) (pr : nat) (i : nat) (item : Packet) (rest : list Entry)
    (Hpop : heappop (heap s) = Some ({| at_time := t; priority := pr; eid :=
      i; event := StoreGet item |}, rest))
    (Heqb : Qeq_bool (SERVER_RATE cfg) 0 = true)
  : Step stdexp cfg s (set_next_eid (S (next_eid s)) (set_heap (rest ++ [{|
     at_time := t + 0; priority := NORMAL; eid := next_eid s; event :=
     ProcessEnd Server (Some ZeroDivisionError) |}]) (set_trace (trace s ++
     [Taken item t]) (set_byte_size (byte_size s - size item) (set_now t
     (set_heap rest s))))))
| Step_store_get_2 (s : State) (t : Q) (pr : nat) (i : nat) (item : Packet) (rest : list Entry)
    (Hpop : heappop (heap s) = Some ({| at_time := t; priority := pr; eid :=
      i; event := StoreGet item |}, rest))
    (Heqb : Qeq_bool (SERVER_RATE cfg) 0 = false)
    (q : (inject_Z (size item) * 8 / SERVER_RATE cfg < 0)%Q)
  : Step stdexp cfg s (set_next_eid (S (next_eid s)) (set_heap (rest ++ [{|
     at_time := t + 0; priority := NORMAL; eid := next_eid s; event :=
     ProcessEnd Server (Some ValueError) |}]) (set_trace (trace s ++ [Taken
     item t]) (set_byte_size (byte_size s - size item) (set_now t (set_heap
     rest s))))))
| Step_store_get_3 (s : State) (t : Q) (pr : nat) (i : nat) (item : Packet) (rest : list Entry)
    (Hpop : heappop (heap s) = Some ({| at_time := t; priority := pr; eid :=
      i; event := StoreGet item |}, rest))
    (Heqb : Qeq_bool (SERVER_RATE cfg) 0 = false)
    (q : (0 <= inject_Z (size item) * 8 / SERVER_RATE cfg)%Q)
  : Step stdexp cfg s (set_next_eid (S (next_eid s)) (set_heap (rest ++ [{|
     at_time := t + inject_Z (size item) * 8 / SERVER_RATE cfg; priority :=
     NORMAL; eid := next_eid s; event := Timeout (KServer item) |}])
     (set_trace (trace s ++ [Taken item t]) (set_byte_size (byte_size s - size
     item) (set_now t (set_heap rest s))))))
| Step_process_end_1 (s : State) (t : Q) (pr : nat) (i : nat) (p : Proc) (rest : list Entry)
    (Hpop : heappop (heap s) = Some ({| at_time := t; priority := pr; eid :=
      i; event := ProcessEnd p None |}, rest))
  : Step stdexp cfg s (set_now t (set_heap rest s)).

(** ** Concrete experiments *)

(** Two arrivals, at times 0 and 1/2, of 250 and 100 bytes. *)
Definition two_arrivals : Z -> nat -> Q := draws [0; 5#2; 1#2; 1]%Q 0.

(** Count mode with a limit of one packet. *)
Definition cfg_count1 : Config :=
  mkConfig 1000 1 100 42 (5#2) 2 1 false 1.

(** Byte mode with a limit of 150 bytes. *)
Definition cfg_bytes150 : Config :=
  mkConfig 1000 1 100 42 10 3 150 true 1.

(** Byte mode with the script's limit, two packets, horizon 5/2. *)
Definition cfg_short : Config :=
  mkConfig 1000 1 100 42 (5#2) 2 100000 true 1.

(** As [two_arrivals], the second packet being empty. *)
Definition empty_second : Z -> nat -> Q := draws [0; 5#2; 1#2; 0]%Q 0.

(** One packet of 125 bytes arriving at time 0 at an idle system. *)
Definition one_arrival : Z -> nat -> Q := draws [0; 5#4]%Q 0.

Definition cfg_one : Config :=
  mkConfig 1000 1 100 42 10 1 100000 true 1.

(** A stream that agrees with [two_arrivals] on the first four draws
    only. *)
Definition two_arrivals_more : Z -> nat -> Q := draws [0; 5#2; 1#2; 1; 9; 9]%Q 9.

(** A buffer limit of zero, and a server rate of zero. *)
Definition cfg_limit0 : Config :=
  mkConfig 1000 1 100 42 (5#2) 2 0 true 1.

Definition cfg_rate0 : Config :=
  mkConfig 0 1 100 42 (5#2) 2 100000 true 1.

(** A mean packet size of zero. *)
Definition cfg_size0 : Config :=
  mkConfig 1000 1 0 42 (5#2) 2 100000 true 1.

(** ** Proof automation *)

Ltac unfold_sim :=
  unfold dispatch, resume, generator_resume, server_done, monitor_resume,
    server_take, generator_loop, server_loop, monitor_loop, toQueue, recorder,
    queue_put, queue_get, trigger_get, expovariate, timeout, truediv, observe,
    schedule, bind, ret, raise, gets, modify in *.

(** ** The heap *)

Lemma key_ltb_spec a b : key_ltb a b = true <-> key_lt a b.
Proof.
  unfold key_ltb, key_lt.
  destruct (at_time a ?= at_time b)%Q eqn:C.
  - apply Qeq_alt in C.
    destruct (Nat.ltb_spec (priority a) (priority b)) as [P|P].
    + split; auto.
    + destruct (Nat.ltb_spec (priority b) (priority a)) as [P'|P'].
      * split; [discriminate|]. intros [K|[_ K]]; [lra|lia].
      * destruct (Nat.ltb_spec (eid a) (eid b)) as [I|I].
        -- split; auto. intros _. right. split; [exact C|]. right. lia.
        -- split; [discriminate|]. intros [K|[_ K]]; [lra|lia].
  - apply Qlt_alt in C. tauto.
  - apply Qgt_alt in C. split; [discriminate|].
    intros [K|[K _]]; lra.
Qed.

Lemma key_lt_asym a b : key_lt a b -> key_lt b a -> False.
Proof. unfold key_lt. intros [H1|[H1 H1']] [H2|[H2 H2']]; try lra; lia. Qed.

Lemma key_lt_cotrans a b c : key_lt a c -> key_lt a b \/ key_lt b c.
Proof.
  unfold key_lt. intros H.
  destruct (Q_dec (at_time a) (at_time b)) as [[Hab|Hab]|Hab]; [tauto| |].
  - right. left. destruct H as [H|[H _]]; lra.
  - destruct H as [H|[H H']]; [right; left; lra|].
    destruct (Nat.lt_trichotomy (priority a) (priority b)) as [P|[P|P]];
      [tauto| |right; right; split; [lra|lia]].
    destruct (Nat.lt_trichotomy (eid a) (eid b)) as [I|[I|I]];
      [left; right; split; [lra|lia] | |];
      right; right; (split; [lra|lia]).
Qed.

Lemma heappop_None h : heappop h = None -> h = [].
Proof.
  destruct h as [|e t]; [reflexivity|]. simpl.
  destruct (heappop t) as [[m t']|]; [destruct (key_ltb m e)|]; discriminate.
Qed.

Lemma heappop_perm h : forall m h', heappop h = Some (m, h') -> Permutation h (m :: h').
Proof.
  induction h as [|e t IH]; simpl; intros m h' H; [discriminate|].
  destruct (heappop t) as [[m0 t']|] eqn:E.
  - destruct (key_ltb m0 e); inversion H; subst; [|reflexivity].
    rewrite (IH _ _ eq_refl). apply perm_swap.
  - inversion H; subst. apply heappop_None in E. subst. reflexivity.
Qed.

(** The popped entry is least for the key. *)
Lemma heappop_min h : forall m h' x,
  heappop h = Some (m, h') -> In x h' -> key_ltb x m = false.
Proof.
  induction h as [|e t IH]; simpl; intros m h' x H Hx; [discriminate|].
  destruct (heappop t) as [[m0 t']|] eqn:E.
  - destruct (key_ltb m0 e) eqn:K; inversion H; subst.
    + destruct Hx as [<-|Hx]; [|eauto].
      destruct (key_ltb e m) eqn:K'; [|reflexivity].
      apply key_ltb_spec in K, K'. destruct (key_lt_asym _ _ K K').
    + assert (Hx' : In x (m0 :: t'))
        by (eapply Permutation_in; [apply heappop_perm; exact E | exact Hx]).
      destruct (key_ltb x m) eqn:K'; [|reflexivity].
      apply key_ltb_spec in K'.
      destruct (key_lt_cotrans _ m0 _ K') as [K1|K1]; apply key_ltb_spec in K1.
      * destruct Hx' as [<-|Hx'].
        -- apply key_ltb_spec in K1. destruct (key_lt_asym _ _ K1 K1).
        -- rewrite (IH _ _ _ eq_refl Hx') in K1. discriminate.
      * congruence.
  - inversion H; subst. destruct Hx.
Qed.

Lemma sum_of_app {A} (f : A -> Z) l1 l2 : sum_of f (l1 ++ l2) = sum_of f l1 + sum_of f l2.
Proof. induction l1; simpl; lia. Qed.

Lemma sum_of_perm {A} (f : A -> Z) l1 l2 : Permutation l1 l2 -> sum_of f l1 = sum_of f l2.
Proof. induction 1; simpl; lia. Qed.

Lemma heappop_sum (f : Entry -> Z) h m h' :
  heappop h = Some (m, h') -> sum_of f h = f m + sum_of f h'.
Proof. intros H. apply heappop_perm in H. rewrite (sum_of_perm f _ _ H). reflexivity. Qed.

Lemma heappop_In h m h' x : heappop h = Some (m, h') -> In x h <-> x = m \/ In x h'.
Proof.
  intros H. apply heappop_perm in H. split; intros Hx.
  - apply (Permutation_in _ H) in Hx. destruct Hx; auto.
  - apply (Permutation_in _ (Permutation_sym H)). destruct Hx; [left|right]; auto.
Qed.

(** ** Steps of the event loop *)

Section Steps.

Variable stdexp : Z -> nat -> Q.
Variable cfg : Config.

Lemma step_continue s s' :
  step stdexp cfg s = Continue s' ->
  exists e rest, heappop (heap s) = Some (e, rest) /\
    dispatch stdexp cfg (event e) (set_now (at_time e) (set_heap rest s)) = Continue s'.
Proof.
  unfold step. destruct (heappop (heap s)) as [[e rest]|]; [eauto|discriminate].
Qed.

(** Only the stop event ends the run. *)
Lemma step_finished s s' :
  step stdexp cfg s = Finished s' ->
  exists t pr i rest,
    heappop (heap s) = Some (mkEntry t pr i Until, rest) /\
    s' = set_now t (set_heap rest s).
Proof.
  unfold step.
  destruct (heappop (heap s)) as [[[t pr i ev] rest]|]; [|discriminate].
  cbn [event at_time].
  destruct ev as [[]|[]| | |? []|]; cbn [dispatch]; intros H;
    try discriminate H.
  inversion H. eauto 10.
Qed.

Lemma start_inv s0 :
  start cfg = inr s0 ->
  (0 < SIMULATION_TIME cfg)%Q /\
  s0 = schedule Until URGENT (SIMULATION_TIME cfg - 0) processes.
Proof.
  unfold start. cbn.
  destruct (Qle_bool (SIMULATION_TIME cfg) 0) eqn:E; [discriminate|].
  intros H. inversion H. split; [|reflexivity].
  destruct (Qlt_le_dec 0 (SIMULATION_TIME cfg)) as [L|L]; [exact L|].
  apply Qle_bool_iff in L. congruence.
Qed.

(** Induction over the states of a run. *)
Lemma reachable_invariant (P : State -> Prop) :
  (forall s0, start cfg = inr s0 -> P s0) ->
  (forall s s', reachable stdexp cfg s -> P s ->
     step stdexp cfg s = Continue s' \/ step stdexp cfg s = Finished s' -> P s') ->
  forall s, reachable stdexp cfg s -> P s.
Proof.
  intros H0 HS s R. induction R; eauto.
Qed.

Lemma reachable_run n : forall s s',
  reachable stdexp cfg s -> run stdexp cfg n s = Continue s' -> reachable stdexp cfg s'.
Proof.
  induction n as [|n IH]; simpl; intros s s' R H.
  - inversion H; subst; exact R.
  - destruct (step stdexp cfg s) eqn:E; try discriminate.
    eapply IH; [|exact H]. eapply reach_step; eauto.
Qed.

Lemma reachable_run_finished n : forall s s',
  reachable stdexp cfg s -> run stdexp cfg n s = Finished s' -> reachable stdexp cfg s'.
Proof.
  induction n as [|n IH]; simpl; intros s s' R H; [discriminate|].
  destruct (step stdexp cfg s) eqn:E; try discriminate.
  - eapply IH; [|exact H]. eapply reach_step; eauto.
  - inversion H; subst. eapply reach_stop; eauto.
Qed.

Lemma state_after_reachable n :
  running stdexp cfg n = true -> reachable stdexp cfg (state_after stdexp cfg n).
Proof.
  unfold running, state_after.
  destruct (start cfg) as [|s0] eqn:E0; [discriminate|].
  destruct (run stdexp cfg n s0) eqn:E; try discriminate; intros _; cbn.
  - eapply reachable_run; [apply reach_start; exact E0 | exact E].
  - eapply reachable_run_finished; [apply reach_start; exact E0 | exact E].
Qed.

End Steps.

(** Projections of updated states. *)
Ltac fields :=
  cbn [now heap next_eid items get_queue rng byte_size packets_sent
       packets_rec packets_drop packets_queue queue_times queue_sizes
       byte_sizes packet_times samp_time packets_recorded bytes_recorded
       queue_avg_sizes queue_avg_times trace
       set_now set_heap set_next_eid set_items set_get_queue set_rng
       set_byte_size set_packets_sent set_packets_rec set_packets_drop
       set_packets_queue set_queue_times set_queue_sizes set_byte_sizes
       set_packet_times set_samp_time set_packets_recorded
       set_bytes_recorded set_queue_avg_sizes set_queue_avg_times set_trace
       event at_time priority eid id size time].

Ltac fields_in H :=
  cbn [now heap next_eid items get_queue rng byte_size packets_sent
       packets_rec packets_drop packets_queue queue_times queue_sizes
       byte_sizes packet_times samp_time packets_recorded bytes_recorded
       queue_avg_sizes queue_avg_times trace
       set_now set_heap set_next_eid set_items set_get_queue set_rng
       set_byte_size set_packets_sent set_packets_rec set_packets_drop
       set_packets_queue set_queue_times set_queue_sizes set_byte_sizes
       set_packet_times set_samp_time set_packets_recorded
       set_bytes_recorded set_queue_avg_sizes set_queue_avg_times set_trace
       event at_time priority eid id size time] in H.

(** Case analysis on the innermost scrutinees of [H]. *)
Ltac break_in H :=
  repeat (match type of H with
          | context [match ?x with _ => _ end] =>
              lazymatch x with
              | context [match _ with _ => _ end] => fail
              | _ => destruct x eqn:?
              end
          end; cbn in H).

(** Every step that continues follows a rule of [Step]. *)
Lemma step_Step stdexp cfg s s' :
  step stdexp cfg s = Continue s' -> Step stdexp cfg s s'.
Proof.
  intros H. apply step_continue in H. destruct H as (e & rest & Hpop & H).
  destruct e as [t pr i ev]. cbn [event at_time] in H.
  destruct ev as [[]|[]| | |? []|]; unfold_sim; cbn in H;
    break_in H; try discriminate H; inversion H; subst; clear H; fields;
    repeat match goal with
      | E : items ?s = _ |- context [items ?s] => rewrite E
      | E : get_queue ?s = _ |- context [get_queue ?s] => rewrite E
      end;
    repeat match goal with
      | K : Qlt_le_dec _ _ = _ |- _ => clear K
      end;
    [ eapply Step_init_generator_1; eassumption |
      eapply Step_init_generator_2; eassumption |
      eapply Step_init_generator_3; eassumption |
      eapply Step_init_generator_4; eassumption |
      eapply Step_init_generator_5; eassumption |
      eapply Step_init_server_1; eassumption |
      eapply Step_init_server_2; eassumption |
      eapply Step_init_monitor_1; eassumption |
      eapply Step_init_monitor_2; eassumption |
      eapply Step_init_monitor_3; eassumption |
      eapply Step_timeout_generator_1; eassumption |
      eapply Step_timeout_generator_2; eassumption |
      eapply Step_timeout_generator_3; eassumption |
      eapply Step_timeout_generator_4; eassumption |
      eapply Step_timeout_generator_5; eassumption |
      eapply Step_timeout_generator_6; eassumption |
      eapply Step_timeout_generator_7; eassumption |
      eapply Step_timeout_generator_8; eassumption |
      eapply Step_timeout_generator_9; eassumption |
      eapply Step_timeout_generator_10; eassumption |
      eapply Step_timeout_generator_11; eassumption |
      eapply Step_timeout_generator_12; eassumption |
      eapply Step_timeout_generator_13; eassumption |
      eapply Step_timeout_generator_14; eassumption |
      eapply Step_timeout_generator_15; eassumption |
      eapply Step_timeout_generator_16; eassumption |
      eapply Step_timeout_generator_17; eassumption |
      eapply Step_timeout_server_1; eassumption |
      eapply Step_timeout_server_2; eassumption |
      eapply Step_timeout_server_3; eassumption |
      eapply Step_timeout_monitor_1; eassumption |
      eapply Step_timeout_monitor_2; eassumption |
      eapply Step_timeout_monitor_3; eassumption |
      eapply Step_timeout_monitor_4; eassumption |
      eapply Step_store_put_1; eassumption |
      eapply Step_store_put_2; eassumption |
      eapply Step_store_put_3; eassumption |
      eapply Step_store_get_1; eassumption |
      eapply Step_store_get_2; eassumption |
      eapply Step_store_get_3; eassumption |
      eapply Step_process_end_1; eassumption ].
Qed.

(** In a hypothesis [H : step s = Continue s'], one goal per rule. *)
Ltac live_cases H :=
  apply step_Step in H; destruct H; fields;
  repeat match goal with
    | E : items ?s = _ |- _ => rewrite E in *
    | E : get_queue ?s = _ |- _ => rewrite E in *
    end.

(** The same for [H : step s = Continue s' \/ step s = Finished s']. *)
Ltac step_cases H :=
  destruct H as [H|H];
  [ live_cases H
  | let t := fresh "t" in
    let pr := fresh "pr" in
    let i := fresh "i" in
    let rest := fresh "rest" in
    let Hpop := fresh "Hpop" in
    apply step_finished in H;
    destruct H as (t & pr & i & rest & Hpop & ->); fields ].

Lemma Qle_bool_false a b : Qle_bool a b = false -> (b < a)%Q.
Proof.
  intros H. destruct (Qlt_le_dec b a) as [L|L]; [exact L|].
  apply Qle_bool_iff in L. congruence.
Qed.

Lemma Qeq_bool_false a b : Qeq_bool a b = false -> ~ (a == b)%Q.
Proof. intros H E. apply Qeq_bool_iff in E. congruence. Qed.

(** Boolean tests of the code as propositions. *)
Ltac props :=
  repeat match goal with
  | H : Qle_bool _ _ = true |- _ => apply Qle_bool_iff in H
  | H : Qle_bool _ _ = false |- _ => apply Qle_bool_false in H
  | H : Qeq_bool _ _ = true |- _ => apply Qeq_bool_iff in H
  | H : Qeq_bool _ _ = false |- _ => apply Qeq_bool_false in H
  | H : (_ <? _) = true |- _ => apply Z.ltb_lt in H
  | H : (_ <? _) = false |- _ => apply Z.ltb_ge in H
  | H : _ && _ = true |- _ => apply andb_true_iff in H; destruct H
  | H : _ && _ = false |- _ => apply andb_false_iff in H
  | H : negb _ = true |- _ => apply negb_true_iff in H
  | H : negb _ = false |- _ => apply negb_false_iff in H
  end.

Lemma lenQ_snoc {A} (l : list A) x :
  inject_Z (Z.of_nat (length (l ++ [x]))) = (inject_Z (Z.of_nat (length l)) + 1)%Q.
Proof.
  rewrite length_app, Nat2Z.inj_add. cbn [length].
  unfold inject_Z, Qplus. cbn. f_equal. lia.
Qed.

Lemma lenQ_cons {A} (l : list A) x :
  inject_Z (Z.of_nat (length (x :: l))) = (inject_Z (Z.of_nat (length l)) + 1)%Q.
Proof.
  cbn [length]. rewrite Nat2Z.inj_succ.
  unfold inject_Z, Qplus. cbn. f_equal. lia.
Qed.

(** ** Counters *)

Section Counters.

Variable stdexp : Z -> nat -> Q.
Variable cfg : Config.

Lemma balanced_invariant s :
  reachable stdexp cfg s -> packets_rec s = packets_queue s + packets_drop s.
Proof.
  revert s. apply reachable_invariant.
  - intros s0 H. apply start_inv in H. destruct H as [_ ->]. reflexivity.
  - intros s s' _ IH H. step_cases H; lia.
Qed.

Lemma toQueue_cases p s :
  let s' := snd (toQueue cfg p s) in
  fst (toQueue cfg p s) = inr tt /\
  ((LIMIT_BYTES cfg = true /\
    (QUEUE_LIMIT cfg <= inject_Z (byte_size s + size p))%Q /\ dropped_by p s s') \/
   (LIMIT_BYTES cfg = false /\
    (QUEUE_LIMIT cfg <= inject_Z (Z.of_nat (length (items s))))%Q /\ dropped_by p s s') \/
   (LIMIT_BYTES cfg = true /\
    (inject_Z (byte_size s + size p) < QUEUE_LIMIT cfg)%Q /\ admitted_by p s s') \/
   (LIMIT_BYTES cfg = false /\
    (inject_Z (Z.of_nat (length (items s))) < QUEUE_LIMIT cfg)%Q /\ admitted_by p s s')).
Proof.
  unfold dropped_by, admitted_by. unfold_sim. cbn.
  destruct (LIMIT_BYTES cfg); cbn;
    match goal with
    | |- context [Qle_bool ?a ?b] =>
        destruct (Qle_bool a b) eqn:E; cbn; split; try reflexivity;
        [ apply Qle_bool_iff in E
        | assert (b < a)%Q
            by (destruct (Qlt_le_dec b a) as [L|L]; [exact L|];
                apply Qle_bool_iff in L; congruence) ]
    end; intuition auto.
Qed.

Lemma Qeq_bool_inv_zero x : Qeq_bool (1 / x) 0 = true -> (x == 0)%Q.
Proof.
  intros H. apply Qeq_bool_iff in H.
  destruct (Qeq_dec x 0) as [E|E]; [exact E|].
  exfalso. assert (K : (x * (1 / x) == 1)%Q) by (field; exact E).
  rewrite H in K. lra.
Qed.

(** In count mode an admission happens only below the limit. *)
Lemma count_bound_invariant s :
  LIMIT_BYTES cfg = false ->
  (0 <= QUEUE_LIMIT cfg)%Q ->
  reachable stdexp cfg s ->
  (inject_Z (Z.of_nat (length (items s))) < QUEUE_LIMIT cfg + 1)%Q.
Proof.
  intros Hmode Hlim. revert s. apply reachable_invariant.
  - intros s0 H. apply start_inv in H. destruct H as [_ ->].
    cbn. change (inject_Z 0) with 0%Q. lra.
  - intros s s' _ IH H.
    step_cases H; rewrite ?Hmode in *; cbn [negb andb] in *; props;
      try exact IH; try congruence;
      rewrite ?lenQ_snoc, ?lenQ_cons in *; lra.
Qed.

End Counters.

(** ** Admission control *)

(** C1 (as amended).  In COUNT_LIMITED mode [toQueue] compares the current
    queue length, without the candidate, with the limit: the packet is
    dropped when the length is already >= the limit and appended to the
    tail otherwise.  Consequently the queue length stays below limit + 1
    (for an integer limit: it never exceeds the limit). *)
Theorem count_limited_admission stdexp cfg s :
  LIMIT_BYTES cfg = false ->
  (0 <= QUEUE_LIMIT cfg)%Q ->
  reachable stdexp cfg s ->
  (inject_Z (Z.of_nat (length (items s))) < QUEUE_LIMIT cfg + 1)%Q /\
  forall p,
    ((QUEUE_LIMIT cfg <= inject_Z (Z.of_nat (length (items s))))%Q ->
     dropped_by p s (snd (toQueue cfg p s))) /\
    ((inject_Z (Z.of_nat (length (items s))) < QUEUE_LIMIT cfg)%Q ->
     admitted_by p s (snd (toQueue cfg p s))).
Proof.
  intros Hmode Hlim R. split; [eapply count_bound_invariant; eauto|].
  intros p. destruct (toQueue_cases cfg p s) as [_ H]. cbn zeta in H.
  split; intros Hc;
    destruct H as [(M & _)|[(_ & C & H)|[(M & _)|(_ & C & H)]]];
    try congruence; try exact H; lra.
Qed.

Lemma count_limited_admission_witness :
  let s := state_after two_arrivals cfg_count1 6 in
  (inject_Z (Z.of_nat (length (items s))) < QUEUE_LIMIT cfg_count1 + 1)%Q /\
  forall p,
    ((QUEUE_LIMIT cfg_count1 <= inject_Z (Z.of_nat (length (items s))))%Q ->
     dropped_by p s (snd (toQueue cfg_count1 p s))) /\
    ((inject_Z (Z.of_nat (length (items s))) < QUEUE_LIMIT cfg_count1)%Q ->
     admitted_by p s (snd (toQueue cfg_count1 p s))).
Proof.
  apply (count_limited_admission two_arrivals cfg_count1).
  - reflexivity.
  - vm_compute. discriminate.
  - apply state_after_reachable. vm_compute. reflexivity.
Defined.

(** C1 as stated fails: with a limit of one packet and the server busy,
    the candidate occupancy of the second packet is 0 + 1 >= 1, yet the
    packet is admitted and the queue length attains the limit. *)
Lemma count_limit_attained :
  let s := state_after two_arrivals cfg_count1 6 in
  let s' := state_after two_arrivals cfg_count1 7 in
  let p := mkPacket 2 100 (1#2) in
  reachable two_arrivals cfg_count1 s /\
  step two_arrivals cfg_count1 s = Continue s' /\
  LIMIT_BYTES cfg_count1 = false /\
  (QUEUE_LIMIT cfg_count1 <= inject_Z (Z.of_nat (length (items s)) + 1))%Q /\
  trace s' = trace s ++ [Enqueued p] /\
  items s' = [p] /\
  (inject_Z (Z.of_nat (length (items s'))) == QUEUE_LIMIT cfg_count1)%Q.
Proof.
  cbv zeta. split; [apply state_after_reachable; vm_compute; reflexivity|].
  split; [vm_compute; reflexivity|].
  split; [reflexivity|].
  split; [vm_compute; discriminate|].
  split; [vm_compute; reflexivity|].
  split; vm_compute; reflexivity.
Qed.

(** C5.  In BYTE_LIMITED mode with limit [L] and [byte_size = B], a packet
    of size [L - B] is dropped and one of size [L - B - 1] is admitted.
    With limit 150 and an empty queue, packets of 80, 60 and 50 bytes
    submitted in a row are admitted, admitted and dropped, which leaves
    [byte_size = 140] with one drop and two admissions. *)
Theorem byte_limit_boundary cfg s L :
  LIMIT_BYTES cfg = true ->
  (QUEUE_LIMIT cfg == inject_Z L)%Q ->
  (forall p, size p = L - byte_size s -> dropped_by p s (snd (toQueue cfg p s))) /\
  (forall p, size p = L - byte_size s - 1 -> admitted_by p s (snd (toQueue cfg p s))) /\
  (L = 150 -> byte_size s = 0 -> items s = [] ->
   forall p1 p2 p3, size p1 = 80 -> size p2 = 60 -> size p3 = 50 ->
     let s1 := snd (toQueue cfg p1 s) in
     let s2 := snd (toQueue cfg p2 s1) in
     let s3 := snd (toQueue cfg p3 s2) in
     admitted_by p1 s s1 /\ admitted_by p2 s1 s2 /\ dropped_by p3 s2 s3 /\
     items s3 = [p1; p2] /\ byte_size s3 = 140 /\
     packets_drop s3 = packets_drop s + 1 /\
     packets_queue s3 = packets_queue s + 2).
Proof.
  intros Hmode Hlim.
  assert (Hdrop : forall s p, L <= byte_size s + size p ->
                    dropped_by p s (snd (toQueue cfg p s))).
  { intros s0 p Hp. destruct (toQueue_cases cfg p s0) as [_ H]. cbn zeta in H.
    destruct H as [(_ & _ & H)|[(M & _)|[(_ & C & _)|(M & _)]]];
      try congruence; try exact H.
    exfalso. rewrite Hlim in C. rewrite <- Zlt_Qlt in C. lia. }
  assert (Hadm : forall s p, byte_size s + size p < L ->
                   admitted_by p s (snd (toQueue cfg p s))).
  { intros s0 p Hp. destruct (toQueue_cases cfg p s0) as [_ H]. cbn zeta in H.
    destruct H as [(_ & C & _)|[(M & _)|[(_ & _ & H)|(M & _)]]];
      try congruence; try exact H.
    exfalso. rewrite Hlim in C. rewrite <- Zle_Qle in C. lia. }
  split; [intros p Hp; apply Hdrop; lia|].
  split; [intros p Hp; apply Hadm; lia|].
  intros -> HB Hit p1 p2 p3 H1 H2 H3 s1 s2 s3.
  assert (A1 : admitted_by p1 s s1) by (apply Hadm; lia).
  assert (A2 : admitted_by p2 s1 s2)
    by (apply Hadm; destruct A1 as (_ & _ & _ & E & _); lia).
  assert (A3 : dropped_by p3 s2 s3).
  { apply Hdrop. destruct A1 as (_ & _ & _ & E1 & _).
    destruct A2 as (_ & _ & _ & E2 & _). lia. }
  split; [exact A1|]. split; [exact A2|]. split; [exact A3|].
  destruct A1 as (_ & D1 & Q1 & B1 & I1 & _).
  destruct A2 as (_ & D2 & Q2 & B2 & I2 & _).
  destruct A3 as (_ & D3 & Q3 & B3 & I3 & _).
  split; [rewrite I3, I2, I1, Hit; reflexivity|].
  repeat split; lia.
Qed.

Lemma byte_limit_boundary_witness :
  let s := fresh in
  (forall p, size p = 150 - byte_size s ->
     dropped_by p s (snd (toQueue cfg_bytes150 p s))) /\
  (forall p, size p = 150 - byte_size s - 1 ->
     admitted_by p s (snd (toQueue cfg_bytes150 p s))) /\
  (150 = 150 -> byte_size s = 0 -> items s = [] ->
   forall p1 p2 p3, size p1 = 80 -> size p2 = 60 -> size p3 = 50 ->
     let s1 := snd (toQueue cfg_bytes150 p1 s) in
     let s2 := snd (toQueue cfg_bytes150 p2 s1) in
     let s3 := snd (toQueue cfg_bytes150 p3 s2) in
     admitted_by p1 s s1 /\ admitted_by p2 s1 s2 /\ dropped_by p3 s2 s3 /\
     items s3 = [p1; p2] /\ byte_size s3 = 140 /\
     packets_drop s3 = packets_drop s + 1 /\
     packets_queue s3 = packets_queue s + 2).
Proof.
  apply (byte_limit_boundary cfg_bytes150 fresh 150).
  - reflexivity.
  - reflexivity.
Defined.

(** ** Byte accounting *)

Section Bytes.

Variable stdexp : Z -> nat -> Q.
Variable cfg : Config.

Lemma handover_bytes_eq s : handover_bytes s = sum_of size (in_handover s).
Proof.
  unfold handover_bytes, in_handover.
  induction (heap s) as [|e h IH]; cbn; [reflexivity|].
  rewrite sum_of_app, IH. reflexivity.
Qed.

Lemma byte_size_invariant s :
  reachable stdexp cfg s -> byte_size s = resident_bytes s + handover_bytes s.
Proof.
  revert s. apply reachable_invariant.
  - intros s0 H. apply start_inv in H. destruct H as [_ ->]. reflexivity.
  - intros s s' _ IH H. unfold resident_bytes, handover_bytes in *.
    step_cases H; rewrite (heappop_sum handed_bytes _ _ _ Hpop) in IH;
      rewrite ?sum_of_app; cbn in *; lia.
Qed.

Lemma int_nonneg q : (0 <= q)%Q -> 0 <= int q.
Proof.
  destruct q as [n d]. unfold Qle, int. cbn. intros H.
  apply Z.quot_pos; lia.
Qed.

Lemma expo_nonneg x m : (0 <= x)%Q -> (0 < m)%Q -> (0 <= x / (1 / m))%Q.
Proof.
  intros Hx Hm. assert (E : (x / (1 / m) == x * m)%Q) by (field; lra).
  rewrite E. apply Qmult_le_0_compat; lra.
Qed.

Lemma nonneg_sizes_invariant s :
  (0 < SIZE_PACKET cfg)%Q ->
  (forall n, (0 <= stdexp (RANDOM_SEED cfg) n)%Q) ->
  reachable stdexp cfg s -> nonneg_sizes s.
Proof.
  intros Hsz Hdraw. revert s. apply reachable_invariant.
  - intros s0 H. apply start_inv in H. destruct H as [_ ->].
    split; cbn; repeat constructor; cbn; lia.
  - intros s s' _ [IH1 IH2] H. unfold nonneg_sizes.
    step_cases H;
      apply (Permutation_Forall (heappop_perm _ _ _ Hpop)) in IH2;
      apply Forall_cons_iff in IH2; destruct IH2 as [IH2 IH3];
      try (apply Forall_cons_iff in IH1; destruct IH1 as [IH1 IH4]);
      (split; rewrite ?Forall_app; repeat split; repeat constructor;
       try assumption; cbn in *; try lia);
      apply int_nonneg, expo_nonneg; auto.
Qed.

Lemma sum_of_nonneg {A} (f : A -> Z) l :
  Forall (fun a => 0 <= f a) l -> 0 <= sum_of f l.
Proof. induction 1; cbn; lia. Qed.

Lemma sum_of_zero {A} (f : A -> Z) l :
  Forall (fun a => 0 <= f a) l -> sum_of f l = 0 -> forall a, In a l -> f a = 0.
Proof.
  induction 1 as [|a l Ha Hl IH]; cbn; intros Hs b Hb; [destruct Hb|].
  pose proof (sum_of_nonneg f l Hl).
  destruct Hb as [<-|Hb]; [lia|]. apply IH; [lia|exact Hb].
Qed.

End Bytes.

(** X10.  What [byte_size] counts.  It is the sum of the sizes of the
    packets in [queue.items] plus the size of a packet that the Store has
    already removed for the server's pending get but that the server has
    not received yet.  When the mean packet size is positive and no draw
    is negative, so that no size is negative: [byte_size] is not negative;
    it is zero when the queue is empty and no hand-over is pending; and
    when it is zero every packet in the queue has size zero. *)
Theorem byte_size_accounting stdexp cfg s :
  (0 < SIZE_PACKET cfg)%Q ->
  (forall n, (0 <= stdexp (RANDOM_SEED cfg) n)%Q) ->
  reachable stdexp cfg s ->
  byte_size s = resident_bytes s + sum_of size (in_handover s) /\
  (in_handover s = [] -> byte_size s = resident_bytes s) /\
  0 <= byte_size s /\
  (items s = [] -> in_handover s = [] -> byte_size s = 0) /\
  (byte_size s = 0 -> forall p, In p (items s) -> size p = 0).
Proof.
  intros Hsz Hdraw R.
  pose proof (byte_size_invariant stdexp cfg s R) as E.
  destruct (nonneg_sizes_invariant stdexp cfg s Hsz Hdraw R) as [N1 N2].
  pose proof (sum_of_nonneg _ _ N1) as P1.
  pose proof (sum_of_nonneg _ _ N2) as P2.
  fold (handover_bytes s) in P2. fold (resident_bytes s) in P1.
  rewrite <- handover_bytes_eq.
  split; [exact E|].
  split; [intros H0; rewrite E, handover_bytes_eq, H0; cbn; lia|].
  split; [lia|].
  split.
  - intros H1 H2. rewrite E, handover_bytes_eq, H2. unfold resident_bytes.
    rewrite H1. reflexivity.
  - intros Z0 p Hp. apply (sum_of_zero size (items s) N1); [|exact Hp].
    unfold resident_bytes in *. lia.
Qed.

Lemma byte_size_accounting_witness :
  let s := state_after two_arrivals cfg_short 11 in
  byte_size s = resident_bytes s + sum_of size (in_handover s) /\
  (in_handover s = [] -> byte_size s = resident_bytes s) /\
  0 <= byte_size s /\
  (items s = [] -> in_handover s = [] -> byte_size s = 0) /\
  (byte_size s = 0 -> forall p, In p (items s) -> size p = 0).
Proof.
  apply (byte_size_accounting two_arrivals cfg_short).
  - reflexivity.
  - intros n. unfold two_arrivals, draws.
    do 5 (destruct n as [|n]; [vm_compute; discriminate|]).
    destruct n; vm_compute; discriminate.
  - apply state_after_reachable. vm_compute. reflexivity.
Defined.

(** C3.  [byte_size] lags behind the queue.  The script calls it the
    current size of the buffer queue in bytes, but [server] subtracts a
    packet's size only when it is resumed with the packet, after
    [queue.get()] has already removed the packet from [queue.items].
    Here the service of packet 1 ends at time 2, a sampling instant; the
    server's [queue.get()] removes packet 2 (100 bytes) from the queue at
    once, the Monitor runs before the server is resumed, and it records
    100 bytes for an empty queue. *)
Theorem byte_size_differs_from_resident :
  let s := state_after two_arrivals cfg_short 12 in
  reachable two_arrivals cfg_short s /\
  items s = [] /\ resident_bytes s = 0 /\ byte_size s = 100 /\
  samp_time s = [1; 2]%Q /\
  byte_sizes s = [100; 100] /\ queue_sizes s = [1; 0].
Proof.
  cbv zeta.
  split; [apply state_after_reachable; vm_compute; reflexivity|].
  repeat split; vm_compute; reflexivity.
Qed.

(** A packet of size zero waits in the queue while [byte_size] is zero:
    a zero byte count does not mean an empty queue. *)
Lemma empty_packet_waits :
  let s := state_after empty_second cfg_short 8 in
  reachable empty_second cfg_short s /\
  byte_size s = 0 /\ items s = [mkPacket 2 0 (1#2)].
Proof.
  cbv zeta.
  split; [apply state_after_reachable; vm_compute; reflexivity|].
  split; vm_compute; reflexivity.
Qed.

(** ** The server *)

Section ServerProcess.

Variable stdexp : Z -> nat -> Q.
Variable cfg : Config.

Lemma server_tokens_invariant s :
  reachable stdexp cfg s -> server_tokens s <= 1.
Proof.
  revert s. apply reachable_invariant.
  - intros s0 H. apply start_inv in H. destruct H as [_ ->]. cbn. lia.
  - intros s s' _ IH H. unfold server_tokens in *.
    step_cases H; rewrite (heappop_sum srv_tok _ _ _ Hpop) in IH;
      rewrite ?sum_of_app; cbn [sum_of srv_tok event] in *; lia.
Qed.

Lemma srv_tok_nonneg l : 0 <= sum_of srv_tok l.
Proof.
  apply sum_of_nonneg, Forall_forall. intros e _. unfold srv_tok.
  destruct (event e) as [[]|[]| | | |]; lia.
Qed.

Lemma handover_length l :
  Z.of_nat (length (flat_map handed_over l)) <= sum_of srv_tok l.
Proof.
  induction l as [|e l IH]; cbn [flat_map sum_of length]; [lia|].
  rewrite length_app. unfold handed_over at 1, srv_tok at 1.
  destruct (event e) as [[]|[]| | | |]; cbn [length]; lia.
Qed.

Lemma perm_short {A} (l1 l2 : list A) :
  Permutation l1 l2 -> (length l1 <= 1)%nat -> l1 = l2.
Proof.
  intros P L. destruct l1 as [|a [|b l]]; cbn in L; try lia.
  - apply Permutation_nil in P. auto.
  - apply Permutation_length_1_inv in P. auto.
Qed.

Lemma heappop_handover h e rest :
  heappop h = Some (e, rest) -> sum_of srv_tok h <= 1 ->
  flat_map handed_over h = handed_over e ++ flat_map handed_over rest.
Proof.
  intros Hpop T. apply perm_short.
  - apply heappop_perm in Hpop.
    apply (Permutation_flat_map handed_over) in Hpop. exact Hpop.
  - pose proof (handover_length h). lia.
Qed.

Lemma no_handover l : sum_of srv_tok l <= 0 -> flat_map handed_over l = [].
Proof.
  intros H. pose proof (handover_length l).
  destruct (flat_map handed_over l); [reflexivity|cbn in *; lia].
Qed.

Lemma fifo_invariant s : reachable stdexp cfg s -> fifo s.
Proof.
  revert s. apply reachable_invariant.
  - intros s0 H. apply start_inv in H. destruct H as [_ ->]. reflexivity.
  - intros s s' R IH H. pose proof (server_tokens_invariant s R) as T.
    unfold fifo, in_handover, server_tokens, admitted_of, taken_of in *.
    pose proof (srv_tok_nonneg (heap s)) as N.
    assert (T' : sum_of srv_tok (heap s) <= 1) by lia.
    step_cases H; rewrite (heappop_handover _ _ _ Hpop T') in IH;
      rewrite (heappop_sum srv_tok _ _ _ Hpop) in T;
      pose proof (srv_tok_nonneg rest);
      cbn [srv_tok handed_over event app] in *;
      rewrite ?flat_map_app; cbn [flat_map handed_over event app] in *;
      try (rewrite (no_handover rest) in * by lia);
      rewrite ?app_nil_r in *; rewrite <- ?app_assoc in *; cbn [app] in *;
      try congruence;
      rewrite IH, <- ?app_assoc; reflexivity.
Qed.

Lemma served_at_mono tr l p t :
  served_at cfg tr p t -> served_at cfg (tr ++ l) p t.
Proof.
  intros (t1 & H1 & H2). exists t1. split; [apply in_or_app; auto|exact H2].
Qed.

Lemma in_service_mono tr l h :
  Forall (in_service cfg tr) h -> Forall (in_service cfg (tr ++ l)) h.
Proof.
  apply Forall_impl. intros e H p E. apply served_at_mono. auto.
Qed.

Lemma in_service_other tr e :
  (forall p, event e <> Timeout (KServer p)) -> in_service cfg tr e.
Proof. intros H p E. destruct (H p E). Qed.

Lemma lenQ_nonzero {A} (l : list A) x :
  Qeq_bool (lenQ (l ++ [x])) 0 = true -> False.
Proof.
  unfold lenQ. rewrite lenQ_snoc. intros H. apply Qeq_bool_iff in H.
  assert (0 <= inject_Z (Z.of_nat (length l)))%Q.
  { change 0%Q with (inject_Z 0). rewrite <- Zle_Qle. lia. }
  lra.
Qed.

Lemma service_invariant s : reachable stdexp cfg s -> service_ok cfg s.
Proof.
  revert s. apply reachable_invariant.
  - intros s0 H. apply start_inv in H. destruct H as [_ ->].
    split; [|split]; cbn; [|intros ? ? []|reflexivity].
    repeat constructor; apply in_service_other; discriminate.
  - intros s s' _ (IH1 & IH2 & IH3) H. unfold service_ok.
    step_cases H;
      try match goal with
          | K : Qeq_bool (lenQ (_ ++ [_])) 0 = true |- _ =>
              destruct (lenQ_nonzero _ _ K)
          end;
      apply (Permutation_Forall (heappop_perm _ _ _ Hpop)) in IH1;
      apply Forall_cons_iff in IH1; destruct IH1 as [IH0 IH1];
      (split;
       [ rewrite ?Forall_app; repeat split;
         try (repeat apply in_service_mono; assumption);
         try (repeat constructor; apply in_service_other; discriminate)
       | split;
         [ try assumption;
           try (intros p' t' Hin;
                repeat (apply in_app_or in Hin; destruct Hin as [Hin|Hin]);
                [ repeat apply served_at_mono; auto
                | cbn in Hin; destruct Hin as [Hin|[]];
                  try discriminate Hin .. ])
         | try assumption;
           try (unfold processed_times in *; rewrite ?flat_map_app;
                cbn [flat_map app]; rewrite ?app_nil_r; congruence) ] ]).
    + inversion Hin; subst. apply served_at_mono, IH0. reflexivity.
    + inversion Hin; subst. apply served_at_mono, IH0. reflexivity.
    + repeat constructor. intros p' E. cbn in E. inversion E; subst.
      exists t. split; [apply in_or_app; right; left; reflexivity|].
      cbn. unfold service_time. reflexivity.
Qed.

End ServerProcess.

(** C6.  The server takes the packets in the order of their admission: the
    packets admitted so far are, in this order, the packets taken so far,
    then the packet being handed over, then the content of the queue; so
    the n-th packet that begins service is the n-th packet admitted,
    whatever the arrival times are. *)
Theorem fifo_service stdexp cfg s :
  reachable stdexp cfg s ->
  admitted_of (trace s) = taken_of (trace s) ++ in_handover s ++ items s /\
  forall n p,
    nth_error (taken_of (trace s)) n = Some p ->
    nth_error (admitted_of (trace s)) n = Some p.
Proof.
  intros R. pose proof (fifo_invariant stdexp cfg s R) as F. unfold fifo in F.
  split; [exact F|]. intros n p H. rewrite F.
  rewrite nth_error_app1; [exact H|].
  apply nth_error_Some. congruence.
Qed.

Lemma fifo_service_witness :
  let s := state_after two_arrivals cfg_short 13 in
  taken_of (trace s) = [mkPacket 1 250 0; mkPacket 2 100 (1#2)] /\
  (admitted_of (trace s) = taken_of (trace s) ++ in_handover s ++ items s /\
   forall n p,
     nth_error (taken_of (trace s)) n = Some p ->
     nth_error (admitted_of (trace s)) n = Some p).
Proof.
  split; [vm_compute; reflexivity|].
  apply (fifo_service two_arrivals cfg_short).
  apply state_after_reachable. vm_compute. reflexivity.
Defined.

(** C7.  A packet that the server takes at time [t1] is in service for
    [size*8/SERVER_RATE]: its completion event is scheduled at
    [t1 + size*8/SERVER_RATE], and this is the time at which it is
    processed and which [recorder] appends to [packet_times].  With a rate
    of 1000 and one packet of 125 bytes arriving at time 0 at an idle
    system the service time is 1 and the recorded completion time is 1. *)
Theorem service_duration :
  (forall stdexp cfg s,
     reachable stdexp cfg s ->
     (forall e p, In e (heap s) -> event e = Timeout (KServer p) ->
        exists t1, In (Taken p t1) (trace s) /\
                   (at_time e == t1 + service_time cfg p)%Q) /\
     (forall p t, In (Processed p t) (trace s) ->
        exists t1, In (Taken p t1) (trace s) /\
                   (t == t1 + service_time cfg p)%Q) /\
     packet_times s = processed_times (trace s)) /\
  (let p := mkPacket 1 125 0 in
   let s := state_after one_arrival cfg_one 30 in
   running one_arrival cfg_one 30 = true /\
   (service_time cfg_one p == 1)%Q /\
   admitted_of (trace s) = [p] /\
   In (Taken p 0) (trace s) /\
   Forall2 Qeq (packet_times s) [1%Q] /\
   Forall2 Qeq (queue_times s) [1%Q]).
Proof.
  split.
  - intros stdexp cfg s R.
    destruct (service_invariant stdexp cfg s R) as (H1 & H2 & H3).
    split; [|split; assumption].
    intros e p He Ev. rewrite Forall_forall in H1. exact (H1 e He p Ev).
  - cbv zeta. split; [vm_compute; reflexivity|].
    split; [vm_compute; reflexivity|].
    split; [vm_compute; reflexivity|].
    split; [vm_compute; auto|].
    split; vm_compute; repeat constructor.
Qed.

Lemma service_duration_witness :
  let s := state_after two_arrivals cfg_short 14 in
  (forall e p, In e (heap s) -> event e = Timeout (KServer p) ->
     exists t1, In (Taken p t1) (trace s) /\
                (at_time e == t1 + service_time cfg_short p)%Q) /\
  (forall p t, In (Processed p t) (trace s) ->
     exists t1, In (Taken p t1) (trace s) /\
                (t == t1 + service_time cfg_short p)%Q) /\
  packet_times s = processed_times (trace s).
Proof.
  apply (proj1 service_duration two_arrivals cfg_short).
  apply state_after_reachable. vm_compute. reflexivity.
Defined.

(** ** Counters *)

(** C4.  At every point of the run [packets_rec] is the sum of
    [packets_queue] and [packets_drop]: a call of [toQueue] increments
    [packets_rec] once and exactly one of the other two. *)
Theorem received_is_admitted_plus_dropped stdexp cfg s :
  reachable stdexp cfg s ->
  packets_rec s = packets_queue s + packets_drop s /\
  forall p, let s' := snd (toQueue cfg p s) in
    packets_rec s' = packets_rec s + 1 /\
    ((packets_queue s' = packets_queue s + 1 /\ packets_drop s' = packets_drop s) \/
     (packets_queue s' = packets_queue s /\ packets_drop s' = packets_drop s + 1)).
Proof.
  intros R. split; [eapply balanced_invariant; eauto|].
  intros p. destruct (toQueue_cases cfg p s) as [_ H]. cbn zeta in *.
  unfold dropped_by, admitted_by in H. intuition lia.
Qed.

Lemma received_is_admitted_plus_dropped_witness :
  let s := state_after two_arrivals cfg_count1 9 in
  packets_rec s = packets_queue s + packets_drop s /\
  forall p, let s' := snd (toQueue cfg_count1 p s) in
    packets_rec s' = packets_rec s + 1 /\
    ((packets_queue s' = packets_queue s + 1 /\ packets_drop s' = packets_drop s) \/
     (packets_queue s' = packets_queue s /\ packets_drop s' = packets_drop s + 1)).
Proof.
  apply (received_is_admitted_plus_dropped two_arrivals cfg_count1).
  apply state_after_reachable. vm_compute. reflexivity.
Defined.

(** ** Determinism *)

(** *** Any schedule gives the same run

    [heapq] keeps the pending events in an array whose layout depends on
    the history of pushes and pops; what [heappop] returns is a least
    entry.  The relation [Pops] lets the scheduler pop any least entry.
    The event ids are pairwise distinct, so the order of the keys (time,
    priority, eid) is total on the pending entries and the least one is
    unique: every run of such a scheduler shows what [run] computes. *)

Lemma set_heap_eta s : set_heap (heap s) s = s.
Proof. destruct s. reflexivity. Qed.

Lemma appends_ret {A} (a : A) : appends (ret a).
Proof. intros h s. cbn. rewrite app_nil_r. reflexivity. Qed.

Lemma appends_raise {A} e : appends (@raise A e).
Proof. intros h s. cbn. rewrite app_nil_r. reflexivity. Qed.

Lemma appends_bind {A B} (c : M A) (k : A -> M B) :
  appends c -> (forall a, appends (k a)) -> appends (bind c k).
Proof.
  intros Hc Hk h s. unfold bind. rewrite (Hc h s).
  destruct (c (set_heap [] s)) as [[e|a] s1] eqn:E; cbn [fst snd].
  - reflexivity.
  - pose proof (Hk a (h ++ heap s1) s1) as K1.
    pose proof (Hk a (heap s1) s1) as K2. rewrite set_heap_eta in K2.
    rewrite K1, K2.
    destruct (k a (set_heap [] s1)) as [r s2]; cbn [fst snd].
    unfold set_heap; cbn. rewrite app_assoc. reflexivity.
Qed.

Lemma appends_gets {A} (f : State -> A) :
  (forall h s, f (set_heap h s) = f s) -> appends (gets f).
Proof.
  intros Hf h s. unfold gets. cbn. rewrite !Hf, app_nil_r. reflexivity.
Qed.

Lemma appends_modify (f : State -> State) : appendsT f -> appends (modify f).
Proof. intros Hf h s. unfold modify. cbn [fst snd]. rewrite (Hf h s). reflexivity. Qed.

(** A computation that reads the state outside the heap first. *)
Lemma appends_read {A B} (f : State -> A) (c : A -> M B) :
  (forall h s, f (set_heap h s) = f s) -> (forall a, appends (c a)) ->
  appends (fun s => c (f s) s).
Proof.
  intros Hf Hc h s. cbv beta. rewrite !Hf. apply Hc.
Qed.

Lemma appends_truediv a b : appends (truediv a b).
Proof.
  unfold truediv. destruct (Qeq_bool b 0); [apply appends_raise|apply appends_ret].
Qed.

Lemma appendsT_field (f : State -> State) :
  (forall h s, f (set_heap h s) = set_heap h (f s)) -> appendsT f.
Proof.
  intros Hf h s. rewrite !Hf. cbn. rewrite app_nil_r. reflexivity.
Qed.

Section Appends.

Variable stdexp : Z -> nat -> Q.
Variable cfg : Config.

Lemma appendsT_schedule ev pr d : appendsT (schedule ev pr d).
Proof. intros h s. reflexivity. Qed.

Lemma appendsT_trigger_get : appendsT trigger_get.
Proof.
  intros h s. unfold trigger_get. cbn.
  destruct (get_queue s); [cbn; rewrite app_nil_r; reflexivity|].
  destruct (items s); [cbn; rewrite app_nil_r; reflexivity|].
  reflexivity.
Qed.

Ltac app_step :=
  first
    [ apply appends_ret | apply appends_raise | apply appends_truediv
    | apply appends_bind; [|intros ?]
    | apply appends_gets; intros; reflexivity
    | apply appends_modify; first
        [ apply appendsT_schedule
        | apply appendsT_field; intros; reflexivity ]
    | apply (appends_read (fun s => queue_times s));
        [intros; reflexivity|intros ?]
    | apply (appends_read (fun s => queue_sizes s));
        [intros; reflexivity|intros ?] ].

Lemma appends_timeout d k : appends (timeout d k).
Proof. unfold timeout. destruct (Qlt_le_dec d 0); repeat app_step. Qed.

Lemma appends_observe o : appends (observe o).
Proof. unfold observe. repeat app_step. Qed.

Lemma appends_queue_put p : appends (queue_put p).
Proof. unfold queue_put. apply appends_modify. intros h s. reflexivity. Qed.

Lemma appends_queue_get : appends queue_get.
Proof.
  unfold queue_get. apply appends_modify. intros h s.
  change (set_get_queue (S (get_queue (set_heap h s))) (set_heap h s))
    with (set_heap h (set_get_queue (S (get_queue s)) s)).
  rewrite appendsT_trigger_get. reflexivity.
Qed.

Lemma appends_expovariate l : appends (expovariate stdexp cfg l).
Proof. unfold expovariate. repeat app_step. Qed.

Lemma appends_toQueue p : appends (toQueue cfg p).
Proof.
  unfold toQueue. repeat app_step.
  destruct (LIMIT_BYTES cfg && _); [repeat app_step; apply appends_observe|].
  destruct (negb (LIMIT_BYTES cfg) && _);
    repeat app_step; try apply appends_observe.
  apply appends_queue_put.
Qed.

Lemma appends_recorder p : appends (recorder p).
Proof.
  unfold recorder. repeat app_step.
  apply (appends_read queue_times (fun qt => truediv (sumQ qt) (lenQ qt)));
    [intros; reflexivity|intros ?; apply appends_truediv].
Qed.

Lemma appends_generator_loop i : appends (generator_loop stdexp cfg i).
Proof.
  unfold generator_loop. destruct (i <? NUMBER_PACKETS cfg);
    repeat first [apply appends_expovariate | apply appends_timeout | app_step].
Qed.

Lemma appends_generator_resume i : appends (generator_resume stdexp cfg i).
Proof.
  unfold generator_resume.
  repeat first [apply appends_expovariate | apply appends_toQueue
               | apply appends_generator_loop | app_step].
Qed.

Lemma appends_server_loop : appends server_loop.
Proof. unfold server_loop. repeat first [apply appends_queue_get | app_step]. Qed.

Lemma appends_server_take p : appends (server_take cfg p).
Proof.
  unfold server_take.
  repeat first [apply appends_observe | apply appends_timeout | app_step].
Qed.

Lemma appends_server_done p : appends (server_done p).
Proof.
  unfold server_done.
  repeat first [apply appends_recorder | apply appends_observe
               | apply appends_server_loop | app_step].
Qed.

Lemma appends_monitor_loop : appends (monitor_loop cfg).
Proof. unfold monitor_loop. repeat first [apply appends_timeout | app_step]. Qed.

Lemma appends_monitor_resume : appends (monitor_resume cfg).
Proof.
  unfold monitor_resume.
  repeat first
    [ apply appends_monitor_loop
    | apply (appends_read queue_sizes
               (fun qs => truediv (inject_Z (sumZ qs)) (lenQ qs)));
        [intros; reflexivity|intros ?; apply appends_truediv]
    | app_step ].
Qed.

Lemma appendsT_resume p body : appends body -> appendsT (resume p body).
Proof.
  intros Hb h s. unfold resume. rewrite (Hb h s).
  destruct (body (set_heap [] s)) as [[e|[]] s1]; cbn [fst snd].
  - unfold schedule, set_heap, set_next_eid; cbn. rewrite app_assoc. reflexivity.
  - unfold set_heap; cbn. reflexivity.
  - unfold schedule, set_heap, set_next_eid; cbn. rewrite app_assoc. reflexivity.
Qed.

End Appends.

Lemma same_refl s : same s s.
Proof. exists (heap s). split; [reflexivity|]. symmetry. apply set_heap_eta. Qed.

Lemma appendsT_same f s s' : appendsT f -> same s s' -> same (f s) (f s').
Proof.
  intros Hf (h & P & ->).
  assert (K : f s' = set_heap (heap s' ++ heap (f (set_heap [] s')))
                       (f (set_heap [] s')))
    by (rewrite <- (Hf (heap s') s'), set_heap_eta; reflexivity).
  exists (h ++ heap (f (set_heap [] s'))). split.
  - rewrite K. cbn. apply Permutation_app_tail. exact P.
  - rewrite (Hf h s'), K. reflexivity.
Qed.

Lemma dispatch_same stdexp cfg ev s s' :
  same s s' ->
  same_outcome (dispatch stdexp cfg ev s) (dispatch stdexp cfg ev s').
Proof.
  intros H. unfold same_outcome.
  destruct ev as [[]|[]| | |p [x|]|]; cbn [dispatch verdict state_of];
    (split; [reflexivity|]); try exact H;
    apply appendsT_same; try exact H;
    try (apply appendsT_resume).
  - apply appends_generator_loop.
  - apply appends_server_loop.
  - apply appends_monitor_loop.
  - apply appends_generator_resume.
  - apply appends_server_done.
  - apply appends_monitor_resume.
  - apply appendsT_trigger_get.
  - apply appends_server_take.
Qed.

(** With fresh ids the order of the keys is total: a bag has one least
    entry. *)
Lemma key_total a b :
  key_ltb a b = false -> key_ltb b a = false -> eid a = eid b.
Proof.
  unfold key_ltb. intros H1 H2.
  destruct (at_time a ?= at_time b)%Q eqn:C; try discriminate.
  - apply Qeq_alt in C.
    assert (C' : (at_time b ?= at_time a)%Q = Eq)
      by (apply Qeq_alt; symmetry; exact C).
    rewrite C' in H2.
    destruct (priority a <? priority b)%nat eqn:P1; [discriminate|].
    destruct (priority b <? priority a)%nat eqn:P2; [discriminate|].
    apply Nat.ltb_ge in H1, H2. lia.
  - apply Qgt_alt in C.
    assert (C' : (at_time b ?= at_time a)%Q = Lt) by (apply Qlt_alt; exact C).
    rewrite C' in H2. discriminate.
Qed.

Lemma eid_inj h a b :
  NoDup (map eid h) -> In a h -> In b h -> eid a = eid b -> a = b.
Proof.
  induction h as [|x h IH]; cbn [map In]; intros N Ha Hb E; [destruct Ha|].
  apply NoDup_cons_iff in N. destruct N as [N1 N2].
  destruct Ha as [<-|Ha], Hb as [<-|Hb]; auto.
  - exfalso. apply N1. rewrite E. apply in_map. exact Hb.
  - exfalso. apply N1. rewrite <- E. apply in_map. exact Ha.
Qed.

Lemma least_heappop h h' n e rest e' rest' :
  fresh_ok h' n -> Permutation h h' ->
  least h e rest -> heappop h' = Some (e', rest') ->
  e = e' /\ Permutation rest rest'.
Proof.
  intros [N _] P [P1 L1] Hpop.
  pose proof (heappop_perm _ _ _ Hpop) as P2.
  assert (E : e = e').
  { assert (He : In e h')
      by (eapply Permutation_in; [exact P|];
          eapply Permutation_in; [symmetry; exact P1|left; reflexivity]).
    assert (He' : In e' h')
      by (eapply Permutation_in; [symmetry; exact P2|left; reflexivity]).
    apply (eid_inj h' _ _ N He He').
    destruct (proj1 (heappop_In _ _ _ e Hpop) He) as [->|Hr]; [reflexivity|].
    pose proof (heappop_min _ _ _ _ Hpop Hr) as K1.
    assert (Hr' : In e' (e :: rest))
      by (eapply Permutation_in; [exact P1|];
          eapply Permutation_in; [symmetry; exact P|exact He']).
    destruct Hr' as [<-|Hr']; [reflexivity|].
    rewrite Forall_forall in L1. specialize (L1 e' Hr').
    apply key_total; assumption. }
  split; [exact E|]. subst e'.
  apply (Permutation_cons_inv (a := e)).
  rewrite <- P1, <- P2. exact P.
Qed.

Lemma heappop_least h e rest : heappop h = Some (e, rest) -> least h e rest.
Proof.
  intros Hpop. split; [apply heappop_perm; exact Hpop|].
  apply Forall_forall. intros x Hx. eapply heappop_min; eauto.
Qed.

Lemma fresh_ok_snoc h n e :
  fresh_ok h n -> eid e = n -> fresh_ok (h ++ [e]) (S n).
Proof.
  intros [N F] E. split.
  - rewrite map_app. cbn [map]. apply NoDup_app_remove_l with (l := []).
    cbn. apply Permutation_NoDup with (l := eid e :: map eid h).
    + apply Permutation_cons_append.
    + constructor; [|exact N]. intros Hin. apply in_map_iff in Hin.
      destruct Hin as (x & Ex & Hx). rewrite Forall_forall in F.
      specialize (F x Hx). lia.
  - apply Forall_app. split.
    + eapply Forall_impl; [|exact F]. intros a Ha. cbv beta in Ha |- *. lia.
    + constructor; [cbv beta; lia|constructor].
Qed.

Lemma fresh_ok_pop h n e rest :
  heappop h = Some (e, rest) -> fresh_ok h n -> fresh_ok rest n.
Proof.
  intros Hpop [N F]. pose proof (heappop_perm _ _ _ Hpop) as P. split.
  - apply (Permutation_map eid) in P.
    apply (Permutation_NoDup P) in N. cbn in N.
    apply NoDup_cons_iff in N. tauto.
  - apply (Permutation_Forall P) in F. apply Forall_cons_iff in F. tauto.
Qed.

Section Confluence.

Variable stdexp : Z -> nat -> Q.
Variable cfg : Config.

Lemma fresh_invariant s :
  reachable stdexp cfg s -> fresh_ok (heap s) (next_eid s).
Proof.
  revert s. apply reachable_invariant.
  - intros s0 H. apply start_inv in H. destruct H as [_ ->]. cbn. split.
    + repeat constructor; cbn; intuition lia.
    + repeat constructor.
  - intros s s' R IH H.
    step_cases H; pose proof (fresh_ok_pop _ _ _ _ Hpop IH) as K;
      repeat (apply fresh_ok_snoc; [|reflexivity]); exact K.
Qed.

Lemma pops_step s s' o :
  reachable stdexp cfg s' -> same s s' -> Pops stdexp cfg s o ->
  same_outcome o (step stdexp cfg s').
Proof.
  intros R (h & P & ->) Hp. pose proof (fresh_invariant s' R) as F.
  unfold step. inversion Hp as [s1 E|s1 e rest L]; subst.
  - cbn [heap set_heap] in E. subst h. apply Permutation_nil in P.
    rewrite P. cbn [heappop]. split; [reflexivity|]. cbn [state_of].
    exists []. split; [rewrite P; constructor|reflexivity].
  - cbn [heap set_heap] in L.
    destruct (heappop (heap s')) as [[e' rest']|] eqn:Hpop.
    + destruct (least_heappop _ _ _ _ _ _ _ F P L Hpop) as [<- Pr].
      apply dispatch_same. exists rest. split; [exact Pr|reflexivity].
    + apply heappop_None in Hpop. rewrite Hpop in P.
      destruct L as [L _]. rewrite P in L.
      apply Permutation_nil in L. discriminate L.
Qed.

Lemma runs_run n s o :
  Runs stdexp cfg n s o ->
  forall s', reachable stdexp cfg s' -> same s s' ->
  same_outcome o (run stdexp cfg n s').
Proof.
  induction 1 as [s|n s s1 o Hp Hr IH|n s o Hp Hn]; intros s' R Hs; cbn [run].
  - split; [reflexivity|exact Hs].
  - destruct (pops_step s s' _ R Hs Hp) as [V S1].
    destruct (step stdexp cfg s') as [s1'| | |] eqn:E; try discriminate V.
    apply IH; [eapply reach_step; eauto|exact S1].
  - pose proof (pops_step s s' _ R Hs Hp) as [V S1].
    destruct (step stdexp cfg s') as [s1'| | |] eqn:E;
      try (split; assumption).
    destruct o; try discriminate V. destruct (Hn _ eq_refl).
Qed.

(** The run of [env.run] is one of the runs of such a scheduler. *)
Lemma run_runs n : forall s, Runs stdexp cfg n s (run stdexp cfg n s).
Proof.
  induction n as [|n IH]; intros s; cbn [run]; [constructor|].
  assert (P : Pops stdexp cfg s (step stdexp cfg s)).
  { unfold step. destruct (heappop (heap s)) as [[e rest]|] eqn:Hpop.
    - apply pops_least. apply heappop_least. exact Hpop.
    - apply pops_none. apply heappop_None. exact Hpop. }
  destruct (step stdexp cfg s) as [s1| | |] eqn:E.
  - eapply runs_on; [exact P|apply IH].
  - apply runs_end; [exact P|discriminate].
  - apply runs_end; [exact P|discriminate].
  - apply runs_end; [exact P|discriminate].
Qed.

Lemma simulate_simulates fuel :
  Simulates stdexp cfg fuel (simulate stdexp cfg fuel).
Proof.
  unfold simulate. destruct (start cfg) as [e|s0] eqn:E0.
  - apply sim_raise. exact E0.
  - eapply sim_run; [exact E0|apply run_runs].
Qed.

Lemma same_observed o o' :
  same_outcome o o' -> observed (inr o) = observed (inr o').
Proof.
  intros [V (h & _ & E)]. cbn [observed]. rewrite V, E. reflexivity.
Qed.

Lemma simulates_observed fuel r :
  Simulates stdexp cfg fuel r -> observed r = observed (simulate stdexp cfg fuel).
Proof.
  intros H. unfold simulate. destruct H as [e E0|s0 o E0 Hr]; rewrite E0.
  - reflexivity.
  - apply same_observed. eapply runs_run; [exact Hr| |apply same_refl].
    apply reach_start. exact E0.
Qed.

End Confluence.

(** ** The run up to the horizon *)

Section Live.

Variable stdexp : Z -> nat -> Q.
Variable cfg : Config.

Lemma live_reachable s : live stdexp cfg s -> reachable stdexp cfg s.
Proof. induction 1; [apply reach_start; auto | eapply reach_step; eauto]. Qed.

Lemma live_invariant (P : State -> Prop) :
  (forall s0, start cfg = inr s0 -> P s0) ->
  (forall s s', live stdexp cfg s -> P s ->
     step stdexp cfg s = Continue s' -> P s') ->
  forall s, live stdexp cfg s -> P s.
Proof. intros H0 HS s L. induction L; eauto. Qed.

End Live.

Lemma period_pos x : (0 < x)%Q -> (0 < 1 / x)%Q.
Proof.
  intros H. unfold Qdiv. rewrite Qmult_1_l. apply Qinv_lt_0_compat. exact H.
Qed.

Lemma service_nonneg z r : 0 <= z -> (0 < r)%Q -> (0 <= inject_Z z * 8 / r)%Q.
Proof.
  intros Hz Hr. unfold Qdiv. apply Qmult_le_0_compat.
  - apply Qmult_le_0_compat; [|lra].
    change 0%Q with (inject_Z 0). rewrite <- Zle_Qle. exact Hz.
  - apply Qlt_le_weak, Qinv_lt_0_compat. exact Hr.
Qed.

(** The branch at hand raised an exception: refute it. *)
Ltac no_exn :=
  exfalso; props;
  repeat match goal with
    | H : (1 / _ == 0)%Q |- _ =>
        apply Qeq_bool_iff, Qeq_bool_inv_zero in H
    end;
  try lra;
  match goal with
  | q : (?x / (1 / ?m) < 0)%Q |- _ =>
      assert (0 <= x / (1 / m))%Q by (apply expo_nonneg; auto); lra
  | q : (1 / ?x < 0)%Q |- _ =>
      assert (0 < 1 / x)%Q by (apply period_pos; auto); lra
  | q : (inject_Z ?z * 8 / ?r < 0)%Q |- _ =>
      assert (0 <= inject_Z z * 8 / r)%Q
        by (apply service_nonneg; [lia|auto]); lra
  | K : lenQ (_ ++ [_]) == 0 |- _ =>
      apply Qeq_bool_iff, lenQ_nonzero in K; exact K
  end.

(** An event of normal priority that is popped while the stop event is
    pending is due before the horizon. *)
Lemma popped_before_horizon cfg h e rest :
  heappop h = Some (e, rest) ->
  In (until_entry cfg) h ->
  event e <> Until ->
  priority e = NORMAL ->
  (at_time e < horizon cfg)%Q.
Proof.
  intros Hpop Hin Hev Hpr.
  apply (heappop_In _ _ _ _ Hpop) in Hin. destruct Hin as [E|Hin].
  - subst e. destruct Hev. reflexivity.
  - pose proof (heappop_min _ _ _ _ Hpop Hin) as K.
    destruct (Qlt_le_dec (at_time e) (horizon cfg)) as [L|L]; [exact L|].
    exfalso. assert (K' : key_lt (until_entry cfg) e).
    { unfold key_lt. cbn [until_entry at_time priority eid].
      destruct (Qle_lt_or_eq _ _ L) as [L'|L']; [left; exact L'|].
      right. split; [exact L'|]. left. rewrite Hpr. unfold URGENT, NORMAL. lia. }
    apply key_ltb_spec in K'. congruence.
Qed.

Lemma horizon_eq cfg : (horizon cfg == SIMULATION_TIME cfg)%Q.
Proof. unfold horizon. ring. Qed.

Section Horizon.

Variable stdexp : Z -> nat -> Q.
Variable cfg : Config.

Lemma until_invariant s :
  live stdexp cfg s ->
  In (until_entry cfg) (heap s) /\ Forall (until_ok cfg) (heap s).
Proof.
  revert s. apply live_invariant.
  - intros s0 H. apply start_inv in H. destruct H as [_ ->]. cbn. split.
    + do 3 right. left. reflexivity.
    + apply Forall_forall.
      intros e [<-|[<-|[<-|[<-|[]]]]] E; try discriminate E.
      split; reflexivity.
  - intros s s' _ [IH1 IH2] H.
    live_cases H;
      apply (heappop_In _ _ _ (until_entry cfg) Hpop) in IH1;
      (destruct IH1 as [IH1|IH1]; [discriminate IH1|]);
      apply (Permutation_Forall (heappop_perm _ _ _ Hpop)) in IH2;
      apply Forall_cons_iff in IH2; destruct IH2 as [_ IH2];
      (split; [ repeat (apply in_or_app; left); assumption
              | rewrite ?Forall_app; repeat split; try assumption;
                repeat (apply Forall_cons; [intros E; discriminate E|]);
                try apply Forall_nil ]).
Qed.

Lemma sample_lengths s :
  reachable stdexp cfg s ->
  length (byte_sizes s) = length (samp_time s) /\
  length (queue_sizes s) = length (samp_time s) /\
  length (queue_avg_sizes s) = length (samp_time s).
Proof.
  revert s. apply reachable_invariant.
  - intros s0 H. apply start_inv in H. destruct H as [_ ->]. cbn. auto.
  - intros s s' _ (I1 & I2 & I3) H.
    step_cases H; rewrite ?length_app; cbn [length]; auto;
      try match goal with
          | K : Qeq_bool (lenQ (_ ++ [_])) 0 = true |- _ =>
              destruct (lenQ_nonzero _ _ K)
          end; lia.
Qed.

End Horizon.

(** ** Virtual time *)

Lemma heappop_rest_later h e rest :
  heappop h = Some (e, rest) -> Forall (fun x => (at_time e <= at_time x)%Q) rest.
Proof.
  intros Hpop. apply Forall_forall. intros x Hx.
  pose proof (heappop_min _ _ _ _ Hpop Hx) as K.
  destruct (Qlt_le_dec (at_time x) (at_time e)) as [L|L]; [|exact L].
  exfalso. assert (K' : key_lt x e) by (left; exact L).
  apply key_ltb_spec in K'. congruence.
Qed.

Lemma sorted_snoc l x :
  StronglySorted Qle l -> Forall (fun t => (t <= x)%Q) l -> StronglySorted Qle (l ++ [x]).
Proof.
  induction 1 as [|a l Hs IH Ha]; intros Hx; cbn.
  - repeat constructor.
  - apply Forall_cons_iff in Hx. destruct Hx as [Hax Hx].
    constructor; [apply IH; exact Hx|].
    apply Forall_app. split; [exact Ha|repeat constructor; exact Hax].
Qed.

Lemma Forall_le_trans l x y :
  (x <= y)%Q -> Forall (fun t => (t <= x)%Q) l -> Forall (fun t => (t <= y)%Q) l.
Proof. intros H. apply Forall_impl. intros a Ha. lra. Qed.

Lemma popped_le_horizon cfg h e rest :
  heappop h = Some (e, rest) -> In (until_entry cfg) h ->
  (at_time e <= horizon cfg)%Q.
Proof.
  intros Hpop Hin.
  apply (heappop_In _ _ _ _ Hpop) in Hin. destruct Hin as [E|Hin].
  - subst e. cbn. lra.
  - pose proof (heappop_rest_later _ _ _ Hpop) as K.
    rewrite Forall_forall in K. exact (K _ Hin).
Qed.

Section Clock.

Variable stdexp : Z -> nat -> Q.
Variable cfg : Config.

Lemma clock_invariant s : reachable stdexp cfg s -> clock_ok s.
Proof.
  revert s. apply reachable_invariant.
  - intros s0 H. apply start_inv in H. destruct H as [Hpos ->]. unfold clock_ok. cbn.
    repeat constructor; cbn; lra.
  - intros s s' _ IH H. unfold clock_ok in *.
    step_cases H;
      pose proof (heappop_rest_later _ _ _ Hpop) as Hl; cbn [at_time] in Hl;
      rewrite ?Forall_app; repeat split; try assumption;
      repeat constructor; cbn [at_time]; lra.
Qed.

Lemma clock_monotone s s' :
  reachable stdexp cfg s ->
  step stdexp cfg s = Continue s' \/ step stdexp cfg s = Finished s' ->
  (now s <= now s')%Q.
Proof.
  intros R H. pose proof (clock_invariant s R) as C. unfold clock_ok in C.
  step_cases H;
    apply (Permutation_Forall (heappop_perm _ _ _ Hpop)) in C;
    apply Forall_cons_iff in C; destruct C as [C _]; exact C.
Qed.

Lemma normal_invariant s : reachable stdexp cfg s -> Forall normal_ok (heap s).
Proof.
  revert s. apply reachable_invariant.
  - intros s0 H. apply start_inv in H. destruct H as [Hpos ->]. cbn.
    repeat constructor.
  - intros s s' _ IH H.
    step_cases H;
      apply (Permutation_Forall (heappop_perm _ _ _ Hpop)) in IH;
      apply Forall_cons_iff in IH; destruct IH as [_ IH];
      rewrite ?Forall_app; repeat split; try assumption;
      repeat constructor.
Qed.
Lemma visited_invariant (P : State -> Prop) :
  (forall s0, start cfg = inr s0 -> P s0) ->
  (forall s s', live stdexp cfg s -> P s ->
     step stdexp cfg s = Continue s' \/ step stdexp cfg s = Finished s' -> P s') ->
  forall s, visited stdexp cfg s -> P s.
Proof.
  intros H0 HS.
  assert (HL : forall s, live stdexp cfg s -> P s).
  { intros s L. induction L; eauto. }
  intros s [L|(s0 & L & F)]; eauto.
Qed.

Lemma live_run n : forall s s',
  live stdexp cfg s -> run stdexp cfg n s = Continue s' -> live stdexp cfg s'.
Proof.
  induction n as [|n IH]; cbn [run]; intros s s' L H.
  - inversion H; subst; exact L.
  - destruct (step stdexp cfg s) eqn:E; try discriminate.
    eapply IH; [|exact H]. eapply live_step; eauto.
Qed.

Lemma visited_run n : forall s s',
  live stdexp cfg s -> run stdexp cfg n s = Finished s' -> visited stdexp cfg s'.
Proof.
  induction n as [|n IH]; cbn [run]; intros s s' L H; [discriminate|].
  destruct (step stdexp cfg s) eqn:E; try discriminate.
  - eapply IH; [|exact H]. eapply live_step; eauto.
  - inversion H; subst. right. eauto.
Qed.

Lemma state_after_visited n :
  running stdexp cfg n = true -> visited stdexp cfg (state_after stdexp cfg n).
Proof.
  unfold running, state_after.
  destruct (start cfg) as [|s0] eqn:E0; [discriminate|].
  destruct (run stdexp cfg n s0) eqn:E; try discriminate; intros _; cbn.
  - left. eapply live_run; [apply live_start; exact E0|exact E].
  - eapply visited_run; [apply live_start; exact E0|exact E].
Qed.

Lemma stamps_sorted_invariant s : reachable stdexp cfg s -> stamps_sorted s.
Proof.
  revert s. apply reachable_invariant.
  - intros s0 H. apply start_inv in H. destruct H as [Hpos ->]. unfold stamps_sorted. cbn.
    repeat split; constructor.
  - intros s s' R (I1 & I2 & I3 & I4) H. unfold stamps_sorted.
    pose proof (clock_monotone s s' R H) as C.
    step_cases H; fields_in C;
      repeat split; try assumption;
      try (eapply Forall_le_trans; [exact C|assumption]);
      try (apply sorted_snoc;
           [assumption|eapply Forall_le_trans; [exact C|assumption]]);
      try (apply Forall_app; split;
           [eapply Forall_le_trans; [exact C|assumption]|repeat constructor; lra]).
Qed.

Lemma stamps_invariant s : visited stdexp cfg s -> stamps_ok cfg s /\ (now s <= horizon cfg)%Q.
Proof.
  revert s. apply visited_invariant.
  - intros s0 H. apply start_inv in H. destruct H as [Hpos ->]. unfold stamps_ok. cbn.
    repeat split; try constructor. unfold horizon. lra.
  - intros s s' L [[I1 I2] I3] H. unfold stamps_ok.
    destruct (until_invariant stdexp cfg s L) as [U1 U2].
    pose proof (normal_invariant s (live_reachable _ _ _ L)) as N.
    step_cases H;
      apply (Permutation_Forall (heappop_perm _ _ _ Hpop)) in N, U2;
      apply Forall_cons_iff in N, U2; destruct N as [N _]; destruct U2 as [U2 _];
      cbn in N;
      try (assert (Ht : (t < horizon cfg)%Q)
             by (apply (popped_before_horizon cfg _ _ _ Hpop U1); [discriminate|exact N]));
      (split; [split|]); try assumption; try lra;
      try (apply Forall_app; split; [assumption|repeat constructor; exact Ht]);
      exact (popped_le_horizon cfg _ _ _ Hpop U1).
Qed.
Lemma held_invariant s : reachable stdexp cfg s -> held_ok s.
Proof.
  revert s. apply reachable_invariant.
  - intros s0 H. apply start_inv in H. destruct H as [Hpos ->].
    unfold held_ok. cbn. split; [constructor|].
    repeat (constructor; [intros p E; discriminate E|]); constructor.
  - intros s s' R (H1 & H2) H. unfold held_ok.
    pose proof (clock_monotone s s' R H) as C.
    step_cases H; fields_in C;
      apply (Permutation_Forall (heappop_perm _ _ _ Hpop)) in H2;
      apply Forall_cons_iff in H2; destruct H2 as [H2a H2];
      cbn [event at_time] in H2a;
      try (apply Forall_cons_iff in H1; destruct H1 as [H1a H1]);
      (split;
       [ rewrite ?Forall_app; repeat split;
         try (eapply Forall_impl; [|eassumption]; cbn beta; intros; lra);
         try (repeat constructor; cbn [time]; lra)
       | rewrite ?Forall_app; repeat split; try assumption;
         repeat (apply Forall_cons;
                 [intros ? E; try discriminate E; cbn [event at_time] in *|]);
         try apply Forall_nil ]).
    all: inversion E; subst; lra.
Qed.

Lemma taken_invariant s : reachable stdexp cfg s -> taken_ok (trace s).
Proof.
  revert s. apply reachable_invariant.
  - intros s0 H. apply start_inv in H. destruct H as [Hpos ->]. intros ? ? [].
  - intros s s' R T H. unfold taken_ok in *.
    destruct (held_invariant s R) as [_ H2].
    step_cases H; try assumption;
      apply (Permutation_Forall (heappop_perm _ _ _ Hpop)) in H2;
      apply Forall_cons_iff in H2; destruct H2 as [H2a H2];
      cbn [event at_time] in H2a;
      intros p' t' Hin;
      repeat (apply in_app_or in Hin; destruct Hin as [Hin|Hin]);
      try (apply (T _ _ Hin));
      cbn in Hin; destruct Hin as [Hin|[]]; try discriminate Hin;
      inversion Hin; subst; apply H2a; reflexivity.
Qed.

Lemma service_pos_invariant s : reachable stdexp cfg s -> service_pos cfg s.
Proof.
  revert s. apply reachable_invariant.
  - intros s0 H. apply start_inv in H. destruct H as [Hpos ->].
    unfold service_pos. cbn. split; [|intros ? ? []].
    repeat (constructor; [intros p E; discriminate E|]); constructor.
  - intros s s' R (S1 & S2) H. unfold service_pos.
    step_cases H;
      apply (Permutation_Forall (heappop_perm _ _ _ Hpop)) in S1;
      apply Forall_cons_iff in S1; destruct S1 as [S1a S1];
      cbn [event at_time] in S1a;
      (split;
       [ rewrite ?Forall_app; repeat split; try assumption;
         repeat (apply Forall_cons;
                 [intros ? E; try discriminate E; cbn [event] in *|]);
         try apply Forall_nil
       | try assumption;
         try (intros p' t' Hin;
              repeat (apply in_app_or in Hin; destruct Hin as [Hin|Hin]);
              try (apply (S2 _ _ Hin));
              cbn in Hin; destruct Hin as [Hin|[]]; try discriminate Hin;
              inversion Hin; subst; apply S1a; reflexivity) ]).
    all: inversion E; subst; unfold service_time; assumption.
Qed.

Lemma delays_invariant s :
  reachable stdexp cfg s -> queue_times s = map delay (processed_of (trace s)).
Proof.
  revert s. apply reachable_invariant.
  - intros s0 H. apply start_inv in H. destruct H as [Hpos ->]. reflexivity.
  - intros s s' R D H. unfold processed_of in *.
    step_cases H; rewrite ?flat_map_app, ?map_app; cbn [flat_map map app];
      rewrite ?app_nil_r; try assumption;
      try match goal with
          | K : Qeq_bool (lenQ (_ ++ [_])) 0 = true |- _ =>
              destruct (lenQ_nonzero _ _ K)
          end;
      rewrite D; reflexivity.
Qed.
End Clock.

(** X1.  The virtual clock never goes back: a step leaves [env.now] at
    least where it was, and no pending event is due in the past. *)
Theorem virtual_clock_monotone stdexp cfg s s' :
  reachable stdexp cfg s ->
  step stdexp cfg s = Continue s' \/ step stdexp cfg s = Finished s' ->
  (now s <= now s')%Q /\
  Forall (fun e => (now s' <= at_time e)%Q) (heap s').
Proof.
  intros R H. split; [eapply clock_monotone; eauto|].
  apply (clock_invariant stdexp cfg).
  destruct H as [H|H]; [eapply reach_step|eapply reach_stop]; eauto.
Qed.

Lemma virtual_clock_monotone_witness :
  let s := state_after two_arrivals cfg_short 6 in
  let s' := state_after two_arrivals cfg_short 7 in
  (now s <= now s')%Q /\
  Forall (fun e => (now s' <= at_time e)%Q) (heap s').
Proof.
  apply (virtual_clock_monotone two_arrivals cfg_short).
  - apply state_after_reachable. vm_compute. reflexivity.
  - left. vm_compute. reflexivity.
Defined.

(** X2.  The run is cut at the horizon: [env.now] never exceeds
    [SIMULATION_TIME], and every recorded completion time and sample time
    lies strictly before it (what is due at the horizon itself is not
    recorded, the stop event being urgent). *)
Theorem horizon_cutoff stdexp cfg s :
  visited stdexp cfg s ->
  (now s <= SIMULATION_TIME cfg)%Q /\
  Forall (fun t => (t < SIMULATION_TIME cfg)%Q) (packet_times s) /\
  Forall (fun t => (t < SIMULATION_TIME cfg)%Q) (samp_time s).
Proof.
  intros V. destruct (stamps_invariant stdexp cfg s V) as [[S1 S2] N].
  pose proof (horizon_eq cfg) as E.
  split; [lra|].
  split; (eapply Forall_impl; [|eassumption]); cbn beta; intros; lra.
Qed.

Lemma horizon_cutoff_witness :
  let s := state_after two_arrivals cfg_short 14 in
  (now s <= SIMULATION_TIME cfg_short)%Q /\
  Forall (fun t => (t < SIMULATION_TIME cfg_short)%Q) (packet_times s) /\
  Forall (fun t => (t < SIMULATION_TIME cfg_short)%Q) (samp_time s).
Proof.
  apply (horizon_cutoff two_arrivals cfg_short).
  apply state_after_visited. vm_compute. reflexivity.
Defined.

(** X3.  The completion times in [packet_times] and the sample times in
    [samp_time] are recorded in non-decreasing order. *)
Theorem timestamps_sorted stdexp cfg s :
  reachable stdexp cfg s ->
  StronglySorted Qle (packet_times s) /\ StronglySorted Qle (samp_time s).
Proof.
  intros R. destruct (stamps_sorted_invariant stdexp cfg s R) as (A & _ & B & _).
  split; assumption.
Qed.

Lemma timestamps_sorted_witness :
  let s := state_after two_arrivals cfg_short 14 in
  StronglySorted Qle (packet_times s) /\ StronglySorted Qle (samp_time s).
Proof.
  apply (timestamps_sorted two_arrivals cfg_short).
  apply state_after_reachable. vm_compute. reflexivity.
Defined.

Lemma processed_of_In tr p t :
  In (p, t) (processed_of tr) <-> In (Processed p t) tr.
Proof.
  unfold processed_of. rewrite in_flat_map. split.
  - intros (o & Ho & Hin). destruct o; cbn in Hin; try (destruct Hin; fail).
    destruct Hin as [Hin|[]]. inversion Hin; subst. exact Ho.
  - intros H. exists (Processed p t). split; [exact H|left; reflexivity].
Qed.

(** X4.  [queue_times] holds, for each processed packet in processing
    order, the completion time minus the packet's creation time; and no
    packet is processed before it was created, so that no entry is the
    difference of a smaller and a larger time. *)
Theorem queueing_delays stdexp cfg s :
  reachable stdexp cfg s ->
  queue_times s = map delay (processed_of (trace s)) /\
  forall p t, In (p, t) (processed_of (trace s)) -> (time p <= t)%Q.
Proof.
  intros R. split; [apply (delays_invariant stdexp cfg s R)|].
  intros p t Hin. apply processed_of_In in Hin.
  destruct (service_pos_invariant stdexp cfg s R) as [_ S2].
  destruct (service_invariant stdexp cfg s R) as (_ & K & _).
  pose proof (taken_invariant stdexp cfg s R) as T.
  pose proof (S2 p t Hin) as P.
  destruct (K p t Hin) as (t1 & Ht1 & E). specialize (T p t1 Ht1). lra.
Qed.

Lemma queueing_delays_witness :
  let s := state_after two_arrivals cfg_short 14 in
  queue_times s = map delay (processed_of (trace s)) /\
  forall p t, In (p, t) (processed_of (trace s)) -> (time p <= t)%Q.
Proof.
  apply (queueing_delays two_arrivals cfg_short).
  apply state_after_reachable. vm_compute. reflexivity.
Defined.

(** ** Counters and series *)

Lemma running_means_snoc {A} (mean : list A -> Q) l x :
  running_means mean (l ++ [x]) = running_means mean l ++ [mean (l ++ [x])].
Proof.
  unfold running_means. rewrite length_app. cbn [length].
  rewrite seq_app, map_app. cbn [seq map]. f_equal.
  - apply map_ext_in. intros k Hk. apply in_seq in Hk.
    rewrite firstn_app. replace (k - length l)%nat with 0%nat by lia.
    cbn [firstn]. rewrite app_nil_r. reflexivity.
  - f_equal. f_equal. replace (1 + length l)%nat with (length (l ++ [x])).
    + apply firstn_all.
    + rewrite length_app. cbn. lia.
Qed.

Lemma in_system_split l :
  sum_of in_system l =
  Z.of_nat (length (flat_map serving_of l)) +
  Z.of_nat (length (flat_map handed_over l)).
Proof.
  induction l as [|e l IH]; cbn [flat_map sum_of length]; [lia|].
  rewrite !length_app, IH.
  assert (in_system e =
          Z.of_nat (length (serving_of e)) + Z.of_nat (length (handed_over e)))
    by (unfold in_system, serving_of, handed_over;
        destruct (event e) as [[]|[]| | | |]; reflexivity).
  lia.
Qed.

Section Records.

Variable stdexp : Z -> nat -> Q.
Variable cfg : Config.

Lemma counted_invariant s : reachable stdexp cfg s -> counted s.
Proof.
  revert s. apply reachable_invariant.
  - intros s0 H. apply start_inv in H. destruct H as [Hpos ->]. repeat split.
  - intros s s' R (C1 & C2 & C3 & C4) H.
    unfold counted, admitted_of, dropped_of, processed_of in *.
    step_cases H;
      try match goal with
          | K : Qeq_bool (lenQ (_ ++ [_])) 0 = true |- _ =>
              destruct (lenQ_nonzero _ _ K)
          end;
      rewrite ?flat_map_app, ?length_app, ?sum_of_app;
      cbn [flat_map app length sum_of fst]; repeat split; lia.
Qed.

Lemma in_system_nonneg l : 0 <= sum_of in_system l.
Proof.
  apply sum_of_nonneg, Forall_forall. intros e _. unfold in_system.
  destruct (event e) as [[]|[]| | | |]; lia.
Qed.

Lemma completed_le_invariant s :
  reachable stdexp cfg s ->
  packets_recorded s + sum_of in_system (heap s) + Z.of_nat (length (items s))
  <= packets_queue s.
Proof.
  revert s. apply reachable_invariant.
  - intros s0 H. apply start_inv in H. destruct H as [Hpos ->]. cbn. lia.
  - intros s s' R IH H.
    step_cases H; rewrite (heappop_sum in_system _ _ _ Hpop) in IH;
      rewrite ?sum_of_app, ?length_app;
      cbn [sum_of in_system event length] in *; lia.
Qed.

Lemma conservation_invariant s :
  (0 < SERVER_RATE cfg)%Q -> (0 < SIZE_PACKET cfg)%Q ->
  (forall n, (0 <= stdexp (RANDOM_SEED cfg) n)%Q) ->
  reachable stdexp cfg s ->
  packets_queue s =
  packets_recorded s + sum_of in_system (heap s) + Z.of_nat (length (items s)).
Proof.
  intros Vr Vs Vd. revert s. apply reachable_invariant.
  - intros s0 H. apply start_inv in H. destruct H as [Hpos ->]. cbn. lia.
  - intros s s' R IH H.
    destruct (nonneg_sizes_invariant stdexp cfg s Vs Vd R) as [N1 N2].
    step_cases H; rewrite (heappop_sum in_system _ _ _ Hpop) in IH;
      apply (Permutation_Forall (heappop_perm _ _ _ Hpop)) in N2;
      apply Forall_cons_iff in N2; destruct N2 as [N0 N2]; cbn in N0;
      rewrite ?sum_of_app, ?length_app;
      cbn [sum_of in_system event length] in *; try lia; no_exn.
Qed.

Lemma recorder_lengths s :
  reachable stdexp cfg s ->
  length (packet_times s) = length (queue_times s) /\
  length (queue_avg_times s) = length (queue_times s) /\
  packets_recorded s = Z.of_nat (length (queue_times s)).
Proof.
  revert s. apply reachable_invariant.
  - intros s0 H. apply start_inv in H. destruct H as [_ ->]. cbn. auto.
  - intros s s' _ (I1 & I2 & I3) H.
    step_cases H; rewrite ?length_app; cbn [length]; auto;
      try match goal with
          | K : Qeq_bool (lenQ (_ ++ [_])) 0 = true |- _ =>
              destruct (lenQ_nonzero _ _ K)
          end; repeat split; lia.
Qed.
Lemma averages_invariant s :
  reachable stdexp cfg s ->
  queue_avg_times s = running_means meanQ (queue_times s) /\
  queue_avg_sizes s = running_means meanZ (queue_sizes s).
Proof.
  revert s. apply reachable_invariant.
  - intros s0 H. apply start_inv in H. destruct H as [_ ->]. cbn. auto.
  - intros s s' _ (I1 & I2) H.
    step_cases H; rewrite ?running_means_snoc; auto;
      try match goal with
          | K : Qeq_bool (lenQ (_ ++ [_])) 0 = true |- _ =>
              destruct (lenQ_nonzero _ _ K)
          end;
      split; try assumption; unfold meanQ, meanZ;
      rewrite ?I1, ?I2; reflexivity.
Qed.

Lemma serving_length l :
  Z.of_nat (length (flat_map serving_of l)) <= sum_of srv_tok l.
Proof.
  induction l as [|e l IH]; cbn [flat_map sum_of length]; [lia|].
  rewrite length_app. unfold serving_of at 1, srv_tok at 1.
  destruct (event e) as [[]|[]| | | |]; cbn [length]; lia.
Qed.

Lemma heappop_serving h e rest :
  heappop h = Some (e, rest) -> sum_of srv_tok h <= 1 ->
  flat_map serving_of h = serving_of e ++ flat_map serving_of rest.
Proof.
  intros Hpop T. apply perm_short.
  - apply heappop_perm in Hpop.
    apply (Permutation_flat_map serving_of) in Hpop. exact Hpop.
  - pose proof (serving_length h). lia.
Qed.

Lemma no_serving l : sum_of srv_tok l <= 0 -> flat_map serving_of l = [].
Proof.
  intros H. pose proof (serving_length l).
  destruct (flat_map serving_of l); [reflexivity|cbn in *; lia].
Qed.

Lemma single_server_invariant s :
  (0 < SERVER_RATE cfg)%Q -> (0 < SIZE_PACKET cfg)%Q ->
  (forall n, (0 <= stdexp (RANDOM_SEED cfg) n)%Q) ->
  reachable stdexp cfg s ->
  taken_of (trace s) = map fst (processed_of (trace s)) ++ serving s.
Proof.
  intros Vr Vs Vd. revert s. apply reachable_invariant.
  - intros s0 H. apply start_inv in H. destruct H as [_ ->]. reflexivity.
  - intros s s' R IH H.
    destruct (nonneg_sizes_invariant stdexp cfg s Vs Vd R) as [N1 N2].
    pose proof (server_tokens_invariant stdexp cfg s R) as T.
    unfold serving, server_tokens, taken_of, processed_of in *.
    pose proof (srv_tok_nonneg (heap s)) as N.
    assert (T' : sum_of srv_tok (heap s) <= 1) by lia.
    step_cases H; rewrite (heappop_serving _ _ _ Hpop T') in IH;
      rewrite (heappop_sum srv_tok _ _ _ Hpop) in T;
      apply (Permutation_Forall (heappop_perm _ _ _ Hpop)) in N2;
      apply Forall_cons_iff in N2; destruct N2 as [N0 N2]; cbn in N0;
      pose proof (srv_tok_nonneg rest);
      try match goal with
          | K : Qeq_bool (lenQ (_ ++ [_])) 0 = true |- _ =>
              destruct (lenQ_nonzero _ _ K)
          end;
      cbn [srv_tok serving_of event app] in *;
      rewrite ?flat_map_app, ?map_app;
      cbn [flat_map serving_of event app map fst] in *;
      try (rewrite (no_serving rest) in * by lia);
      rewrite ?app_nil_r in *; rewrite <- ?app_assoc in *; cbn [app] in *;
      try congruence;
      try (rewrite IH, <- ?app_assoc; reflexivity).
    all: no_exn.
Qed.
End Records.

(** X5.  The counters count what the script says they count:
    [packets_queue] the packets put into the queue, [packets_drop] the
    packets rejected, [packets_recorded] the packets the server has
    processed (one "Processed packet" line each), and [bytes_recorded] the
    sum of the sizes of the processed packets. *)
Theorem counters_count_events stdexp cfg s :
  reachable stdexp cfg s ->
  packets_queue s = Z.of_nat (length (admitted_of (trace s))) /\
  packets_drop s = Z.of_nat (length (dropped_of (trace s))) /\
  packets_recorded s = Z.of_nat (length (processed_of (trace s))) /\
  bytes_recorded s = sum_of (fun pt => size (fst pt)) (processed_of (trace s)).
Proof. intros R. exact (counted_invariant stdexp cfg s R). Qed.

Lemma counters_count_events_witness :
  let s := state_after two_arrivals cfg_short 14 in
  bytes_recorded s = 250 /\
  (packets_queue s = Z.of_nat (length (admitted_of (trace s))) /\
   packets_drop s = Z.of_nat (length (dropped_of (trace s))) /\
   packets_recorded s = Z.of_nat (length (processed_of (trace s))) /\
   bytes_recorded s = sum_of (fun pt => size (fst pt)) (processed_of (trace s))).
Proof.
  split; [vm_compute; reflexivity|].
  apply (counters_count_events two_arrivals cfg_short).
  apply state_after_reachable. vm_compute. reflexivity.
Defined.

(** X6.  Packets are conserved.  The packets processed, in service, being
    handed over or waiting in the queue never outnumber those put into the
    queue, so [packets_recorded <= packets_queue]; and when no service can
    raise (positive rate and mean size, non-negative draws) every packet
    put into the queue is in exactly one of these four places. *)
Theorem packet_conservation stdexp cfg s :
  reachable stdexp cfg s ->
  packets_recorded s <= packets_queue s /\
  packets_recorded s + Z.of_nat (length (serving s)) +
    Z.of_nat (length (in_handover s)) + Z.of_nat (length (items s))
    <= packets_queue s /\
  ((0 < SERVER_RATE cfg)%Q -> (0 < SIZE_PACKET cfg)%Q ->
   (forall n, (0 <= stdexp (RANDOM_SEED cfg) n)%Q) ->
   packets_queue s =
   packets_recorded s + Z.of_nat (length (serving s)) +
     Z.of_nat (length (in_handover s)) + Z.of_nat (length (items s))).
Proof.
  intros R. pose proof (completed_le_invariant stdexp cfg s R) as L.
  rewrite in_system_split in L. fold (serving s) (in_handover s) in L.
  split; [lia|]. split; [lia|].
  intros Vr Vs Vd.
  pose proof (conservation_invariant stdexp cfg s Vr Vs Vd R) as E.
  rewrite in_system_split in E. fold (serving s) (in_handover s) in E. lia.
Qed.

Lemma packet_conservation_witness :
  let s := state_after two_arrivals cfg_short 10 in
  packets_recorded s <= packets_queue s /\
  packets_recorded s + Z.of_nat (length (serving s)) +
    Z.of_nat (length (in_handover s)) + Z.of_nat (length (items s))
    <= packets_queue s /\
  ((0 < SERVER_RATE cfg_short)%Q -> (0 < SIZE_PACKET cfg_short)%Q ->
   (forall n, (0 <= two_arrivals (RANDOM_SEED cfg_short) n)%Q) ->
   packets_queue s =
   packets_recorded s + Z.of_nat (length (serving s)) +
     Z.of_nat (length (in_handover s)) + Z.of_nat (length (items s))).
Proof.
  apply (packet_conservation two_arrivals cfg_short).
  apply state_after_reachable. vm_compute. reflexivity.
Defined.

(** X7.  Every series gets one entry per record: [recorder] keeps
    [queue_times], [packet_times] and [queue_avg_times] at the length
    [packets_recorded], and [monitor] keeps [samp_time], [queue_sizes],
    [byte_sizes] and [queue_avg_sizes] at one common length (the plots
    pair them as x and y). *)
Theorem series_lengths stdexp cfg s :
  reachable stdexp cfg s ->
  (length (packet_times s) = length (queue_times s) /\
   length (queue_avg_times s) = length (queue_times s) /\
   packets_recorded s = Z.of_nat (length (queue_times s))) /\
  (length (byte_sizes s) = length (samp_time s) /\
   length (queue_sizes s) = length (samp_time s) /\
   length (queue_avg_sizes s) = length (samp_time s)).
Proof.
  intros R. split.
  - exact (recorder_lengths stdexp cfg s R).
  - exact (sample_lengths stdexp cfg s R).
Qed.

Lemma series_lengths_witness :
  let s := state_after two_arrivals cfg_short 14 in
  (length (packet_times s) = length (queue_times s) /\
   length (queue_avg_times s) = length (queue_times s) /\
   packets_recorded s = Z.of_nat (length (queue_times s))) /\
  (length (byte_sizes s) = length (samp_time s) /\
   length (queue_sizes s) = length (samp_time s) /\
   length (queue_avg_sizes s) = length (samp_time s)).
Proof.
  apply (series_lengths two_arrivals cfg_short).
  apply state_after_reachable. vm_compute. reflexivity.
Defined.

(** X8.  The running averages are what their names say: the k-th entry of
    [queue_avg_times] is the mean of the first k entries of [queue_times],
    and the k-th entry of [queue_avg_sizes] the mean of the first k
    entries of [queue_sizes]. *)
Theorem running_averages stdexp cfg s :
  reachable stdexp cfg s ->
  queue_avg_times s = running_means meanQ (queue_times s) /\
  queue_avg_sizes s = running_means meanZ (queue_sizes s).
Proof. intros R. exact (averages_invariant stdexp cfg s R). Qed.

Lemma running_averages_witness :
  let s := state_after two_arrivals cfg_short 14 in
  queue_avg_sizes s = [1; 1 # 2]%Q /\
  (queue_avg_times s = running_means meanQ (queue_times s) /\
   queue_avg_sizes s = running_means meanZ (queue_sizes s)).
Proof.
  split; [vm_compute; reflexivity|].
  apply (running_averages two_arrivals cfg_short).
  apply state_after_reachable. vm_compute. reflexivity.
Defined.

(** X9.  One server: when no service can raise, the packets taken by the
    server are the processed ones, in the same order, followed by the one
    in service, and at most one packet is in service. *)
Theorem single_server stdexp cfg s :
  (0 < SERVER_RATE cfg)%Q -> (0 < SIZE_PACKET cfg)%Q ->
  (forall n, (0 <= stdexp (RANDOM_SEED cfg) n)%Q) ->
  reachable stdexp cfg s ->
  taken_of (trace s) = map fst (processed_of (trace s)) ++ serving s /\
  (length (serving s) <= 1)%nat.
Proof.
  intros Vr Vs Vd R.
  split; [exact (single_server_invariant stdexp cfg s Vr Vs Vd R)|].
  pose proof (server_tokens_invariant stdexp cfg s R) as T.
  pose proof (serving_length (heap s)) as L.
  unfold server_tokens in T. unfold serving. lia.
Qed.

Lemma single_server_witness :
  let s := state_after two_arrivals cfg_short 13 in
  serving s = [mkPacket 2 100 (1#2)] /\
  (taken_of (trace s) = map fst (processed_of (trace s)) ++ serving s /\
   (length (serving s) <= 1)%nat).
Proof.
  split; [vm_compute; reflexivity|].
  apply (single_server two_arrivals cfg_short).
  - reflexivity.
  - reflexivity.
  - intros n. unfold two_arrivals, draws.
    do 4 (destruct n as [|n]; [vm_compute; discriminate|]).
    destruct n; vm_compute; discriminate.
  - apply state_after_reachable. vm_compute. reflexivity.
Defined.

(** ** The generator *)

Lemma gen_tok_nonneg l : 0 <= sum_of gen_tok l.
Proof.
  apply sum_of_nonneg, Forall_forall. intros e _. unfold gen_tok.
  destruct (event e) as [[]|[]| | | |]; lia.
Qed.

Lemma no_generator cfg a b c l :
  sum_of gen_tok l <= 0 -> Forall (gen_ok cfg a b c) l.
Proof.
  induction l as [|e l IH]; cbn [sum_of]; intros H; [constructor|].
  pose proof (gen_tok_nonneg l).
  assert (0 <= gen_tok e)
    by (unfold gen_tok; destruct (event e) as [[]|[]| | | |]; lia).
  constructor; [|apply IH; lia].
  unfold gen_ok, gen_tok in *.
  destruct (event e) as [[]|[]| | | |]; try exact I; lia.
Qed.

Lemma offered_snoc stdexp cfg l p :
  offered_ok stdexp cfg l ->
  id p = Z.of_nat (S (length l)) ->
  size p = size_of_draw cfg (stdexp (RANDOM_SEED cfg) (2 * length l + 1)%nat) ->
  offered_ok stdexp cfg (l ++ [p]).
Proof.
  intros H E1 E2 i x Hi.
  destruct (Nat.lt_ge_cases i (length l)) as [Lt|Ge].
  - rewrite nth_error_app1 in Hi by exact Lt. apply H. exact Hi.
  - rewrite nth_error_app2 in Hi by exact Ge.
    destruct (i - length l)%nat as [|k] eqn:D; cbn in Hi.
    + inversion Hi; subst x. assert (i = length l) by lia. subst i. auto.
    + destruct k; discriminate Hi.
Qed.

Lemma offered_of_snoc tr o :
  offered_of (tr ++ [o]) =
  offered_of tr ++ match o with Enqueued p | Dropped p => [p] | _ => [] end.
Proof.
  unfold offered_of. rewrite flat_map_app. cbn [flat_map].
  rewrite app_nil_r. reflexivity.
Qed.

Section Arrivals.

Variable stdexp : Z -> nat -> Q.
Variable cfg : Config.

Lemma generated_invariant s : reachable stdexp cfg s -> generated stdexp cfg s.
Proof.
  revert s. apply reachable_invariant.
  - intros s0 H. apply start_inv in H. destruct H as [_ ->].
    unfold generated. split; [vm_compute; discriminate|]. split.
    + repeat (apply Forall_cons; [cbn; auto|]); try apply Forall_nil.
    + split; [reflexivity|]. split; [cbn; lia|].
      intros i t Hi. destruct i; discriminate Hi.
  - intros s s' R (I1 & I2 & I3 & I4 & I5) H. unfold generated.
    step_cases H.
    all: rewrite (heappop_sum gen_tok _ _ _ Hpop) in I1;
      cbn [sum_of gen_tok event] in I1;
      apply (Permutation_Forall (heappop_perm _ _ _ Hpop)) in I2;
      apply Forall_cons_iff in I2; destruct I2 as [I0 I2];
      unfold gen_ok in I0; cbn [event at_time] in I0.
    all: (split; [rewrite ?sum_of_app; cbn [sum_of gen_tok event]; lia|]).
    all: rewrite ?offered_of_snoc; cbn [app]; rewrite ?app_nil_r.
    all: (split;
      [ rewrite ?Forall_app; repeat split;
        [ first [apply no_generator; lia | exact I2] | ..];
        repeat (apply Forall_cons; [unfold gen_ok; cbn [event at_time]|]);
        try apply Forall_nil; try exact I
      | ]).
    all: try (destruct I0 as (G1 & G2 & G3 & G4));
         try (destruct I0 as (G1 & G2 & G3)); props.
    all: try (split; [rewrite ?length_app; cbn [length]; lia|];
              split; [lia|];
              first
                [ exact I5
                | apply offered_snoc; [exact I5|cbn [id]; lia|];
                  cbn [size]; unfold size_of_draw;
                  replace (rng s)
                    with (2 * length (offered_of (trace s)) + 1)%nat
                    by lia; reflexivity ]).
    all: repeat split; lia.
Qed.

(** In byte mode an admission leaves the byte count below the limit. *)
Lemma byte_bound_invariant s :
  LIMIT_BYTES cfg = true ->
  (0 < QUEUE_LIMIT cfg)%Q ->
  (0 < SIZE_PACKET cfg)%Q ->
  (forall n, (0 <= stdexp (RANDOM_SEED cfg) n)%Q) ->
  reachable stdexp cfg s ->
  (inject_Z (byte_size s) < QUEUE_LIMIT cfg)%Q.
Proof.
  intros Hmode Hlim Vs Vd. revert s. apply reachable_invariant.
  - intros s0 H. apply start_inv in H. destruct H as [_ ->].
    cbn. change (inject_Z 0) with 0%Q. exact Hlim.
  - intros s s' R IH H.
    destruct (nonneg_sizes_invariant stdexp cfg s Vs Vd R) as [N1 N2].
    step_cases H;
      apply (Permutation_Forall (heappop_perm _ _ _ Hpop)) in N2;
      apply Forall_cons_iff in N2; destruct N2 as [N0 N2]; cbn in N0;
      rewrite ?Hmode in *; cbn [negb andb] in *; props;
      try exact IH; try congruence.
    all: try (eapply Qle_lt_trans; [|exact IH]; rewrite <- Zle_Qle; lia).
Qed.

Lemma sent_rec_invariant s :
  reachable stdexp cfg s ->
  packets_sent s = packets_rec s \/
  (packets_sent s = packets_rec s + 1 /\ gen_failed s).
Proof.
  revert s. apply reachable_invariant.
  - intros s0 H. apply start_inv in H. destruct H as [_ ->]. left. reflexivity.
  - intros s s' R J H.
    destruct (generated_invariant s R) as (_ & G2 & _).
    unfold gen_failed in *.
    step_cases H.
    all: apply (Permutation_Forall (heappop_perm _ _ _ Hpop)) in G2;
         apply Forall_cons_iff in G2; destruct G2 as [G0 _];
         unfold gen_ok in G0; cbn [event at_time] in G0.
    all: try (left; lia).
    all: try (right; split; [lia|];
              eexists; eexists; split;
              [apply in_or_app; right; left; reflexivity|reflexivity]).
    all: destruct J as [J|[J (e & x & He & Ee)]]; [left; exact J|right];
         (split; [exact J|]);
         apply (proj1 (heappop_In _ _ _ _ Hpop)) in He;
         destruct He as [->|He]; [discriminate Ee|];
         exists e, x; split; [rewrite ?in_app_iff; auto|exact Ee].
Qed.

End Arrivals.

(** Packets put into the queue are among those offered, in the same order. *)
Lemma admitted_sorted tr :
  StronglySorted Z.lt (map id (offered_of tr)) ->
  StronglySorted Z.lt (map id (admitted_of tr)).
Proof.
  assert (F : forall P tr, Forall P (map id (offered_of tr)) ->
                           Forall P (map id (admitted_of tr))).
  { intros P. induction tr0 as [|o tr0 IH]; intros H; [constructor|].
    unfold offered_of, admitted_of in *. cbn [flat_map] in *.
    destruct o; cbn [app map] in *; auto;
      apply Forall_cons_iff in H; destruct H; auto. }
  induction tr as [|o tr IH]; intros H; [constructor|].
  unfold offered_of, admitted_of in *. cbn [flat_map] in *.
  destruct o; cbn [app map] in *; auto;
    apply StronglySorted_inv in H; destruct H as [H1 H2]; auto.
  constructor; [auto|]. apply F. exact H2.
Qed.

Lemma sorted_prefix {A} (R : A -> A -> Prop) l1 l2 :
  StronglySorted R (l1 ++ l2) -> StronglySorted R l1.
Proof.
  induction l1 as [|a l1 IH]; cbn [app]; intros H; [constructor|].
  apply StronglySorted_inv in H. destruct H as [H1 H2].
  constructor; [auto|]. apply Forall_app in H2. tauto.
Qed.

Lemma seq_sorted n : forall a,
  StronglySorted Z.lt (map Z.of_nat (seq a n)).
Proof.
  induction n as [|n IH]; intros a; cbn [seq map]; constructor; [apply IH|].
  apply Forall_forall. intros x Hx. apply in_map_iff in Hx.
  destruct Hx as (k & <- & Hk). apply in_seq in Hk. lia.
Qed.

Lemma offered_ids stdexp cfg l :
  offered_ok stdexp cfg l -> map id l = map Z.of_nat (seq 1 (length l)).
Proof.
  intros H. apply nth_error_ext. intros k.
  rewrite !nth_error_map.
  destruct (nth_error l k) as [p|] eqn:E.
  - destruct (H k p E) as (E1 & _).
    assert (Hk : (k < length l)%nat) by (apply nth_error_Some; congruence).
    rewrite (nth_error_nth' _ 0%nat) by (rewrite length_seq; exact Hk).
    rewrite seq_nth by exact Hk. cbn [option_map]. rewrite E1. reflexivity.
  - apply nth_error_None in E.
    assert (K : nth_error (seq 1 (length l)) k = None)
      by (apply nth_error_None; rewrite length_seq; exact E).
    rewrite K. reflexivity.
Qed.

(** *** The draws that a run reads

    The generator is the only reader of the random stream, and it reads
    two draws for each packet: two streams that agree on the first
    [2 * NUMBER_PACKETS] draws give the same run. *)

Lemma toQueue_rng cfg p s : rng (snd (toQueue cfg p s)) = rng s.
Proof.
  unfold toQueue, bind, modify, gets, observe, queue_put. cbn [fst snd].
  destruct (LIMIT_BYTES cfg && _); [reflexivity|].
  destruct (negb (LIMIT_BYTES cfg) && _); reflexivity.
Qed.

Section SameDraws.

Variables prng1 prng2 : Z -> nat -> Q.
Variable cfg : Config.
Hypothesis same_draws :
  forall n, Z.of_nat n < 2 * NUMBER_PACKETS cfg ->
    prng1 (RANDOM_SEED cfg) n = prng2 (RANDOM_SEED cfg) n.

Lemma expovariate_eq lambd s :
  Z.of_nat (rng s) < 2 * NUMBER_PACKETS cfg ->
  expovariate prng1 cfg lambd s = expovariate prng2 cfg lambd s.
Proof.
  intros H. unfold expovariate, bind, gets. rewrite (same_draws _ H). reflexivity.
Qed.

Lemma generator_loop_eq i s :
  (i < NUMBER_PACKETS cfg -> Z.of_nat (rng s) < 2 * NUMBER_PACKETS cfg) ->
  generator_loop prng1 cfg i s = generator_loop prng2 cfg i s.
Proof.
  intros H. unfold generator_loop.
  destruct (i <? NUMBER_PACKETS cfg) eqn:E; [|reflexivity].
  apply Z.ltb_lt in E. unfold bind.
  destruct (truediv 1 (TIME_ARRIVAL cfg) s) as [[e|l] s1] eqn:T; [reflexivity|].
  assert (s1 = s) by (unfold truediv in T; destruct (Qeq_bool _ _);
                      inversion T; reflexivity). subst s1.
  rewrite (expovariate_eq l s (H E)). reflexivity.
Qed.

Lemma generator_resume_eq i s :
  Z.of_nat (rng s) < 2 * NUMBER_PACKETS cfg ->
  (i + 1 < NUMBER_PACKETS cfg -> Z.of_nat (rng s) + 1 < 2 * NUMBER_PACKETS cfg) ->
  generator_resume prng1 cfg i s = generator_resume prng2 cfg i s.
Proof.
  intros H1 H2. unfold generator_resume, bind.
  destruct (modify _ s) as [[e|u] s1] eqn:M; [reflexivity|].
  assert (E1 : rng s1 = rng s) by (inversion M; reflexivity).
  destruct (gets packets_sent s1) as [[e|sent] s2] eqn:G; [reflexivity|].
  assert (E2 : rng s2 = rng s) by (inversion G; subst; exact E1).
  destruct (truediv 1 (SIZE_PACKET cfg) s2) as [[e|l] s3] eqn:T; [reflexivity|].
  assert (E3 : rng s3 = rng s)
    by (unfold truediv in T; destruct (Qeq_bool _ _); inversion T; subst;
        exact E2).
  rewrite (expovariate_eq l s3) by (rewrite E3; exact H1).
  destruct (expovariate prng2 cfg l s3) as [[e|x] s4] eqn:X; [reflexivity|].
  assert (E4 : rng s4 = S (rng s)).
  { unfold expovariate, bind, gets, modify, truediv in X. cbn [fst snd] in X.
    destruct (Qeq_bool l 0); inversion X; subst. cbn. exact (f_equal S E3). }
  destruct (gets now s4) as [[e|t] s5] eqn:N; [reflexivity|].
  assert (E5 : rng s5 = S (rng s)) by (inversion N; subst; exact E4).
  destruct (toQueue cfg _ s5) as [[e|u'] s6] eqn:TQ; [reflexivity|].
  apply generator_loop_eq. intros L.
  match type of TQ with
  | toQueue cfg ?p s5 = _ => pose proof (toQueue_rng cfg p s5) as K
  end.
  rewrite TQ in K. cbn [snd] in K. rewrite K, E5. specialize (H2 L). lia.
Qed.

Lemma step_eq s :
  reachable prng1 cfg s -> step prng1 cfg s = step prng2 cfg s.
Proof.
  intros R. destruct (generated_invariant prng1 cfg s R) as (_ & G2 & I3 & I4 & _).
  unfold step. destruct (heappop (heap s)) as [[e rest]|] eqn:Hpop; [|reflexivity].
  apply (Permutation_Forall (heappop_perm _ _ _ Hpop)) in G2.
  apply Forall_cons_iff in G2. destruct G2 as [G0 _]. unfold gen_ok in G0.
  destruct (event e) as [[]|[]| | | |]; cbn [dispatch]; try reflexivity;
    unfold resume.
  - destruct G0 as (_ & _ & G3).
    rewrite generator_loop_eq; [reflexivity|]. cbn [rng set_now set_heap].
    rewrite G3. intros L. lia.
  - destruct G0 as (G1 & _ & G3 & G4).
    rewrite generator_resume_eq; [reflexivity| |];
      cbn [rng set_now set_heap]; rewrite G4; lia.
Qed.

Lemma run_eq n : forall s,
  reachable prng1 cfg s -> run prng1 cfg n s = run prng2 cfg n s.
Proof.
  induction n as [|n IH]; intros s R; cbn [run]; [reflexivity|].
  rewrite <- (step_eq s R).
  destruct (step prng1 cfg s) as [s'| | |] eqn:E; try reflexivity.
  apply IH. eapply reach_step; eauto.
Qed.

End SameDraws.

(** C2.  Two runs whose configuration values are identical and whose
    random streams, seeded alike, deliver the same draws (as far as the
    generator reads them: two for each of the [NUMBER_PACKETS] packets)
    show the same after any number of steps: the same ending, the same
    counters, the same series, element for element; and this whatever
    least entry the scheduler pops at each step, the tie-break on the
    event id leaving it no choice. *)
Theorem determinism prng1 prng2 cfg1 cfg2 fuel r1 r2 :
  SERVER_RATE cfg1 = SERVER_RATE cfg2 ->
  TIME_ARRIVAL cfg1 = TIME_ARRIVAL cfg2 ->
  SIZE_PACKET cfg1 = SIZE_PACKET cfg2 ->
  RANDOM_SEED cfg1 = RANDOM_SEED cfg2 ->
  SIMULATION_TIME cfg1 = SIMULATION_TIME cfg2 ->
  NUMBER_PACKETS cfg1 = NUMBER_PACKETS cfg2 ->
  QUEUE_LIMIT cfg1 = QUEUE_LIMIT cfg2 ->
  LIMIT_BYTES cfg1 = LIMIT_BYTES cfg2 ->
  SAMPLING_INTERVALL cfg1 = SAMPLING_INTERVALL cfg2 ->
  (forall n, Z.of_nat n < 2 * NUMBER_PACKETS cfg1 ->
     prng1 (RANDOM_SEED cfg1) n = prng2 (RANDOM_SEED cfg2) n) ->
  Simulates prng1 cfg1 fuel r1 -> Simulates prng2 cfg2 fuel r2 ->
  observed r1 = observed r2.
Proof.
  intros H1 H2 H3 H4 H5 H6 H7 H8 H9 Hs S1 S2.
  assert (E : cfg1 = cfg2) by (destruct cfg1, cfg2; cbn in *; congruence).
  subst cfg2.
  rewrite (simulates_observed _ _ _ _ S1), (simulates_observed _ _ _ _ S2).
  unfold simulate. destruct (start cfg1) as [e|s0] eqn:E0; [reflexivity|].
  rewrite (run_eq prng1 prng2 cfg1 Hs fuel s0); [reflexivity|].
  apply reach_start. exact E0.
Qed.

Lemma determinism_witness :
  observed (simulate two_arrivals cfg_short 14) =
  observed (simulate two_arrivals_more cfg_short 14).
Proof.
  apply (determinism two_arrivals two_arrivals_more cfg_short cfg_short 14);
    try reflexivity.
  - intros n Hn. do 4 (destruct n as [|n]; [reflexivity|]).
    exfalso. cbn [NUMBER_PACKETS cfg_short] in Hn. lia.
  - apply simulate_simulates.
  - apply simulate_simulates.
Defined.

(** X11.  The generator numbers its packets 1, 2, 3, ... in the order in
    which it hands them to [toQueue]; [packets_rec] is their number; and
    never more than [NUMBER_PACKETS] packets are sent. *)
Theorem packet_numbering stdexp cfg s :
  reachable stdexp cfg s ->
  map id (offered_of (trace s)) =
    map Z.of_nat (seq 1 (length (offered_of (trace s)))) /\
  packets_rec s = Z.of_nat (length (offered_of (trace s))) /\
  packets_rec s <= packets_sent s <= Z.max 0 (NUMBER_PACKETS cfg).
Proof.
  intros R.
  destruct (generated_invariant stdexp cfg s R) as (_ & _ & G3 & G4 & G5).
  split; [eapply offered_ids; exact G5|]. split; assumption.
Qed.

Lemma packet_numbering_witness :
  let s := state_after two_arrivals cfg_short 14 in
  map id (offered_of (trace s)) = [1; 2] /\
  (map id (offered_of (trace s)) =
     map Z.of_nat (seq 1 (length (offered_of (trace s)))) /\
   packets_rec s = Z.of_nat (length (offered_of (trace s))) /\
   packets_rec s <= packets_sent s <= Z.max 0 (NUMBER_PACKETS cfg_short)).
Proof.
  split; [vm_compute; reflexivity|].
  apply (packet_numbering two_arrivals cfg_short).
  apply state_after_reachable. vm_compute. reflexivity.
Defined.

(** X12.  Each iteration of the generator makes two draws, first the
    inter-arrival time, then the size.  While the generator waits in
    iteration [i], [i] packets were sent and [2i+1] draws made; and the
    size of a packet is a function of one draw only, the draw number
    [2k-1] for the packet of id [k], the same function for all packets. *)
Theorem two_draws_per_packet stdexp cfg :
  exists f : Q -> Z, forall s,
    reachable stdexp cfg s ->
    (forall e i, In e (heap s) -> event e = Timeout (KGenerator i) ->
       i = packets_sent s /\ rng s = (2 * Z.to_nat i + 1)%nat) /\
    (forall k p, nth_error (offered_of (trace s)) k = Some p ->
       size p = f (stdexp (RANDOM_SEED cfg) (2 * k + 1)%nat)).
Proof.
  exists (size_of_draw cfg). intros s R.
  destruct (generated_invariant stdexp cfg s R) as (_ & G2 & _ & _ & G5).
  split.
  - intros e i He Ee. rewrite Forall_forall in G2. specialize (G2 e He).
    unfold gen_ok in G2. rewrite Ee in G2. tauto.
  - intros k p H. destruct (G5 k p H) as [_ E]. exact E.
Qed.

Lemma two_draws_per_packet_witness :
  exists f : Q -> Z,
    let s := state_after two_arrivals cfg_short 14 in
    map size (offered_of (trace s)) = [f (5#2); f 1]%Q.
Proof.
  destruct (two_draws_per_packet two_arrivals cfg_short) as [f H].
  exists f. cbv zeta.
  destruct (H (state_after two_arrivals cfg_short 14)) as [_ H2];
    [apply state_after_reachable; vm_compute; reflexivity|].
  pose proof (H2 0%nat (mkPacket 1 250 0)) as E1.
  pose proof (H2 1%nat (mkPacket 2 100 (1#2))) as E2.
  change (map size (offered_of (trace (state_after two_arrivals cfg_short 14))))
    with [size (mkPacket 1 250 0); size (mkPacket 2 100 (1#2))].
  rewrite E1, E2 by (vm_compute; reflexivity). reflexivity.
Defined.

(** C10 (as amended).  [packets_sent] equals [packets_rec] at every point
    of the run, except after an iteration of the generator whose size
    draw raised: [packets_sent] is incremented before the draw and
    [packets_rec] after it, so that [packets_sent] is then one more, the
    generator has failed, and its exception is pending for [env.run] to
    raise. *)
Theorem sent_equals_received stdexp cfg s :
  reachable stdexp cfg s ->
  packets_sent s = packets_rec s \/
  (packets_sent s = packets_rec s + 1 /\ gen_failed s).
Proof. intros R. exact (sent_rec_invariant stdexp cfg s R). Qed.

Lemma sent_equals_received_witness :
  let s := state_after two_arrivals cfg_count1 9 in
  packets_sent s = 2 /\
  (packets_sent s = packets_rec s \/
   (packets_sent s = packets_rec s + 1 /\ gen_failed s)).
Proof.
  split; [vm_compute; reflexivity|].
  apply (sent_equals_received two_arrivals cfg_count1).
  apply state_after_reachable. vm_compute. reflexivity.
Defined.

(** C10 as stated fails.  With a mean packet size of zero the first
    iteration of the generator increments [packets_sent] and then raises
    ZeroDivisionError in [1/SIZE_PACKET]: one packet is counted as sent,
    none as received, and the next step aborts the run. *)
Lemma sent_exceeds_received :
  let s := state_after two_arrivals cfg_size0 4 in
  reachable two_arrivals cfg_size0 s /\
  packets_sent s = 1 /\ packets_rec s = 0 /\
  packets_sent s <> packets_rec s /\
  exists s', simulate two_arrivals cfg_size0 5 =
             inr (Crashed ZeroDivisionError s').
Proof.
  cbv zeta.
  split; [apply state_after_reachable; vm_compute; reflexivity|].
  split; [vm_compute; reflexivity|].
  split; [vm_compute; reflexivity|].
  split; [vm_compute; discriminate|].
  eexists. vm_compute. reflexivity.
Qed.

(** X13.  When no service can raise, the packets put into the queue are,
    in this order, those processed, the one in service, the one being
    handed over and those waiting; and the packets are processed in
    strictly increasing order of their ids, none twice. *)
Theorem processing_order stdexp cfg s :
  (0 < SERVER_RATE cfg)%Q -> (0 < SIZE_PACKET cfg)%Q ->
  (forall n, (0 <= stdexp (RANDOM_SEED cfg) n)%Q) ->
  reachable stdexp cfg s ->
  admitted_of (trace s) =
    map fst (processed_of (trace s)) ++ serving s ++ in_handover s ++ items s /\
  StronglySorted Z.lt (map id (map fst (processed_of (trace s)))).
Proof.
  intros Vr Vs Vd R.
  pose proof (fifo_invariant stdexp cfg s R) as F. unfold fifo in F.
  pose proof (single_server_invariant stdexp cfg s Vr Vs Vd R) as T.
  destruct (generated_invariant stdexp cfg s R) as (_ & _ & _ & _ & G5).
  assert (E : admitted_of (trace s) =
              map fst (processed_of (trace s)) ++
              serving s ++ in_handover s ++ items s)
    by (rewrite F, T, <- app_assoc; reflexivity).
  split; [exact E|].
  pose proof (admitted_sorted (trace s)) as A.
  rewrite (offered_ids stdexp cfg _ G5) in A.
  specialize (A (seq_sorted _ _)).
  rewrite E, map_app in A. eapply sorted_prefix. exact A.
Qed.

Lemma processing_order_witness :
  let s := state_after two_arrivals cfg_short 14 in
  map id (map fst (processed_of (trace s))) = [1] /\
  (admitted_of (trace s) =
     map fst (processed_of (trace s)) ++ serving s ++ in_handover s ++ items s /\
   StronglySorted Z.lt (map id (map fst (processed_of (trace s))))).
Proof.
  split; [vm_compute; reflexivity|].
  apply (processing_order two_arrivals cfg_short).
  - reflexivity.
  - reflexivity.
  - intros n. unfold two_arrivals, draws.
    do 4 (destruct n as [|n]; [vm_compute; discriminate|]).
    destruct n; vm_compute; discriminate.
  - apply state_after_reachable. vm_compute. reflexivity.
Defined.

(** X14.  In byte mode with a positive limit the byte counter, and with it
    the number of bytes in [queue.items], stays below [QUEUE_LIMIT] (no
    size being negative: a positive mean size and non-negative draws). *)
Theorem byte_limit_respected stdexp cfg s :
  LIMIT_BYTES cfg = true ->
  (0 < QUEUE_LIMIT cfg)%Q ->
  (0 < SIZE_PACKET cfg)%Q ->
  (forall n, (0 <= stdexp (RANDOM_SEED cfg) n)%Q) ->
  reachable stdexp cfg s ->
  (inject_Z (byte_size s) < QUEUE_LIMIT cfg)%Q /\
  (inject_Z (resident_bytes s) < QUEUE_LIMIT cfg)%Q.
Proof.
  intros Hmode Hlim Vs Vd R.
  pose proof (byte_bound_invariant stdexp cfg s Hmode Hlim Vs Vd R) as B.
  split; [exact B|].
  pose proof (byte_size_invariant stdexp cfg s R) as E.
  destruct (nonneg_sizes_invariant stdexp cfg s Vs Vd R) as [_ N2].
  pose proof (sum_of_nonneg _ _ N2) as P. fold (handover_bytes s) in P.
  eapply Qle_lt_trans; [|exact B]. rewrite <- Zle_Qle. lia.
Qed.

Lemma byte_limit_respected_witness :
  let s := state_after two_arrivals cfg_bytes150 6 in
  byte_size s = 100 /\
  ((inject_Z (byte_size s) < QUEUE_LIMIT cfg_bytes150)%Q /\
   (inject_Z (resident_bytes s) < QUEUE_LIMIT cfg_bytes150)%Q).
Proof.
  split; [vm_compute; reflexivity|].
  apply (byte_limit_respected two_arrivals cfg_bytes150).
  - reflexivity.
  - reflexivity.
  - reflexivity.
  - intros n. unfold two_arrivals, draws.
    do 4 (destruct n as [|n]; [vm_compute; discriminate|]).
    destruct n; vm_compute; discriminate.
  - apply state_after_reachable. vm_compute. reflexivity.
Defined.

(** ** The report *)

Lemma lenQ_zero {A} (l : list A) : Qeq_bool (lenQ l) 0 = true <-> l = [].
Proof.
  split.
  - intros H. apply Qeq_bool_iff in H. unfold lenQ in H.
    destruct l as [|a l]; [reflexivity|]. exfalso.
    cbn [length] in H. rewrite Nat2Z.inj_succ in H.
    unfold Qeq, inject_Z in H. cbn in H. lia.
  - intros ->. reflexivity.
Qed.

Lemma truediv_len {A} (a : Q) (l : list A) s :
  l <> [] -> truediv a (lenQ l) s = (inr (a / lenQ l)%Q, s).
Proof.
  intros H. unfold truediv.
  destruct (Qeq_bool (lenQ l) 0) eqn:E; [|reflexivity].
  apply lenQ_zero in E. contradiction.
Qed.

Lemma truediv_zero (a b : Q) s :
  (b == 0)%Q -> truediv a b s = (inl ZeroDivisionError, s).
Proof.
  intros H. unfold truediv. apply Qeq_bool_iff in H. rewrite H. reflexivity.
Qed.

Lemma truediv_nonzero (a b : Q) s :
  ~ (b == 0)%Q -> truediv a b s = (inr (a / b)%Q, s).
Proof.
  intros H. unfold truediv.
  destruct (Qeq_bool b 0) eqn:E; [|reflexivity].
  apply Qeq_bool_iff in E. contradiction.
Qed.

Lemma running_means_last {A} (mean : list A -> Q) l d :
  l <> [] -> last (running_means mean l) d = mean l.
Proof.
  intros H. destruct (exists_last H) as (l' & x & ->).
  rewrite running_means_snoc. apply last_last.
Qed.

Section Report.

Variable stdexp : Z -> nat -> Q.
Variable cfg : Config.

Lemma summary_raises s :
  reachable stdexp cfg s ->
  packets_recorded s = 0 \/ samp_time s = [] ->
  summary s = (inl ZeroDivisionError, s).
Proof.
  intros R H.
  destruct (recorder_lengths stdexp cfg s R) as (_ & _ & L3).
  destruct (sample_lengths stdexp cfg s R) as (_ & K2 & _).
  unfold summary, bind.
  destruct (queue_times s) as [|x qt] eqn:E1; [reflexivity|].
  rewrite truediv_len by discriminate.
  destruct (queue_sizes s) as [|y qs] eqn:E2; [reflexivity|].
  exfalso. destruct H as [H|H].
  - rewrite H in L3. cbn [length] in L3. lia.
  - rewrite H in K2. discriminate K2.
Qed.

Lemma summary_returns s :
  reachable stdexp cfg s ->
  0 < packets_recorded s -> samp_time s <> [] ->
  exists r, summary s = (inr r, s) /\
    avg_time r = last (queue_avg_times s) 0%Q /\
    avg_packets r = last (queue_avg_sizes s) 0%Q /\
    (0 <= loss r <= 100)%Q /\ (0 <= entering r <= 100)%Q.
Proof.
  intros R Hrec Hs.
  destruct (recorder_lengths stdexp cfg s R) as (_ & _ & L3).
  destruct (sample_lengths stdexp cfg s R) as (K1 & K2 & _).
  destruct (averages_invariant stdexp cfg s R) as (A1 & A2).
  destruct (counted_invariant stdexp cfg s R) as (C1 & C2 & _).
  pose proof (balanced_invariant stdexp cfg s R) as B.
  pose proof (completed_le_invariant stdexp cfg s R) as Le.
  pose proof (in_system_nonneg (heap s)) as Nn.
  assert (Q1 : queue_times s <> [])
    by (intros E; rewrite E in L3; cbn [length] in L3; lia).
  assert (Q2 : queue_sizes s <> [])
    by (intros E; rewrite E in K2; destruct (samp_time s);
        [apply Hs; reflexivity|discriminate K2]).
  assert (Q3 : byte_sizes s <> [])
    by (intros E; rewrite E in K1; destruct (samp_time s);
        [apply Hs; reflexivity|discriminate K1]).
  assert (Q4 : 0 < packets_rec s) by lia.
  assert (Q5 : ~ (inject_Z (packets_rec s) == 0)%Q).
  { intros E. unfold Qeq, inject_Z in E. cbn in E. lia. }
  unfold summary, bind.
  rewrite !truediv_len by assumption.
  rewrite !truediv_nonzero by assumption.
  eexists. split; [reflexivity|]. cbn [avg_time avg_packets loss entering].
  rewrite A1, A2, !running_means_last by assumption.
  split; [reflexivity|]. split; [reflexivity|].
  assert (P : (0 < inject_Z (packets_rec s))%Q)
    by (change 0%Q with (inject_Z 0); rewrite <- Zlt_Qlt; exact Q4).
  assert (D0 : (0 <= inject_Z (packets_drop s))%Q)
    by (change 0%Q with (inject_Z 0); rewrite <- Zle_Qle; lia).
  assert (D1 : (inject_Z (packets_drop s) <= inject_Z (packets_rec s))%Q)
    by (rewrite <- Zle_Qle; lia).
  assert (E0 : (0 <= inject_Z (packets_queue s))%Q)
    by (change 0%Q with (inject_Z 0); rewrite <- Zle_Qle; lia).
  assert (E1 : (inject_Z (packets_queue s) <= inject_Z (packets_rec s))%Q)
    by (rewrite <- Zle_Qle; lia).
  set (x := (inject_Z (packets_drop s) / inject_Z (packets_rec s))%Q).
  set (y := (inject_Z (packets_queue s) / inject_Z (packets_rec s))%Q).
  assert (X0 : (0 <= x)%Q) by (apply Qle_shift_div_l; [exact P|lra]).
  assert (X1 : (x <= 1)%Q) by (apply Qle_shift_div_r; [exact P|lra]).
  assert (Y0 : (0 <= y)%Q) by (apply Qle_shift_div_l; [exact P|lra]).
  assert (Y1 : (y <= 1)%Q) by (apply Qle_shift_div_r; [exact P|lra]).
  split; lra.
Qed.

End Report.

Lemma mean_delay_raises cfg s :
  (TIME_ARRIVAL cfg == 0)%Q \/ (SIZE_PACKET cfg == 0)%Q ->
  mean_delay cfg s = (inl ZeroDivisionError, s).
Proof.
  intros H. unfold mean_delay, bind.
  destruct (Qeq_dec (TIME_ARRIVAL cfg) 0) as [E|E].
  - rewrite truediv_zero by exact E. reflexivity.
  - rewrite truediv_nonzero by exact E.
    destruct H as [H|H]; [contradiction|].
    rewrite truediv_zero; [reflexivity|]. rewrite H. reflexivity.
Qed.

Lemma mean_delay_returns cfg s :
  ~ (TIME_ARRIVAL cfg == 0)%Q -> ~ (SIZE_PACKET cfg == 0)%Q ->
  exists d, mean_delay cfg s = (inr d, s).
Proof.
  intros Ha Hs. unfold mean_delay, bind.
  rewrite truediv_nonzero by exact Ha.
  assert (Hs8 : ~ (SIZE_PACKET cfg * 8 == 0)%Q) by (intros E; apply Hs; lra).
  rewrite truediv_nonzero by exact Hs8.
  match goal with
  | |- context [Qeq_bool ?a 0] => destruct (Qeq_bool a 0) eqn:E
  end.
  - eexists. reflexivity.
  - apply Qeq_bool_neq in E. rewrite truediv_nonzero by exact E.
    eexists. reflexivity.
Qed.

(** X15.  The summary after the run raises ZeroDivisionError when no
    packet was processed or no sample was taken.  Otherwise it returns:
    the average time is the last entry of [queue_avg_times], the average
    number of packets the last entry of [queue_avg_sizes], and the two
    percentages lie between 0 and 100. *)
Theorem summary_after_run stdexp cfg s :
  reachable stdexp cfg s ->
  (packets_recorded s = 0 \/ samp_time s = [] ->
   summary s = (inl ZeroDivisionError, s)) /\
  (0 < packets_recorded s -> samp_time s <> [] ->
   exists r, summary s = (inr r, s) /\
     avg_time r = last (queue_avg_times s) 0%Q /\
     avg_packets r = last (queue_avg_sizes s) 0%Q /\
     (0 <= loss r <= 100)%Q /\ (0 <= entering r <= 100)%Q).
Proof.
  intros R. split.
  - apply (summary_raises stdexp cfg s R).
  - apply (summary_returns stdexp cfg s R).
Qed.

Lemma summary_after_run_witness :
  let s := state_after two_arrivals cfg_short 14 in
  (packets_recorded s = 0 \/ samp_time s = [] ->
   summary s = (inl ZeroDivisionError, s)) /\
  (0 < packets_recorded s -> samp_time s <> [] ->
   exists r, summary s = (inr r, s) /\
     avg_time r = last (queue_avg_times s) 0%Q /\
     avg_packets r = last (queue_avg_sizes s) 0%Q /\
     (0 <= loss r <= 100)%Q /\ (0 <= entering r <= 100)%Q).
Proof.
  apply (summary_after_run two_arrivals cfg_short).
  apply state_after_reachable. vm_compute. reflexivity.
Defined.

(** X16.  The closing computation of the mean delay raises
    ZeroDivisionError exactly when [TIME_ARRIVAL] or [SIZE_PACKET] is
    zero.  A zero [SERVER_RATE] does not raise, nor do equal rates: the
    last division is guarded by the test of its divisor. *)
Theorem mean_delay_errors cfg s :
  ((TIME_ARRIVAL cfg == 0)%Q \/ (SIZE_PACKET cfg == 0)%Q ->
   mean_delay cfg s = (inl ZeroDivisionError, s)) /\
  (~ (TIME_ARRIVAL cfg == 0)%Q -> ~ (SIZE_PACKET cfg == 0)%Q ->
   exists d, mean_delay cfg s = (inr d, s)).
Proof.
  split.
  - apply mean_delay_raises.
  - apply mean_delay_returns.
Qed.

Lemma mean_delay_errors_witness :
  mean_delay cfg_size0 fresh = (inl ZeroDivisionError, fresh) /\
  exists d, mean_delay cfg_rate0 fresh = (inr d, fresh).
Proof.
  split.
  - apply (proj1 (mean_delay_errors cfg_size0 fresh)). right. reflexivity.
  - apply (proj2 (mean_delay_errors cfg_rate0 fresh));
      intros E; vm_compute in E; discriminate E.
Defined.

(** ** The waiting server *)

Section Waiting.

Variable stdexp : Z -> nat -> Q.
Variable cfg : Config.


End Waiting.



(** ** The monitor *)






Section Sampling.

Variable stdexp : Z -> nat -> Q.
Variable cfg : Config.


End Sampling.



(** ** Malformed configurations *)

Lemma inv_neg x : (x < 0)%Q -> (1 / x < 0)%Q.
Proof.
  intros H. assert (P : (0 < 1 / (- x))%Q) by (apply period_pos; lra).
  assert (E : (1 / x == - (1 / (- x)))%Q) by (field; lra).
  rewrite E. lra.
Qed.

Section Malformed.

Variable stdexp : Z -> nat -> Q.
Variable cfg : Config.

Lemma idle_server_invariant s :
  (SERVER_RATE cfg == 0)%Q ->
  reachable stdexp cfg s ->
  packets_recorded s = 0 /\
  Forall (fun e => forall p, event e <> Timeout (KServer p)) (heap s).
Proof.
  intros Z0. revert s. apply reachable_invariant.
  - intros s0 H. apply start_inv in H. destruct H as [_ ->]. split.
    + reflexivity.
    + cbn. repeat constructor; cbn; discriminate.
  - intros s s' R (I1 & I2) H.
    step_cases H.
    all: apply (Permutation_Forall (heappop_perm _ _ _ Hpop)) in I2;
         apply Forall_cons_iff in I2; destruct I2 as [I0 I2];
         cbn [event] in I0.
    all: try (exfalso; eapply I0; reflexivity).
    all: try (exfalso; props; contradiction).
    all: split; [exact I1|].
    all: rewrite ?Forall_app; repeat split; try assumption;
         repeat constructor; cbn [event]; discriminate.
Qed.

Lemma no_sample_invariant s :
  (SAMPLING_INTERVALL cfg <= 0)%Q ->
  reachable stdexp cfg s ->
  samp_time s = [] /\
  Forall (fun e => event e <> Timeout KMonitor) (heap s).
Proof.
  intros Z0. revert s. apply reachable_invariant.
  - intros s0 H. apply start_inv in H. destruct H as [_ ->]. split.
    + reflexivity.
    + cbn. repeat constructor; cbn; discriminate.
  - intros s s' R (I1 & I2) H.
    step_cases H.
    all: apply (Permutation_Forall (heappop_perm _ _ _ Hpop)) in I2;
         apply Forall_cons_iff in I2; destruct I2 as [I0 I2];
         cbn [event] in I0.
    all: try (exfalso; apply I0; reflexivity).
    all: try (exfalso; props;
              assert (SAMPLING_INTERVALL cfg < 0)%Q
                by (destruct (Qle_lt_or_eq _ _ Z0); [assumption|contradiction]);
              pose proof (inv_neg _ H); lra).
    all: split; [exact I1|].
    all: rewrite ?Forall_app; repeat split; try assumption;
         repeat constructor; cbn [event]; discriminate.
Qed.

Lemma no_admission_invariant s :
  (QUEUE_LIMIT cfg <= 0)%Q ->
  (LIMIT_BYTES cfg = true ->
   (0 < SIZE_PACKET cfg)%Q /\ forall n, (0 <= stdexp (RANDOM_SEED cfg) n)%Q) ->
  reachable stdexp cfg s ->
  packets_queue s = 0.
Proof.
  intros L Hb. revert s. apply reachable_invariant.
  - intros s0 H. apply start_inv in H. destruct H as [_ ->]. reflexivity.
  - intros s s' R IH H.
    assert (B : LIMIT_BYTES cfg = true -> 0 <= byte_size s).
    { intros M. destruct (Hb M) as [Vs Vd].
      pose proof (byte_size_invariant stdexp cfg s R) as E.
      destruct (nonneg_sizes_invariant stdexp cfg s Vs Vd R) as [N1 N2].
      pose proof (sum_of_nonneg _ _ N1) as P1.
      pose proof (sum_of_nonneg _ _ N2) as P2.
      unfold resident_bytes, handover_bytes in E. lia. }
    step_cases H; try exact IH; exfalso.
    all: destruct (LIMIT_BYTES cfg) eqn:M; cbn [negb andb] in *; props;
         try discriminate.
    all: try (destruct (Hb eq_refl) as [Vs Vd]; specialize (B eq_refl);
              match goal with
              | K : (inject_Z (?b + int ?q) < _)%Q |- _ =>
                  assert (0 <= int q)
                    by (apply int_nonneg, expo_nonneg; auto);
                  assert (0 <= inject_Z (b + int q))%Q
                    by (change 0%Q with (inject_Z 0); rewrite <- Zle_Qle; lia);
                  lra
              end).
    all: match goal with
         | K : (inject_Z (Z.of_nat ?n) < _)%Q |- _ =>
             assert (0 <= inject_Z (Z.of_nat n))%Q
               by (change 0%Q with (inject_Z 0); rewrite <- Zle_Qle; lia);
             lra
         end.
Qed.


(** The script reports only if the run stops at the horizon in a state
    in which the summary and the mean delay can be computed. *)
Lemma reported_inv fuel s r d :
  script stdexp cfg fuel = Reported s r d ->
  reachable stdexp cfg s /\
  (exists s1, summary s = (inr r, s1) /\ mean_delay cfg s1 = (inr d, s1)).
Proof.
  unfold script. destruct (start cfg) as [e|s0] eqn:E0; [discriminate|].
  destruct (run stdexp cfg fuel s0) as [s1|s1|e s1|s1] eqn:Er; try discriminate.
  unfold bind.
  destruct (summary s1) as [[e|r'] s2] eqn:Es; [discriminate|].
  destruct (mean_delay cfg s2) as [[e|d'] s3] eqn:Ed; [discriminate|].
  unfold ret. intros H. inversion H; subst. split.
  - eapply reachable_run_finished; [apply reach_start; exact E0|exact Er].
  - exists s2. split; [exact Es|].
    destruct (Qeq_dec (TIME_ARRIVAL cfg) 0) as [Z1|Z1];
      [rewrite mean_delay_raises in Ed by (left; exact Z1); discriminate|].
    destruct (Qeq_dec (SIZE_PACKET cfg) 0) as [Z2|Z2];
      [rewrite mean_delay_raises in Ed by (right; exact Z2); discriminate|].
    destruct (mean_delay_returns cfg s2 Z1 Z2) as (d0 & E).
    rewrite E in Ed. inversion Ed; subst. exact E.
Qed.

Lemma never_reports fuel :
  (SERVER_RATE cfg == 0)%Q \/ (TIME_ARRIVAL cfg == 0)%Q \/
  (SIZE_PACKET cfg == 0)%Q \/ (SAMPLING_INTERVALL cfg <= 0)%Q \/
  NUMBER_PACKETS cfg <= 0 \/
  ((QUEUE_LIMIT cfg <= 0)%Q /\
   (LIMIT_BYTES cfg = true ->
    (0 < SIZE_PACKET cfg)%Q /\
    forall n, (0 <= stdexp (RANDOM_SEED cfg) n)%Q)) ->
  forall s r d, script stdexp cfg fuel <> Reported s r d.
Proof.
  intros H s r d Hs.
  destruct (reported_inv fuel s r d Hs) as (R & s1 & Es & Ed).
  assert (K : (packets_recorded s = 0 \/ samp_time s = []) \/
              (TIME_ARRIVAL cfg == 0)%Q \/ (SIZE_PACKET cfg == 0)%Q).
  { assert (Le : packets_recorded s <= packets_queue s).
    { pose proof (completed_le_invariant stdexp cfg s R).
      pose proof (in_system_nonneg (heap s)). lia. }
    destruct (recorder_lengths stdexp cfg s R) as (_ & _ & L3).
    destruct H as [H|[H|[H|[H|[H|[H1 H2]]]]]]; auto.
    - left. left. apply (idle_server_invariant s H R).
    - left. right. apply (no_sample_invariant s H R).
    - left. left.
      destruct (generated_invariant stdexp cfg s R) as (_ & _ & _ & G4 & _).
      destruct (counted_invariant stdexp cfg s R) as (_ & C2 & _).
      pose proof (balanced_invariant stdexp cfg s R) as B. lia.
    - left. left. pose proof (no_admission_invariant s H1 H2 R). lia. }
  destruct K as [K|K].
  - rewrite (summary_raises stdexp cfg s R K) in Es. discriminate.
  - rewrite (mean_delay_raises cfg s1 K) in Ed. discriminate.
Qed.

End Malformed.

Lemma first_step stdexp cfg s0 :
  start cfg = inr s0 ->
  exists s1, step stdexp cfg s0 = Continue s1.
Proof.
  intros H. apply start_inv in H. destruct H as [Hpos ->].
  unfold step. cbn [heap schedule processes fresh set_heap set_next_eid
                    now next_eid heappop app].
  assert (K : forall p i,
             key_ltb (mkEntry (0 + (SIMULATION_TIME cfg - 0)) URGENT 3%nat Until)
                     (mkEntry (0 + 0) p i (Initialize Monitor)) = false).
  { intros p i. unfold key_ltb. cbn [at_time].
    destruct (Qcompare_spec (0 + (SIMULATION_TIME cfg - 0)) (0 + 0)) as [E|E|E];
      try reflexivity; exfalso; lra. }
  rewrite K. cbn. eexists. reflexivity.
Qed.

(** C9 as stated fails.  With a buffer limit of zero the run reaches the
    horizon without any error, both packets being dropped; with a server
    rate of zero six events are executed before the division by zero in the
    server aborts the run. *)
Lemma invalid_configuration_runs :
  ((QUEUE_LIMIT cfg_limit0 <= 0)%Q /\
   exists s, simulate two_arrivals cfg_limit0 9 = inr (Finished s) /\
             packets_sent s = 2 /\ packets_drop s = 2 /\ packets_queue s = 0) /\
  ((SERVER_RATE cfg_rate0 <= 0)%Q /\
   running two_arrivals cfg_rate0 6 = true /\
   exists s, simulate two_arrivals cfg_rate0 7 = inr (Crashed ZeroDivisionError s)).
Proof.
  split.
  - split; [vm_compute; discriminate|].
    eexists. split; [vm_compute; reflexivity|].
    repeat split; reflexivity.
  - split; [vm_compute; discriminate|].
    split; [vm_compute; reflexivity|].
    eexists. vm_compute. reflexivity.
Qed.

(** C9 (as amended).  No configuration value is checked before the
    Scheduler begins: whenever the horizon is positive, start-up succeeds
    and the Scheduler executes its first event, whatever the rate, the
    mean size, the limit and the sampling value are.  There is no
    InvalidConfiguration error; a malformed value surfaces later, if at
    all, as the ZeroDivisionError or ValueError of a process or of the
    closing summary.  [toQueue] itself accepts a non-positive limit and
    drops the packet (in byte mode, when the candidate byte count is not
    negative).  With a zero rate, a zero mean size, a non-positive
    sampling value, or a non-positive limit (no size being negative),
    the script never reaches its report. *)
Theorem no_configuration_check stdexp cfg :
  (0 < SIMULATION_TIME cfg)%Q ->
  (exists s0 s1, start cfg = inr s0 /\ step stdexp cfg s0 = Continue s1) /\
  ((QUEUE_LIMIT cfg <= 0)%Q ->
   forall p s,
     (LIMIT_BYTES cfg = true -> 0 <= byte_size s + size p) ->
     fst (toQueue cfg p s) = inr tt /\
     dropped_by p s (snd (toQueue cfg p s))) /\
  ((SERVER_RATE cfg == 0)%Q \/ (SIZE_PACKET cfg == 0)%Q \/
   (SAMPLING_INTERVALL cfg <= 0)%Q \/
   ((QUEUE_LIMIT cfg <= 0)%Q /\
    (LIMIT_BYTES cfg = true ->
     (0 < SIZE_PACKET cfg)%Q /\
     forall n, (0 <= stdexp (RANDOM_SEED cfg) n)%Q)) ->
   forall fuel s r d, script stdexp cfg fuel <> Reported s r d).
Proof.
  intros Hpos. split; [|split].
  - unfold start. cbn [now processes schedule fresh set_heap set_next_eid].
    destruct (Qle_bool (SIMULATION_TIME cfg) 0) eqn:E.
    + apply Qle_bool_iff in E. lra.
    + eexists.
      destruct (first_step stdexp cfg
                  (schedule Until URGENT (SIMULATION_TIME cfg - 0) processes))
        as [s1 H1].
      * unfold start. cbn [now processes schedule fresh set_heap set_next_eid].
        rewrite E. reflexivity.
      * exists s1. split; [reflexivity|exact H1].
  - intros Hlim p s Hb.
    destruct (toQueue_cases cfg p s) as [Hok H]. cbn zeta in H.
    split; [exact Hok|].
    destruct H as [(_ & _ & H)|[(_ & _ & H)|[(M & C & _)|(_ & C & _)]]];
      try exact H; exfalso.
    + specialize (Hb M).
      assert (0 <= inject_Z (byte_size s + size p))%Q
        by (change 0%Q with (inject_Z 0); rewrite <- Zle_Qle; exact Hb).
      lra.
    + assert (0 <= inject_Z (Z.of_nat (length (items s))))%Q
        by (change 0%Q with (inject_Z 0); rewrite <- Zle_Qle; lia).
      lra.
  - intros H fuel. apply never_reports. tauto.
Qed.

Lemma no_configuration_check_witness :
  script two_arrivals cfg_limit0 9 = Raised ZeroDivisionError /\
  (exists s0 s1, start cfg_limit0 = inr s0 /\
                 step two_arrivals cfg_limit0 s0 = Continue s1) /\
  ((QUEUE_LIMIT cfg_limit0 <= 0)%Q ->
   forall p s,
     (LIMIT_BYTES cfg_limit0 = true -> 0 <= byte_size s + size p) ->
     fst (toQueue cfg_limit0 p s) = inr tt /\
     dropped_by p s (snd (toQueue cfg_limit0 p s))) /\
  ((SERVER_RATE cfg_limit0 == 0)%Q \/ (SIZE_PACKET cfg_limit0 == 0)%Q \/
   (SAMPLING_INTERVALL cfg_limit0 <= 0)%Q \/
   ((QUEUE_LIMIT cfg_limit0 <= 0)%Q /\
    (LIMIT_BYTES cfg_limit0 = true ->
     (0 < SIZE_PACKET cfg_limit0)%Q /\
     forall n, (0 <= two_arrivals (RANDOM_SEED cfg_limit0) n)%Q)) ->
   forall fuel s r d, script two_arrivals cfg_limit0 fuel <> Reported s r d).
Proof.
  split; [vm_compute; reflexivity|].
  apply (no_configuration_check two_arrivals cfg_limit0).
  reflexivity.
Defined.


